(** * Austrian-law-mcp: citation and text normalisation engine

    A shallow embedding of the string functions of the repository: the
    citation parser and formatter, the content cleaner, the FTS5 query
    builder, the provision lookup candidates and the citation validator,
    together with the part of the ECMAScript regular expression semantics
    they rely on (a backtracking matcher in continuation-passing style,
    with greedy and lazy quantifiers, captures, anchors and the [i] flag).

    The first part holds the model, pattern by pattern and function by
    function as the sources have them; the second part replays the unit
    tests of the repository on the model; the third part holds the proofs
    of the claims C1 to C10 about the specification. *)

From Stdlib Require Import String Ascii.
From Stdlib Require Import List NArith ZArith Bool Lia Arith.
Import ListNotations.

Set Implicit Arguments.

(* ================================================================= *)
(** ** JavaScript strings *)

(** A JavaScript string is a sequence of UTF-16 code units. *)
Definition cu := N.
Bind Scope N_scope with cu.
Definition jstr := list cu.

Definition bytes_of (s : string) : list N :=
  map (fun b => N_of_ascii b) (list_ascii_of_string s).

(** Source literals are written in UTF-8; [utf16_of_bytes] re-encodes the
    bytes of a literal into UTF-16 code units. *)
Fixpoint utf16_of_bytes (bs : list N) : jstr :=
  match bs with
  | [] => []
  | b :: tl =>
    if (b <? 128)%N then b :: utf16_of_bytes tl
    else if (b <? 224)%N then
      match tl with
      | b2 :: tl2 =>
        (N.land b 31 * 64 + N.land b2 63)%N :: utf16_of_bytes tl2
      | _ => []
      end
    else if (b <? 240)%N then
      match tl with
      | b2 :: b3 :: tl3 =>
        (N.land b 15 * 4096 + N.land b2 63 * 64 + N.land b3 63)%N
          :: utf16_of_bytes tl3
      | _ => []
      end
    else
      match tl with
      | b2 :: b3 :: b4 :: tl4 =>
        let cp := (N.land b 7 * 262144 + N.land b2 63 * 4096
                   + N.land b3 63 * 64 + N.land b4 63)%N in
        let v := (cp - 65536)%N in
        (55296 + N.shiftr v 10)%N :: (56320 + N.land v 1023)%N
          :: utf16_of_bytes tl4
      | _ => []
      end
  end.

Definition js (s : string) : jstr := utf16_of_bytes (bytes_of s).

Definition in_range (lo hi c : cu) : bool := ((lo <=? c) && (c <=? hi))%N.

Definition is_digit (c : cu) : bool := in_range 48 57 c.
Definition is_lower (c : cu) : bool := in_range 97 122 c.
Definition is_upper (c : cu) : bool := in_range 65 90 c.

(** [\w]: the ASCII word characters. *)
Definition is_word (c : cu) : bool :=
  is_lower c || is_upper c || is_digit c || (c =? 95)%N.

(** WhiteSpace and LineTerminator code points: the set matched by [\s]
    and stripped by [String.prototype.trim]. *)
Definition is_space (c : cu) : bool :=
  in_range 9 13 c || (c =? 32)%N || (c =? 160)%N || (c =? 5760)%N
  || in_range 8192 8202 c || (c =? 8232)%N || (c =? 8233)%N
  || (c =? 8239)%N || (c =? 8287)%N || (c =? 12288)%N || (c =? 65279)%N.

(** LineTerminator: the characters [.] does not match. *)
Definition is_line_terminator (c : cu) : bool :=
  (c =? 10)%N || (c =? 13)%N || (c =? 8232)%N || (c =? 8233)%N.

Fixpoint drop_while (f : cu -> bool) (s : jstr) : jstr :=
  match s with
  | [] => []
  | c :: tl => if f c then drop_while f tl else s
  end.

Definition trimStart (s : jstr) : jstr := drop_while is_space s.
Definition trimEnd (s : jstr) : jstr := rev (drop_while is_space (rev s)).

(** [String.prototype.trim]. *)
Definition trim (s : jstr) : jstr := trimEnd (trimStart s).

Fixpoint jstr_eqb (a b : jstr) : bool :=
  match a, b with
  | [], [] => true
  | x :: a', y :: b' => (x =? y)%N && jstr_eqb a' b'
  | _, _ => false
  end.

Fixpoint starts_with (pre s : jstr) : bool :=
  match pre, s with
  | [], _ => true
  | x :: pre', y :: s' => (x =? y)%N && starts_with pre' s'
  | _ :: _, [] => false
  end.

(** [String.prototype.includes]. *)
Fixpoint includes (s sub : jstr) : bool :=
  starts_with sub s ||
  match s with
  | [] => false
  | _ :: tl => includes tl sub
  end.

(** [Array.prototype.join]. *)
Fixpoint join (sep : jstr) (l : list jstr) : jstr :=
  match l with
  | [] => []
  | [x] => x
  | x :: tl => x ++ sep ++ join sep tl
  end.

(** [String.prototype.split] with a one-code-unit separator: [cur] holds
    the reversed piece being read. *)
Fixpoint split_go (sep : cu) (cur : jstr) (s : jstr) : list jstr :=
  match s with
  | [] => [rev cur]
  | c :: tl =>
    if (c =? sep)%N then rev cur :: split_go sep [] tl
    else split_go sep (c :: cur) tl
  end.

Definition split (sep : cu) (s : jstr) : list jstr := split_go sep [] s.

(** JavaScript truthiness of a possibly undefined string. *)
Definition truthy (o : option jstr) : bool :=
  match o with
  | Some (_ :: _) => true
  | _ => false
  end.

(** [a ?? b]. *)
Definition nullish (A : Type) (a : option A) (b : A) : A :=
  match a with
  | Some x => x
  | None => b
  end.

(* ================================================================= *)
(** ** Regular expressions *)

(** Class atoms: a range, or one of the escapes [\d], [\s], [\w]. *)
Inductive citem :=
| CRange (lo hi : cu)
| CDigit
| CSpace
| CWord.

Inductive regex :=
| Eps
| Chr (c : cu)
| Cls (neg : bool) (items : list citem)
| Dot
| Seq (r1 r2 : regex)
| Alt (r1 r2 : regex)
| Rep (greedy : bool) (min : nat) (max : option nat) (r : regex)
| Grp (i : nat) (r : regex)
| Bol
| Eol
| WordB.

(** Capture registers: the most recent binding of an index wins. *)
Definition caps := list (nat * jstr).

Fixpoint get_cap (i : nat) (cs : caps) : option jstr :=
  match cs with
  | [] => None
  | (j, w) :: tl => if Nat.eqb i j then Some w else get_cap i tl
  end.

Definition set_cap (i : nat) (w : jstr) (cs : caps) : caps := (i, w) :: cs.

Fixpoint mem_nat (i : nat) (l : list nat) : bool :=
  match l with
  | [] => false
  | j :: tl => Nat.eqb i j || mem_nat i tl
  end.

Fixpoint clear_caps (l : list nat) (cs : caps) : caps :=
  match cs with
  | [] => []
  | (j, w) :: tl =>
    if mem_nat j l then clear_caps l tl else (j, w) :: clear_caps l tl
  end.

Fixpoint groups (r : regex) : list nat :=
  match r with
  | Seq a b | Alt a b => groups a ++ groups b
  | Rep _ _ _ a => groups a
  | Grp i a => i :: groups a
  | _ => []
  end.

(** Canonicalize (non-unicode [i] flag) on Latin-1: a character of
    code 128 or more never folds to an ASCII one, and outside Latin-1 no
    character folds to a character used in a pattern of this repository,
    so the identity is taken there. *)
Definition canon (c : cu) : cu :=
  if is_lower c then (c - 32)%N
  else if in_range 224 254 c && negb (c =? 247)%N then (c - 32)%N
  else c.

Definition uncanon (c : cu) : cu :=
  if is_upper c then (c + 32)%N
  else if in_range 192 222 c && negb (c =? 215)%N then (c + 32)%N
  else c.

Definition item_mem (it : citem) (c : cu) : bool :=
  match it with
  | CRange lo hi => in_range lo hi c
  | CDigit => is_digit c
  | CSpace => is_space c
  | CWord => is_word c
  end.

Definition items_mem (items : list citem) (c : cu) : bool :=
  existsb (fun it => item_mem it c) items.

(** Membership of [c] in a class, under the [i] flag when [ic] holds. *)
Definition class_mem (ic : bool) (neg : bool) (items : list citem) (c : cu)
  : bool :=
  let hit :=
    if ic then items_mem items (canon c) || items_mem items (uncanon (canon c))
    else items_mem items c in
  xorb neg hit.

Definition chr_eq (ic : bool) (pat c : cu) : bool :=
  if ic then (canon pat =? canon c)%N else (pat =? c)%N.

Definition is_word_opt (o : option cu) : bool :=
  match o with
  | Some c => is_word c
  | None => false
  end.

Definition orelse (A : Type) (a b : option A) : option A :=
  match a with
  | Some x => Some x
  | None => b
  end.

Section Matcher.

(** The [i] flag of the pattern. *)
Variable ic : bool.
Variable A : Type.

(** A continuation receives the character before the current position,
    the rest of the input and the captures. *)
Definition cont := option cu -> jstr -> caps -> option A.
Definition matcher := option cu -> jstr -> caps -> cont -> option A.

(** RepeatMatcher: [fuel] bounds the iterations, every iteration beyond
    the mandatory ones has to consume input. *)
Fixpoint rep (body : matcher) (gs : list nat) (greedy : bool)
         (fuel mn : nat) (mx : option nat)
         (p : option cu) (s : jstr) (cs : caps) (k : cont) {struct fuel}
  : option A :=
  match fuel with
  | O => None
  | S fuel' =>
    match mx with
    | Some O => k p s cs
    | _ =>
      let again :=
        body p s (clear_caps gs cs)
             (fun p' s' cs' =>
                if Nat.eqb mn 0 && Nat.eqb (length s') (length s) then None
                else rep body gs greedy fuel' (pred mn)
                         (option_map pred mx) p' s' cs' k) in
      if negb (Nat.eqb mn 0) then again
      else if greedy then orelse again (k p s cs)
      else orelse (k p s cs) again
    end
  end.

Fixpoint m (r : regex) (p : option cu) (s : jstr) (cs : caps) (k : cont)
         {struct r} : option A :=
  match r with
  | Eps => k p s cs
  | Chr c =>
    match s with
    | a :: s' => if chr_eq ic c a then k (Some a) s' cs else None
    | [] => None
    end
  | Cls neg items =>
    match s with
    | a :: s' => if class_mem ic neg items a then k (Some a) s' cs else None
    | [] => None
    end
  | Dot =>
    match s with
    | a :: s' => if is_line_terminator a then None else k (Some a) s' cs
    | [] => None
    end
  | Seq r1 r2 => m r1 p s cs (fun p' s' cs' => m r2 p' s' cs' k)
  | Alt r1 r2 => orelse (m r1 p s cs k) (m r2 p s cs k)
  | Rep g mn mx r1 =>
    rep (m r1) (groups r1) g (S (mn + length s)) mn mx p s cs k
  | Grp i r1 =>
    m r1 p s cs
      (fun p' s' cs' =>
         k p' s' (set_cap i (firstn (length s - length s') s) cs'))
  | Bol => match p with None => k p s cs | Some _ => None end
  | Eol => match s with [] => k p s cs | _ :: _ => None end
  | WordB =>
    if xorb (is_word_opt p) (is_word_opt (hd_error s)) then k p s cs
    else None
  end.

End Matcher.

(** The result of a successful match: start index, matched text
    (group 0), text after the match, captures. *)
Record mres := {
  m_index : nat;
  m_text : jstr;
  m_after : jstr;
  m_caps : caps
}.

(** A match attempt at one position. *)
Definition exec_at (ic : bool) (r : regex) (p : option cu) (s : jstr)
  : option (jstr * caps) :=
  m ic r p s [] (fun _ s' cs' => Some (s', cs')).

(** Leftmost match at or after the current position (RegExpBuiltinExec of
    a pattern without the [g] and [y] flags). *)
Fixpoint search_from (ic : bool) (r : regex) (i : nat) (p : option cu)
         (s : jstr) : option mres :=
  match exec_at ic r p s with
  | Some (s', cs) =>
    Some {| m_index := i; m_text := firstn (length s - length s') s;
            m_after := s'; m_caps := cs |}
  | None =>
    match s with
    | [] => None
    | a :: tl => search_from ic r (S i) (Some a) tl
    end
  end.

Record jsregex := { re_ic : bool; re_body : regex }.

(** [str.match(re)] for a non-global pattern. *)
Definition re_match (re : jsregex) (s : jstr) : option mres :=
  search_from (re_ic re) (re_body re) 0 None s.

(** [re.test(str)]. *)
Definition re_test (re : jsregex) (s : jstr) : bool :=
  match re_match re s with Some _ => true | None => false end.

(** [match?.[i]]. *)
Definition grp (i : nat) (o : option mres) : option jstr :=
  match o with
  | Some r => get_cap i (m_caps r)
  | None => None
  end.

(** [str.replace(re, rep)] for a non-global pattern and a replacement
    without [$] patterns. *)
Definition re_replace (re : jsregex) (by_ : jstr) (s : jstr) : jstr :=
  match re_match re s with
  | Some r => firstn (m_index r) s ++ by_ ++ m_after r
  | None => s
  end.

(** [str.replace(re, rep)] for a pattern with the [g] flag: after an
    empty match the scan advances by one code unit. Every round reads at
    least one code unit, so the callers' fuel, one more than the length of
    the input, is never used up. *)
Fixpoint replace_all_go (ic : bool) (r : regex) (by_ : jstr) (fuel : nat)
         (p : option cu) (s : jstr) : jstr :=
  match fuel with
  | O => s
  | S fuel' =>
    match search_from ic r 0 p s with
    | None => s
    | Some res =>
      let pre := firstn (m_index res) s in
      match m_text res with
      | [] =>
        match m_after res with
        | [] => pre ++ by_
        | a :: tl =>
          pre ++ by_ ++ a :: replace_all_go ic r by_ fuel' (Some a) tl
        end
      | _ :: _ =>
        pre ++ by_ ++
          replace_all_go ic r by_ fuel' (Some (last (m_text res) 0%N))
                         (m_after res)
      end
    end
  end.

(* ================================================================= *)
(** ** Pattern notation *)

Definition chr (a : ascii) : regex := Chr (N_of_ascii a).

(** A literal: the code units of [s] in sequence. *)
Definition lit (s : string) : regex :=
  fold_right (fun c r => Seq (Chr c) r) Eps (js s).

Definition seqs (l : list regex) : regex := fold_right Seq Eps l.

Fixpoint alts (l : list regex) : regex :=
  match l with
  | [] => Eps
  | [r] => r
  | r :: tl => Alt r (alts tl)
  end.

Definition star (r : regex) : regex := Rep true 0 None r.
Definition plus (r : regex) : regex := Rep true 1 None r.
Definition opt (r : regex) : regex := Rep true 0 (Some 1) r.
Definition lazy_plus (r : regex) : regex := Rep false 1 None r.
Definition times (n : nat) (r : regex) : regex := Rep true n (Some n) r.
Definition between (n k : nat) (r : regex) : regex := Rep true n (Some k) r.
Definition at_least (n : nat) (r : regex) : regex := Rep true n None r.

Definition digit : regex := Cls false [CDigit].
Definition space : regex := Cls false [CSpace].
Definition wordc : regex := Cls false [CWord].
Definition a_z : regex := Cls false [CRange 97 122].

(* ================================================================= *)
(** ** Citation parser (citation/parser.ts) *)

Inductive number :=
| NaN
| Num (z : Z).

Fixpoint take_while (f : cu -> bool) (s : jstr) : jstr :=
  match s with
  | [] => []
  | c :: tl => if f c then c :: take_while f tl else []
  end.

Definition digits_value (ds : jstr) : N :=
  fold_left (fun acc d => (acc * 10 + (d - 48))%N) ds 0%N.

(** [Number.parseInt(s, 10)]. *)
Definition parseInt10 (s : jstr) : number :=
  let s1 := trimStart s in
  let '(neg, s2) :=
    match s1 with
    | c :: tl =>
      if (c =? 45)%N then (true, tl)
      else if (c =? 43)%N then (false, tl)
      else (false, s1)
    | [] => (false, s1)
    end in
  match take_while is_digit s2 with
  | [] => NaN
  | ds =>
    Num (if neg then (- Z.of_N (digits_value ds))%Z
         else Z.of_N (digits_value ds))
  end.

Inductive CitationType :=
| statute
| statutory_instrument
| unknown.

Record ParsedCitation := {
  valid : bool;
  type : CitationType;
  title : option jstr;
  year : option number;
  section : option jstr;
  subsection : option jstr;
  paragraph : option jstr;
  error : option jstr
}.

(** [(?:§|Paragraph|Paragraf)] *)
Definition section_keyword : regex :=
  alts [lit "§"; lit "Paragraph"; lit "Paragraf"].

(** [[\d]+[a-z]?(?:\(\d+\))*(?:\([a-z]\))?] *)
Definition section_token : regex :=
  seqs [plus digit; opt a_z;
        star (seqs [chr "("; plus digit; chr ")"]);
        opt (seqs [chr "("; a_z; chr ")"])].

(** [[\d]+[a-z]?] *)
Definition machine_token : regex := seqs [plus digit; opt a_z].

Definition SECTION_THEN_TITLE : jsregex :=
  {| re_ic := true;
     re_body := seqs [Bol; section_keyword; star space; Grp 1 section_token;
                      star space; opt (chr ","); plus space;
                      Grp 2 (plus Dot); Eol] |}.

Definition TITLE_THEN_SECTION : jsregex :=
  {| re_ic := true;
     re_body := seqs [Bol; Grp 1 (lazy_plus Dot); plus space; section_keyword;
                      star space; Grp 2 section_token; Eol] |}.

Definition MACHINE_REF_THEN_TITLE : jsregex :=
  {| re_ic := true;
     re_body := seqs [Bol; lit "para"; Grp 1 machine_token; star space;
                      opt (chr ","); plus space; Grp 2 (plus Dot); Eol] |}.

Definition LEGACY_ENGLISH : jsregex :=
  {| re_ic := true;
     re_body := seqs [Bol; alts [lit "Section"; seqs [chr "s"; opt (chr ".")]];
                      plus space; Grp 1 section_token; star space;
                      opt (chr ","); plus space; Grp 2 (lazy_plus Dot);
                      opt (seqs [plus space; Grp 3 (times 4 digit)]); Eol] |}.

Definition SECTION_REF : jsregex :=
  {| re_ic := true;
     re_body := seqs [Bol; Grp 1 machine_token;
                      opt (seqs [chr "("; Grp 2 (plus digit); chr ")"]);
                      opt (seqs [chr "("; Grp 3 a_z; chr ")"]); Eol] |}.

(** [/\s+(\d{4})$/] *)
Definition YEAR_SUFFIX : jsregex :=
  {| re_ic := false;
     re_body := seqs [plus space; Grp 1 (times 4 digit); Eol] |}.

(** [/^para[\d]+[a-z]?$/i] *)
Definition BARE_MACHINE_REF : jsregex :=
  {| re_ic := true; re_body := seqs [Bol; lit "para"; machine_token; Eol] |}.

(** [/^(?:§|Paragraph|Paragraf)\s*([\d]+[a-z]?(?:\(\d+\))*(?:\([a-z]\))?)$/i] *)
Definition BARE_SECTION : jsregex :=
  {| re_ic := true;
     re_body := seqs [Bol; section_keyword; star space; Grp 1 section_token;
                      Eol] |}.

(** [/^para/i] *)
Definition PARA_PREFIX : jsregex :=
  {| re_ic := true; re_body := seqs [Bol; lit "para"] |}.

Definition splitYear (title : jstr) : jstr * option number :=
  let trimmed := trim title in
  let match_ := re_match YEAR_SUFFIX trimmed in
  if negb (truthy (grp 1 match_)) then (trimmed, None)
  else
    match match_ with
    | Some r =>
      (trim (firstn (length trimmed - length (m_text r)) trimmed),
       Some (parseInt10 (nullish (grp 1 match_) [])))
    | None => (trimmed, None)
    end.

Definition parseSection (sectionStr : jstr) (title : option jstr)
           (year : option number) (type : CitationType) : ParsedCitation :=
  let normalized := trim (re_replace PARA_PREFIX [] sectionStr) in
  let sectionMatch := re_match SECTION_REF normalized in
  {| valid := true;
     type := type;
     title := option_map trim title;
     year := year;
     section := Some (nullish (grp 1 sectionMatch) normalized);
     subsection := grp 2 sectionMatch;
     paragraph := grp 3 sectionMatch;
     error := None |}.

Definition dquote : cu := 34%N.

Definition invalid_citation (msg : jstr) : ParsedCitation :=
  {| valid := false; type := unknown; title := None; year := None;
     section := None; subsection := None; paragraph := None;
     error := Some msg |}.

(** The string [match[i]] once [match?.[i]] has been seen truthy. *)
Definition the (o : option jstr) : jstr := nullish o [].

Definition parseCitation (citation : jstr) : ParsedCitation :=
  let trimmed := trim citation in
  match trimmed with
  | [] => invalid_citation (js "Empty citation")
  | _ :: _ =>
    let m1 := re_match SECTION_THEN_TITLE trimmed in
    if truthy (grp 1 m1) && truthy (grp 2 m1) then
      let '(cleanTitle, year) := splitYear (the (grp 2 m1)) in
      parseSection (the (grp 1 m1)) (Some cleanTitle) year statute
    else
    let m2 := re_match TITLE_THEN_SECTION trimmed in
    if truthy (grp 1 m2) && truthy (grp 2 m2) then
      let '(cleanTitle, year) := splitYear (the (grp 1 m2)) in
      parseSection (the (grp 2 m2)) (Some cleanTitle) year statute
    else
    let m3 := re_match MACHINE_REF_THEN_TITLE trimmed in
    if truthy (grp 1 m3) && truthy (grp 2 m3) then
      let '(cleanTitle, year) := splitYear (the (grp 2 m3)) in
      parseSection (the (grp 1 m3)) (Some cleanTitle) year statute
    else
    let m4 := re_match LEGACY_ENGLISH trimmed in
    if truthy (grp 1 m4) && truthy (grp 2 m4) then
      let year := if truthy (grp 3 m4)
                  then Some (parseInt10 (the (grp 3 m4))) else None in
      parseSection (the (grp 1 m4)) (grp 2 m4) year statute
    else
    if re_test BARE_MACHINE_REF trimmed then
      parseSection (skipn 4 trimmed) None None statute
    else
    match re_match BARE_SECTION trimmed with
    | Some r => parseSection (the (get_cap 1 (m_caps r))) None None statute
    | None =>
      invalid_citation
        (js "Could not parse Austrian citation: " ++ dquote :: trimmed
            ++ [dquote])
    end
  end.

(* ================================================================= *)
(** ** Citation formatter (citation/formatter.ts) *)

Inductive CitationFormat :=
| full
| short
| pinpoint
| other_format (name : jstr).

Fixpoint dec_digits (fuel : nat) (n : N) (acc : jstr) : jstr :=
  match fuel with
  | O => acc
  | S f =>
    let acc' := (48 + n mod 10)%N :: acc in
    if (n <? 10)%N then acc' else dec_digits f (n / 10)%N acc'
  end.

(** [String(n)] for a number that holds an integer of magnitude below
    [10^21]: such a number is printed in decimal notation. From [10^21]
    on JavaScript prints an exponent, which these digits do not follow. *)
Definition String_of_number (n : number) : jstr :=
  match n with
  | NaN => js "NaN"
  | Num z =>
    let a := Z.to_N (Z.abs z) in
    let ds := dec_digits (S (N.to_nat (N.log2 a))) a [] in
    if (z <? 0)%Z then 45%N :: ds else ds
  end.

Definition number_truthy (n : option number) : bool :=
  match n with
  | Some (Num z) => negb (z =? 0)%Z
  | _ => false
  end.

Definition buildPinpoint (parsed : ParsedCitation) : jstr :=
  let ref := the (section parsed) in
  let ref := if truthy (subsection parsed)
             then ref ++ js "(" ++ the (subsection parsed) ++ js ")"
             else ref in
  let ref := if truthy (paragraph parsed)
             then ref ++ js "(" ++ the (paragraph parsed) ++ js ")"
             else ref in
  ref.

Definition formatCitation (parsed : ParsedCitation) (format : CitationFormat)
  : jstr :=
  if negb (valid parsed) || negb (truthy (section parsed)) then []
  else
    let pinpoint_ := buildPinpoint parsed in
    let titleAndYear :=
      join (js " ")
           ((if truthy (title parsed) then [the (title parsed)] else [])
            ++ (if number_truthy (year parsed)
                then [String_of_number (nullish (year parsed) NaN)]
                else [])) in
    match format with
    | short =>
      if truthy (title parsed)
      then js "§ " ++ pinpoint_ ++ js " " ++ the (title parsed)
      else js "§ " ++ pinpoint_
    | pinpoint => js "§ " ++ pinpoint_
    | full | other_format _ =>
      match titleAndYear with
      | _ :: _ => js "§ " ++ pinpoint_ ++ js ", " ++ titleAndYear
      | [] => js "§ " ++ pinpoint_
      end
    end.


(* ================================================================= *)
(** ** Content cleaner (utils/content-cleaner.ts) *)

(** The class whose members are the code units of [s]. *)
Definition one_of (s : string) : list citem :=
  map (fun c => CRange c c) (js s).

Definition upper_de : list citem := CRange 65 90 :: one_of "ÄÖÜ".
Definition letter_de : list citem :=
  CRange 65 90 :: one_of "ÄÖÜ" ++ CRange 97 122 :: one_of "äöü".

Definition plain (body : list regex) : jsregex :=
  {| re_ic := false; re_body := seqs body |}.

(** [§\s*\d+\w*] and its siblings. *)
Definition marker_number (marker : regex) : regex :=
  seqs [marker; star space; plus digit; star wordc].

Definition METADATA_LINE_PATTERNS : list jsregex :=
  [ (* BGBl/JGS/StGBl source references *)
    plain [Bol;
           alts [seqs [lit "BGBl"; opt (chr "."); star space;
                       seqs [opt (seqs [plus (Cls false (one_of "IVX"));
                                        plus space]);
                             lit "Nr."];
                       star space; plus Dot];
                 seqs [lit "JGS"; plus space; lit "Nr."; star space; plus Dot];
                 seqs [lit "StGBl"; opt (chr "."); star space;
                       opt (lit "Nr."); star space; plus Dot]];
           Eol];
    (* Document type abbreviation line *)
    plain [Bol;
           alts [lit "BG"; lit "BVG"; lit "V"; lit "StF"; lit "GZ";
                 seqs [lit "Vertrag"; plus space; lit "–"; plus space;
                       plus Dot]];
           Eol];
    (* Standalone section reference *)
    plain [Bol;
           alts [marker_number (lit "§");
                 marker_number (seqs [lit "Art"; opt (chr ".")]);
                 marker_number (seqs [lit "Anl"; opt (chr ".")])];
           Eol];
    (* RIS classification index *)
    plain [Bol; times 2 digit; chr "/"; times 2 digit; plus space;
           Cls false upper_de; plus Dot; Eol];
    (* Short name line *)
    plain [Bol; Cls false upper_de;
           between 0 8 (Cls false (letter_de ++ one_of "-")); Eol];
    (* NOR number *)
    plain [Bol; lit "NOR"; plus digit; Eol];
    (* Internal RIS ID *)
    plain [Bol; chr "N"; at_least 5 digit; Cls false [CRange 65 90]; Eol];
    (* Standalone Gesetzesnummer *)
    plain [Bol; between 7 8 digit; Eol];
    (* Standalone date *)
    plain [Bol; times 2 digit; chr "."; times 2 digit; chr ".";
           times 4 digit; Eol];
    (* Amendment/keyword line ending with a BGBl reference *)
    plain [Bol; between 0 60 Dot; chr ","; star space; lit "BGBl";
           opt (chr "."); star space;
           alts [lit "Nr."; seqs [chr "I"; plus space; lit "Nr."]];
           star space; plus digit; star Dot; Eol];
    (* Chapter/section structural markers *)
    {| re_ic := true;
       re_body :=
         seqs [Bol;
               alts [lit "Erst"; lit "Zweit"; lit "Dritt"; lit "Viert";
                     lit "Fünft"; lit "Sechst"; lit "Siebent"; lit "Acht";
                     lit "Neunt"; lit "Zehnt"];
               seqs [chr "e"; opt (Cls false (one_of "sr"))];
               plus space;
               alts [seqs [lit "Haupt"; alts [lit "stück"; lit "teil"]];
                     lit "Abschnitt"; lit "Teil"; lit "Buch"];
               opt (chr "."); Eol] |} ].

Definition keyword_first : list citem := letter_de ++ one_of "ß".
Definition keyword_more : list citem :=
  letter_de ++ one_of "ß" ++ CSpace :: one_of "-".

(** [[A-ZÄÖÜa-zäöüß][A-ZÄÖÜa-zäöüß\s\-]*] *)
Definition keyword_term : regex :=
  seqs [Cls false keyword_first; star (Cls false keyword_more)].

Definition KEYWORD_LINE_PATTERN : jsregex :=
  plain [Bol; at_least 2 (seqs [keyword_term; chr ","; star space]);
         keyword_term; opt (chr ","); Eol].

Definition TRAILING_SECTION_REF : jsregex :=
  plain [plus space;
         alts [marker_number (lit "§"); marker_number (lit "Artikel")];
         opt (chr "."); star space; Eol].

(** The verbs and prepositions whose presence marks a line as a sentence. *)
Definition FUNCTION_WORD : jsregex :=
  {| re_ic := true;
     re_body :=
       seqs [WordB;
             alts [lit "ist"; lit "sind"; lit "wird"; lit "werden";
                   lit "hat"; lit "haben"; lit "kann"; lit "können";
                   lit "soll"; lit "sollen"; lit "darf"; lit "dürfen";
                   lit "muss"; lit "müssen"; lit "gemäß"; lit "nach";
                   lit "durch"; lit "auf"; lit "über"; lit "bei";
                   lit "unter"];
             WordB] |}.

(** [/\n{3,}/g] *)
Definition BLANK_RUN : jsregex := plain [at_least 3 (Chr 10)].

Definition newline : cu := 10%N.
Definition comma : cu := 44%N.

Definition isKeywordLine (line : jstr) : bool :=
  if negb (re_test KEYWORD_LINE_PATTERN line) then false
  else
    let terms := map trim (split comma line) in
    if existsb (fun t => 40 <? length t) terms then false
    else if re_test FUNCTION_WORD line then false
    else true.

(** Whether pass 1 keeps a line. *)
Definition is_content_line (line : jstr) : bool :=
  let trimmed := trim line in
  match trimmed with
  | [] => false
  | _ :: _ => negb (existsb (fun pattern => re_test pattern trimmed)
                            METADATA_LINE_PATTERNS)
  end.

(** Pass 2 on the lines read from the last one: [lines.pop()] while the
    last line is a keyword line. *)
Fixpoint pop_keyword_lines (rev_lines : list jstr) : list jstr :=
  match rev_lines with
  | [] => []
  | last :: before =>
    if isKeywordLine (trim last) then pop_keyword_lines before
    else rev_lines
  end.

(** The lines left after passes 1 and 2. *)
Definition content_lines (content : jstr) : list jstr :=
  let lines := split newline content in
  let lines := filter is_content_line lines in
  rev (pop_keyword_lines (rev lines)).

Definition replace_all (re : jsregex) (by_ : jstr) (s : jstr) : jstr :=
  replace_all_go (re_ic re) (re_body re) by_ (S (length s)) None s.

(** The fix-up applied to the joined lines. *)
Definition fix_up (cleaned : jstr) : jstr :=
  let cleaned := re_replace TRAILING_SECTION_REF [] cleaned in
  let cleaned := replace_all BLANK_RUN [newline; newline] cleaned in
  trim cleaned.

Definition cleanProvisionContent (content : jstr) : jstr :=
  let lines := content_lines content in
  let cleaned := trim (join [newline] lines) in
  fix_up cleaned.

(* ================================================================= *)
(** ** FTS5 query builder (utils/fts-query.ts) *)

(** [str.split(re)] for a pattern without groups: [cur] is the reversed
    text since the last split point. A match that is empty at the last
    split point does not split. *)
Fixpoint split_re_go (ic : bool) (r : regex) (fuel : nat) (cur : jstr)
         (p : option cu) (s : jstr) : list jstr :=
  match fuel with
  | O => [rev cur ++ s]
  | S fuel' =>
    match s with
    | [] => [rev cur]
    | a :: tl =>
      match exec_at ic r p s with
      | Some (s', _) =>
        let consumed := firstn (length s - length s') s in
        match consumed, cur with
        | [], [] => split_re_go ic r fuel' [a] (Some a) tl
        | [], _ :: _ => rev cur :: split_re_go ic r fuel' [] p s
        | _ :: _, _ =>
          rev cur :: split_re_go ic r fuel' [] (Some (last consumed a)) s'
        end
      | None => split_re_go ic r fuel' (a :: cur) (Some a) tl
      end
    end
  end.

Definition re_split (re : jsregex) (s : jstr) : list jstr :=
  match s with
  | [] =>
    match exec_at (re_ic re) (re_body re) None [] with
    | Some _ => []
    | None => [[]]
    end
  | _ :: _ =>
    split_re_go (re_ic re) (re_body re) (S (2 * length s)) [] None s
  end.

Definition quote_class : regex := Cls false [CRange 34 34; CRange 34 34;
                                             CRange 34 34].

Definition EXPLICIT_FTS_SYNTAX : jsregex :=
  plain [alts [quote_class;
               Grp 1 (seqs [WordB; lit "AND"; WordB]);
               Grp 2 (seqs [WordB; lit "OR"; WordB]);
               Grp 3 (seqs [WordB; lit "NOT"; WordB]);
               seqs [chr "*"; Eol]]].

(** The characters special in FTS5 query syntax (pattern with the [g]
    flag): double quote, parentheses, braces, caret, colon, plus, hyphen
    and tilde. *)
Definition FTS5_SPECIAL_CHARS : jsregex :=
  plain [Cls false (CRange 34 34 :: CRange 34 34 :: CRange 34 34
                           :: one_of "(){}^:+-~")].

(** [/\s+/] *)
Definition WHITESPACE_RUN : jsregex := plain [plus space].

Record FtsQueryVariants := {
  primary : jstr;
  fallback : option jstr
}.

Definition is_high_surrogate (c : cu) : bool := in_range 55296 56319 c.
Definition is_low_surrogate (c : cu) : bool := in_range 56320 57343 c.

(** The token between double quotes, followed by a star. *)
Definition quoted_prefix (t : jstr) : jstr := dquote :: t ++ [dquote; 42%N].

(** The token followed by a star. *)
Definition bare_prefix (t : jstr) : jstr := t ++ [42%N].

Definition nonempty (t : jstr) : bool :=
  match t with
  | [] => false
  | _ :: _ => true
  end.

Section Fts.

(** The Unicode general categories Letter and Number, as the [u] flag
    reads [\p{L}] and [\p{N}], on code points. *)
Variable uni_L : N -> bool.
Variable uni_N : N -> bool.

(** A code point outside [[^\p{L}\p{N}_-]]. *)
Definition kept (cp : N) : bool :=
  uni_L cp || uni_N cp || (cp =? 95)%N || (cp =? 45)%N.

(** [token.replace(/[^\p{L}\p{N}_-]/gu, '')]: under the [u] flag a
    surrogate pair is one code point. *)
Fixpoint sanitizeToken (token : jstr) : jstr :=
  match token with
  | [] => []
  | c :: tl =>
    if is_high_surrogate c then
      match tl with
      | d :: tl' =>
        if is_low_surrogate d then
          if kept (65536 + (c - 55296) * 1024 + (d - 56320))%N
          then c :: d :: sanitizeToken tl'
          else sanitizeToken tl'
        else if kept c then c :: sanitizeToken tl else sanitizeToken tl
      | [] => if kept c then [c] else []
      end
    else if kept c then c :: sanitizeToken tl else sanitizeToken tl
  end.

Definition buildSanitizedFallback (query : jstr) : option jstr :=
  let tokens :=
    filter nonempty
      (map sanitizeToken
         (re_split WHITESPACE_RUN
            (replace_all FTS5_SPECIAL_CHARS (js " ") query))) in
  match tokens with
  | [] => None
  | _ :: _ => Some (join (js " OR ") (map quoted_prefix tokens))
  end.

Definition buildFtsQueryVariants (query : jstr) : FtsQueryVariants :=
  let trimmed := trim query in
  if re_test EXPLICIT_FTS_SYNTAX trimmed then
    let fallback := buildSanitizedFallback trimmed in
    {| primary := trimmed;
       fallback := if truthy fallback then fallback else None |}
  else
    let tokens :=
      filter nonempty
        (map sanitizeToken (filter nonempty (re_split WHITESPACE_RUN trimmed)))
    in
    match tokens with
    | [] => {| primary := trimmed; fallback := None |}
    | _ :: _ =>
      {| primary := join (js " ") (map quoted_prefix tokens);
         fallback := Some (join (js " OR ") (map bare_prefix tokens)) |}
    end.

End Fts.

(** The ASCII letters and digits: the two categories restricted to the
    code points below 128. *)
Definition ascii_L (cp : N) : bool := is_lower cp || is_upper cp.
Definition ascii_N (cp : N) : bool := is_digit cp.

(** Tables that agree with Unicode on ASCII. *)
Definition ascii_conform (uni_L uni_N : N -> bool) : Prop :=
  forall cp, (cp < 128)%N -> uni_L cp = ascii_L cp /\ uni_N cp = ascii_N cp.

(* ================================================================= *)
(** ** Provision lookup candidates (utils/provision-candidates.ts) *)

Record ProvisionLookupCandidates := {
  canonicalSection : jstr;
  provisionRefs : list jstr;
  sections : list jstr
}.

(** A leading [§], [Paragraph], [Paragraf] or [para] marker and the
    whitespace after it. *)
Definition LEADING_MARKER : jsregex :=
  {| re_ic := true;
     re_body := seqs [Bol;
                      alts [lit "§"; lit "Paragraph"; lit "Paragraf";
                            lit "para"];
                      star space] |}.

Section Candidates.

(** The case variants of a machine key that the corpus may store: the
    spec names them without listing them. *)
Variable case_variants : jstr -> list jstr.

(** Modelled from the spec: [utils/provision-candidates.ts] is not among
    the sources. Section 4.3: strip a leading marker and surrounding
    whitespace to obtain [canonicalSection]; [provisionRefs] is
    ["para" + canonicalSection] plus case variants, [sections] is
    ["§ " + canonicalSection, canonicalSection]; empty input yields a
    candidate set with all fields empty. *)
Definition buildProvisionLookupCandidates (ref : jstr)
  : ProvisionLookupCandidates :=
  let canonical := trim (re_replace LEADING_MARKER [] (trim ref)) in
  match canonical with
  | [] => {| canonicalSection := []; provisionRefs := []; sections := [] |}
  | _ :: _ =>
    {| canonicalSection := canonical;
       provisionRefs := (js "para" ++ canonical)
                          :: case_variants (js "para" ++ canonical);
       sections := [js "§ " ++ canonical; canonical] |}
  end.

End Candidates.

(* ================================================================= *)
(** ** Citation validator (citation/validator.ts) *)

Record Document := {
  doc_id : jstr;
  doc_title : jstr;
  doc_status : jstr
}.

Record ValidationResult := {
  citation : ParsedCitation;
  document_exists : bool;
  provision_exists : bool;
  document_title : option jstr;
  status : option jstr;
  warnings : list jstr
}.

(** [/\bgesetz-\d+\b/i] *)
Definition EXPLICIT_ID : jsregex :=
  {| re_ic := true;
     re_body := seqs [WordB; lit "gesetz-"; plus digit; WordB] |}.

Section Validator.

Variable Database : Type.

(** [resolveExistingStatuteId(db, term)] of [utils/statute-id.ts]. *)
Variable resolveExistingStatuteId : Database -> jstr -> option jstr.

(** [SELECT id, title, status FROM legal_documents WHERE id = ? LIMIT 1] *)
Variable select_document : Database -> jstr -> option Document.

(** [SELECT 1 FROM legal_provisions WHERE document_id = ? AND
    (provision_ref = ? OR ... OR section = ? ...) LIMIT 1], with the
    provision references and the sections bound. *)
Variable select_provision :
  Database -> jstr -> list jstr -> list jstr -> bool.

Variable case_variants : jstr -> list jstr.

(** [parsed.title ?? explicitId] *)
Definition lookup_term (parsed : ParsedCitation) (citation : jstr)
  : option jstr :=
  let explicitId := option_map m_text (re_match EXPLICIT_ID citation) in
  match title parsed with
  | Some t => Some t
  | None => explicitId
  end.

(** The row of the resolved document, if any. *)
Definition find_document (db : Database) (lookupTerm : jstr)
  : option Document :=
  let resolvedId := resolveExistingStatuteId db lookupTerm in
  if truthy resolvedId then select_document db (the resolvedId) else None.

Definition not_validated (parsed : ParsedCitation) (warning : jstr)
  : ValidationResult :=
  {| citation := parsed;
     document_exists := false;
     provision_exists := false;
     document_title := None;
     status := None;
     warnings := [warning] |}.

Definition validateCitation (db : Database) (citation : jstr)
  : ValidationResult :=
  let parsed := parseCitation citation in
  if negb (valid parsed) then
    not_validated parsed
                  (nullish (error parsed) (js "Invalid citation format"))
  else
    let lookupTerm := lookup_term parsed citation in
    if negb (truthy lookupTerm) then
      not_validated parsed
        (js "Citation must include either a statute title or statute ID (e.g. gesetz-10001622).")
    else
      match find_document db (the lookupTerm) with
      | None =>
        not_validated parsed
          (js "Document " ++ dquote :: the lookupTerm
              ++ dquote :: js " not found in database")
      | Some doc =>
        let warnings :=
          if jstr_eqb (doc_status doc) (js "repealed")
          then [js "This statute has been repealed"] else [] in
        let provisionExists :=
          if truthy (section parsed) then
            let candidates :=
              buildProvisionLookupCandidates case_variants
                                             (the (section parsed)) in
            select_provision db (doc_id doc) (provisionRefs candidates)
                             (sections candidates)
          else true in
        let warnings :=
          if truthy (section parsed) && negb provisionExists
          then warnings ++ [js "Section ยง " ++ the (section parsed)
                               ++ js " not found in " ++ doc_title doc]
          else warnings in
        {| citation := parsed;
           document_exists := true;
           provision_exists := provisionExists;
           document_title := Some (doc_title doc);
           status := Some (doc_status doc);
           warnings := warnings |}
      end.

End Validator.
(* ================================================================= *)
(** ** Tool handlers (tools/get-provision.ts, tools/check-currency.ts,
       tools/get-provision-eu-basis.ts) *)

(** A call that may throw: the message of the [Error] thrown, or the
    value returned. The queries on the database are functions of the
    store: a run in which the driver itself fails is not described. *)
Inductive outcome (A : Type) :=
| Threw (message : jstr)
| Returned (value : A).

Arguments Threw {A} message.
Arguments Returned {A} value.

(** [str.replace(re, rep)] for a pattern with the [g] flag and a
    replacement that depends on the matched text, as a replacement string
    with [$&] does. *)
Fixpoint replace_all_fn_go (ic : bool) (r : regex) (by_ : jstr -> jstr)
         (fuel : nat) (p : option cu) (s : jstr) : jstr :=
  match fuel with
  | O => s
  | S fuel' =>
    match search_from ic r 0 p s with
    | None => s
    | Some res =>
      let pre := firstn (m_index res) s in
      match m_text res with
      | [] =>
        match m_after res with
        | [] => pre ++ by_ []
        | a :: tl =>
          pre ++ by_ [] ++ a :: replace_all_fn_go ic r by_ fuel' (Some a) tl
        end
      | _ :: _ =>
        pre ++ by_ (m_text res) ++
          replace_all_fn_go ic r by_ fuel'
                            (Some (last (m_text res) 0%N)) (m_after res)
      end
    end
  end.

Definition replace_all_fn (re : jsregex) (by_ : jstr -> jstr) (s : jstr)
  : jstr :=
  replace_all_fn_go (re_ic re) (re_body re) by_ (S (length s)) None s.

(** The response envelope: [_truncated] is present (and true) exactly
    when the field holds, the hint is present when it is [Some]. *)
Record ToolResponse (T M : Type) := {
  results : T;
  _truncated : bool;
  _total_hint : option jstr;
  _metadata : M
}.

Module GetProvision.

Record GetProvisionInput := {
  input_document_id : option jstr;
  input_part : option jstr;
  input_chapter : option jstr;
  input_section : option jstr;
  input_provision_ref : option jstr
}.

Record ProvisionRow := {
  document_id : jstr;
  document_title : jstr;
  document_status : jstr;
  provision_ref : jstr;
  chapter : option jstr;
  section : jstr;
  title : option jstr;
  content : jstr
}.

(** [ProvisionResult | ProvisionResult[] | null] *)
Inductive ProvisionResults :=
| Listing (rows : list ProvisionRow)
| Single (row : ProvisionRow)
| Null.

(** [{ ...r, content: cleanProvisionContent(r.content) }] *)
Definition with_clean_content (r : ProvisionRow) : ProvisionRow :=
  {| document_id := document_id r;
     document_title := document_title r;
     document_status := document_status r;
     provision_ref := provision_ref r;
     chapter := chapter r;
     section := section r;
     title := title r;
     content := cleanProvisionContent (content r) |}.

Definition MAX_PROVISIONS : nat := 200.

Section Handler.

Variable Database : Type.
Variable ResponseMetadata : Type.

(** [generateResponseMetadata(db)] of [utils/metadata.ts]. *)
Variable generateResponseMetadata : Database -> ResponseMetadata.

(** [resolveExistingStatuteId(db, term)] of [utils/statute-id.ts]. *)
Variable resolveExistingStatuteId : Database -> jstr -> option jstr.

(** The provisions of a document in the order of [order_index], with
    the [LIMIT] bound last. *)
Variable select_provisions : Database -> jstr -> nat -> list ProvisionRow.

(** The first provision of a document whose reference is one of the
    provision references or whose section is one of the sections. *)
Variable select_provision :
  Database -> jstr -> list jstr -> list jstr -> option ProvisionRow.

Variable case_variants : jstr -> list jstr.

Definition plain_response (r : ProvisionResults) (db : Database)
  : ToolResponse ProvisionResults ResponseMetadata :=
  {| results := r; _truncated := false; _total_hint := None;
     _metadata := generateResponseMetadata db |}.

Definition getProvision (db : Database) (input : GetProvisionInput)
  : outcome (ToolResponse ProvisionResults ResponseMetadata) :=
  if negb (truthy (input_document_id input)) then
    Threw (js "document_id is required")
  else
    let resolvedDocumentId :=
      nullish (resolveExistingStatuteId db (the (input_document_id input)))
              (the (input_document_id input)) in
    let provisionRef :=
      match input_provision_ref input with
      | Some r => Some r
      | None => input_section input
      end in
    if negb (truthy provisionRef) then
      let rows := select_provisions db resolvedDocumentId (MAX_PROVISIONS + 1)
      in
      let truncated := MAX_PROVISIONS <? length rows in
      let results_ :=
        map with_clean_content
            (if truncated then firstn MAX_PROVISIONS rows else rows) in
      Returned
        (if truncated then
           {| results := Listing results_;
              _truncated := true;
              _total_hint :=
                Some (js "More than "
                         ++ String_of_number (Num (Z.of_nat MAX_PROVISIONS))
                         ++ js " provisions exist. Use section or provision_ref to retrieve specific provisions.");
              _metadata := generateResponseMetadata db |}
         else plain_response (Listing results_) db)
    else
      let candidates :=
        buildProvisionLookupCandidates case_variants (the provisionRef) in
      match select_provision db resolvedDocumentId (provisionRefs candidates)
                             (sections candidates) with
      | None => Returned (plain_response Null db)
      | Some row => Returned (plain_response (Single (with_clean_content row)) db)
      end.

End Handler.

End GetProvision.

Module CheckCurrency.

Record CheckCurrencyInput := {
  input_document_id : option jstr;
  input_provision_ref : option jstr;
  input_as_of_date : option jstr
}.

Record DocumentRow := {
  row_id : jstr;
  row_title : jstr;
  row_status : jstr;
  row_document_type : jstr;
  row_issued_date : option jstr;
  row_in_force_date : option jstr
}.

Record CurrencyResult := {
  document_id : jstr;
  title : jstr;
  status : jstr;
  type : jstr;
  issued_date : option jstr;
  in_force_date : option jstr;
  is_current : bool;
  provision_exists : option bool;
  warnings : list jstr
}.

(** [/[%_]/g] *)
Definition LIKE_WILDCARD : jsregex := plain [Cls false (one_of "%_")].

Definition backslash : cu := 92%N.
Definition percent : cu := 37%N.

(** [input.document_id.replace(/[%_]/g, '\\$&')]: the replacement is a
    backslash and the matched text. *)
Definition escapedId (document_id : jstr) : jstr :=
  replace_all_fn LIKE_WILDCARD (fun matched => backslash :: matched)
                 document_id.

Section Handler.

Variable Database : Type.
Variable ResponseMetadata : Type.
Variable generateResponseMetadata : Database -> ResponseMetadata.
Variable resolveExistingStatuteId : Database -> jstr -> option jstr.

(** [normalizeAsOfDate(value)] of [utils/as-of-date.ts], which throws on
    a value that is no date. *)
Variable normalizeAsOfDate : jstr -> outcome jstr.

(** The first document whose id is the first argument or whose title is
    [LIKE] the second, with the backslash as escape character. *)
Variable select_document : Database -> jstr -> jstr -> option DocumentRow.

(** Whether the document has a provision with one of the references or
    one of the sections. *)
Variable select_provision :
  Database -> jstr -> list jstr -> list jstr -> bool.

Variable case_variants : jstr -> list jstr.

Definition response (r : option CurrencyResult) (db : Database)
  : ToolResponse (option CurrencyResult) ResponseMetadata :=
  {| results := r; _truncated := false; _total_hint := None;
     _metadata := generateResponseMetadata db |}.

(** The body of [checkCurrency] after the two argument checks. *)
Definition lookup (db : Database) (input : CheckCurrencyInput)
  : ToolResponse (option CurrencyResult) ResponseMetadata :=
  let document_id_ := the (input_document_id input) in
  let resolvedDocumentId := resolveExistingStatuteId db document_id_ in
  match select_document db (nullish resolvedDocumentId document_id_)
                        (percent :: escapedId document_id_ ++ [percent]) with
  | None => response None db
  | Some doc =>
    let isCurrent := jstr_eqb (row_status doc) (js "in_force") in
    let warnings_ :=
      if jstr_eqb (row_status doc) (js "repealed")
      then [js "This statute has been repealed"] else [] in
    let provisionExists :=
      if truthy (input_provision_ref input) then
        let candidates :=
          buildProvisionLookupCandidates case_variants
                                         (the (input_provision_ref input)) in
        Some (select_provision db (row_id doc) (provisionRefs candidates)
                               (sections candidates))
      else None in
    let warnings_ :=
      match provisionExists with
      | Some false =>
        warnings_ ++ [js "Provision " ++ dquote
                         :: the (input_provision_ref input)
                         ++ dquote :: js " not found in this document"]
      | _ => warnings_
      end in
    response
      (Some {| document_id := row_id doc;
               title := row_title doc;
               status := row_status doc;
               type := row_document_type doc;
               issued_date := row_issued_date doc;
               in_force_date := row_in_force_date doc;
               is_current := isCurrent;
               provision_exists := provisionExists;
               warnings := warnings_ |})
      db
  end.

Definition checkCurrency (db : Database) (input : CheckCurrencyInput)
  : outcome (ToolResponse (option CurrencyResult) ResponseMetadata) :=
  if negb (truthy (input_document_id input)) then
    Threw (js "document_id is required")
  else
    match (if truthy (input_as_of_date input)
           then normalizeAsOfDate (the (input_as_of_date input))
           else Returned []) with
    | Threw message => Threw message
    | Returned _ => Returned (lookup db input)
    end.

End Handler.

End CheckCurrency.

Module GetProvisionEUBasis.

Record GetProvisionEUBasisInput := {
  input_document_id : option jstr;
  input_provision_ref : option jstr
}.

Inductive EUDocumentType :=
| directive
| regulation.

(** A row of the join of [eu_documents] and [eu_references]. *)
Record Row := {
  row_id : jstr;
  row_type : EUDocumentType;
  row_title : option jstr;
  row_short_name : option jstr;
  row_eu_article : option jstr;
  row_reference_type : jstr;
  row_full_citation : option jstr;
  row_reference_context : option jstr
}.

Record ProvisionEUReference := {
  id : jstr;
  type : EUDocumentType;
  reference_type : jstr;
  full_citation : jstr;
  title : option jstr;
  short_name : option jstr;
  article : option jstr;
  context : option jstr
}.

Record GetProvisionEUBasisResult := {
  document_id : jstr;
  provision_ref : jstr;
  provision_content : jstr;
  eu_references : list ProvisionEUReference
}.

(** [if (v) ref.field = v]: the field is set for a truthy value only. *)
Definition when_truthy (v : option jstr) : option jstr :=
  if truthy v then v else None.

Definition reference_of (r : Row) : ProvisionEUReference :=
  {| id := row_id r;
     type := row_type r;
     reference_type := row_reference_type r;
     full_citation :=
       if truthy (row_full_citation r) then the (row_full_citation r)
       else row_id r;
     title := when_truthy (row_title r);
     short_name := when_truthy (row_short_name r);
     article := when_truthy (row_eu_article r);
     context := when_truthy (row_reference_context r) |}.

Section Handler.

Variable Database : Type.
Variable ResponseMetadata : Type.
Variable generateResponseMetadata : Database -> ResponseMetadata.
Variable resolveExistingStatuteId : Database -> jstr -> option jstr.

(** The id and the content of the first provision of a document with
    one of the references or one of the sections. *)
Variable select_provision :
  Database -> jstr -> list jstr -> list jstr -> option (N * jstr).

(** The EU references of a provision, the newest EU document first. *)
Variable select_references : Database -> N -> list Row.

Variable case_variants : jstr -> list jstr.

Definition getProvisionEUBasis (db : Database)
           (input : GetProvisionEUBasisInput)
  : outcome (ToolResponse GetProvisionEUBasisResult ResponseMetadata) :=
  if negb (truthy (input_document_id input)) then
    Threw (js "document_id is required")
  else if negb (truthy (option_map trim (input_provision_ref input))) then
    Threw (js "provision_ref is required")
  else
    let document_id_ := the (input_document_id input) in
    let provision_ref_ := the (input_provision_ref input) in
    let resolvedId := resolveExistingStatuteId db document_id_ in
    if negb (truthy resolvedId) then
      Threw (js "Document " ++ dquote :: document_id_
                ++ dquote :: js " not found in database")
    else
      let candidates :=
        buildProvisionLookupCandidates case_variants provision_ref_ in
      match select_provision db (the resolvedId) (provisionRefs candidates)
                             (sections candidates) with
      | None =>
        Threw (js "Provision " ++ provision_ref_ ++ js " not found in "
                  ++ document_id_)
      | Some (provision_id, provision_content_) =>
        let rows := select_references db provision_id in
        Returned
          {| results :=
               {| document_id := the resolvedId;
                  provision_ref := provision_ref_;
                  provision_content :=
                    cleanProvisionContent provision_content_;
                  eu_references := map reference_of rows |};
             _truncated := false;
             _total_hint := None;
             _metadata := generateResponseMetadata db |}
      end.

End Handler.

End GetProvisionEUBasis.

(* ================================================================= *)
(** ** Declarative reading of a match *)

(** [sem ic r p s cs p' s' cs']: the pattern [r] can match from the
    position with previous character [p], remaining input [s] and
    captures [cs], and end with [p'], [s'], [cs'] (priorities between
    alternatives are forgotten). *)
Inductive sem (ic : bool)
  : regex -> option cu -> jstr -> caps -> option cu -> jstr -> caps -> Prop :=
| sem_eps p s cs : sem ic Eps p s cs p s cs
| sem_chr c a p s cs :
    chr_eq ic c a = true -> sem ic (Chr c) p (a :: s) cs (Some a) s cs
| sem_cls neg items a p s cs :
    class_mem ic neg items a = true ->
    sem ic (Cls neg items) p (a :: s) cs (Some a) s cs
| sem_dot a p s cs :
    is_line_terminator a = false -> sem ic Dot p (a :: s) cs (Some a) s cs
| sem_seq r1 r2 p s cs p1 s1 cs1 p2 s2 cs2 :
    sem ic r1 p s cs p1 s1 cs1 -> sem ic r2 p1 s1 cs1 p2 s2 cs2 ->
    sem ic (Seq r1 r2) p s cs p2 s2 cs2
| sem_alt_l r1 r2 p s cs p' s' cs' :
    sem ic r1 p s cs p' s' cs' -> sem ic (Alt r1 r2) p s cs p' s' cs'
| sem_alt_r r1 r2 p s cs p' s' cs' :
    sem ic r2 p s cs p' s' cs' -> sem ic (Alt r1 r2) p s cs p' s' cs'
| sem_rep_stop g mn mx r p s cs :
    mn = 0 \/ mx = Some 0 -> sem ic (Rep g mn mx r) p s cs p s cs
| sem_rep_iter g mn mx r p s cs p1 s1 cs1 p2 s2 cs2 :
    mx <> Some 0 ->
    sem ic r p s (clear_caps (groups r) cs) p1 s1 cs1 ->
    sem ic (Rep g (pred mn) (option_map pred mx) r) p1 s1 cs1 p2 s2 cs2 ->
    sem ic (Rep g mn mx r) p s cs p2 s2 cs2
| sem_grp i r p s cs p' s' cs' :
    sem ic r p s cs p' s' cs' ->
    sem ic (Grp i r) p s cs p' s'
        (set_cap i (firstn (length s - length s') s) cs')
| sem_bol s cs : sem ic Bol None s cs None s cs
| sem_eol p cs : sem ic Eol p [] cs p [] cs
| sem_wordb p s cs :
    xorb (is_word_opt p) (is_word_opt (hd_error s)) = true ->
    sem ic WordB p s cs p s cs.


(* ================================================================= *)
(** ** Properties stated by the specification *)

(** The ParsedCitation invariant of the data model: a valid citation has
    a non-empty section; an invalid one has an error and no reference
    field. *)
Definition citation_invariant (r : ParsedCitation) : Prop :=
  if valid r then truthy (section r) = true
  else (exists e, error r = Some e)
       /\ title r = None /\ year r = None /\ section r = None
       /\ subsection r = None /\ paragraph r = None.

Definition is_statutory_instrument (t : CitationType) : bool :=
  match t with
  | statutory_instrument => true
  | _ => false
  end.

(** A query in which every token stands between double quotes and is
    followed by the prefix star, with no double quote inside a token:
    the engine's grammar reads every character of such a token as text. *)
Definition safe_token (t : jstr) : Prop :=
  t <> [] /\ Forall (fun c => c <> dquote) t.




(** A line of whitespace only. *)
Definition blank (l : jstr) : bool := forallb is_space l.

(** [f] applied to the last element of a list. *)
Fixpoint map_last (f : jstr -> jstr) (l : list jstr) : list jstr :=
  match l with
  | [] => []
  | [x] => [f x]
  | x :: tl => x :: map_last f tl
  end.

(** The character before the position reached by reading [w]. *)
Definition prev_after (p : option cu) (w : jstr) : option cu :=
  match w with
  | [] => p
  | _ :: _ => Some (last w 0%N)
  end.

(** Four decimal digits. *)
Definition year_token (d : jstr) : Prop :=
  length d = 4 /\ Forall (fun c => is_digit c = true) d.

(** The title string [t] ends in a bare 4-digit token: it is the text
    [p], whose last character is no whitespace, then the whitespace [ws],
    then the four digits [d]. *)
Definition ends_in_year (t p ws d : jstr) : Prop :=
  t = p ++ ws ++ d
  /\ (exists p' c, p = p' ++ [c] /\ is_space c = false)
  /\ ws <> [] /\ Forall (fun c => is_space c = true) ws
  /\ year_token d.

(** The value [parseInt] reads from a year token. *)
Definition year_value (d : jstr) : number := Num (Z.of_N (digits_value d)).

(** The head of the legacy English form: keyword, section token and
    separator. *)
Definition legacy_head : regex :=
  Seq Bol
    (Seq (alts [lit "Section"; seqs [chr "s"; opt (chr ".")]])
       (Seq (plus space)
          (Seq (Grp 1 section_token)
             (Seq (star space) (Seq (opt (chr ",")) (plus space)))))).

(** Its tail: the lazy title, the optional year and the end of input. *)
Definition legacy_tail : regex :=
  Seq (Grp 2 (lazy_plus Dot))
      (Seq (opt (Seq (plus space) (Seq (Grp 3 (times 4 digit)) Eps)))
           (Seq Eol Eps)).

(** The continuation that ends a match attempt. *)
Definition accept : cont (jstr * caps) := fun _ s' cs' => Some (s', cs').

(** The test [match?.[1] && match[2]] that selects a grammar form. *)
Definition form_matches (re : jsregex) (x : jstr) : bool :=
  truthy (grp 1 (re_match re x)) && truthy (grp 2 (re_match re x)).

(** The title and the year of a result are the text [p] (trimmed) and
    the value of the year token [d]. *)
Definition year_extracted (r : ParsedCitation) (p d : jstr) : Prop :=
  title r = Some (trim p) /\ year r = Some (year_value d).

(** A matcher is sound for the pattern [r] when every result it returns
    comes from a match of [r] handed to the continuation. *)
Definition body_sound (ic : bool) (A : Type) (r : regex) (body : matcher A)
  : Prop :=
  forall p s cs (k : cont A) a,
    body p s cs k = Some a ->
    exists p' s' cs', sem ic r p s cs p' s' cs' /\ k p' s' cs' = Some a.

(** A capture that begins with a digit. *)
Definition digit_headed (o : option jstr) : Prop :=
  exists a w, o = Some (a :: w) /\ is_digit a = true.

(** The characters [.] matches. *)
Definition not_terminator (a : cu) : bool := negb (is_line_terminator a).

(** The input [rest] does not go on with a character that passes [f]. *)
Definition stops (f : cu -> bool) (rest : jstr) : Prop :=
  match rest with
  | [] => True
  | b :: _ => f b = false
  end.

(** [\s+(\d{4})] with the digits in group [i], followed by [R]. *)
Definition year_part (i : nat) (R : regex) : regex :=
  Seq (plus space) (Seq (Grp i (times 4 digit)) R).

(** A text given by its lines. *)
Definition text (lines : list string) : jstr := join [newline] (map js lines).

(** A citation as a test writes it: valid, of type statute, with the
    given fields. *)
Definition cited (section title subsection paragraph : option string)
           (year : option Z) : ParsedCitation :=
  {| valid := true; type := statute;
     title := option_map js title;
     year := option_map Num year;
     section := option_map js section;
     subsection := option_map js subsection;
     paragraph := option_map js paragraph;
     error := None |}.

(** A matcher calls its continuation on what is left of its input only:
    continuations that agree there give the same result. *)
Definition local_matcher (A : Type) (body : matcher A) : Prop :=
  forall p s cs (k1 k2 : cont A),
    (forall p' s' cs', length s' <= length s -> k1 p' s' cs' = k2 p' s' cs') ->
    body p s cs k1 = body p s cs k2.

(* ================================================================= *)
(** ** Further properties of the code *)

(** The citation [p] with the year [y]. *)
Definition with_year (p : ParsedCitation) (y : option number)
  : ParsedCitation :=
  {| valid := valid p; type := type p; title := title p; year := y;
     section := section p; subsection := subsection p;
     paragraph := paragraph p; error := error p |}.

(** The message of a citation that no grammar form reads. *)
Definition could_not_parse (trimmed : jstr) : jstr :=
  js "Could not parse Austrian citation: " ++ dquote :: trimmed ++ [dquote].

(** An ASCII letter. *)
Definition is_letter (c : cu) : bool := is_lower c || is_upper c.

(** A year that [parseCitation] can return: an integer of at most four
    digits. *)
Definition year_in_range (y : option number) : Prop :=
  forall n, y = Some n -> exists z, n = Num z /\ (0 <= z <= 9999)%Z.

(** A section string that begins with a digit. *)
Definition starts_with_digit (s : jstr) : Prop :=
  exists a w, s = a :: w /\ is_digit a = true.

(** Whether every line of [s] before the last one holds a character that
    is no whitespace; [seen] tells whether the line being read does. *)
Fixpoint lines_started (seen : bool) (s : jstr) : bool :=
  match s with
  | [] => true
  | c :: tl =>
    if (c =? newline)%N then seen && lines_started false tl
    else lines_started (seen || negb (is_space c)) tl
  end.

(** The same of every line of [s], the last one included. *)
Fixpoint lines_filled (seen : bool) (s : jstr) : bool :=
  match s with
  | [] => seen
  | c :: tl =>
    if (c =? newline)%N then seen && lines_filled false tl
    else lines_filled (seen || negb (is_space c)) tl
  end.

(** The tables give the surrogate code points neither the category
    Letter nor the category Number: their category is Cs. *)
Definition surrogates_unassigned (uni_L uni_N : N -> bool) : Prop :=
  forall cp, in_range 55296 57343 cp = true ->
             uni_L cp = false /\ uni_N cp = false.

(** The wildcards of a [LIKE] pattern: the percent sign and the
    underscore. *)
Definition is_wildcard (c : cu) : bool := (c =? 37)%N || (c =? 95)%N.

(** A backslash before every wildcard. *)
Definition escape_wildcards (s : jstr) : jstr :=
  flat_map (fun c => if is_wildcard c then [CheckCurrency.backslash; c]
                     else [c]) s.

(** The text that a [LIKE] pattern without wildcard denotes, with the
    backslash as escape character: the character after a backslash stands
    for itself. [None] for a pattern that holds a wildcard or ends in the
    escape character. *)
Fixpoint like_literal (pattern : jstr) : option jstr :=
  match pattern with
  | [] => Some []
  | c :: tl =>
    if (c =? CheckCurrency.backslash)%N then
      match tl with
      | d :: tl' => option_map (cons d) (like_literal tl')
      | [] => None
      end
    else if is_wildcard c then None
    else option_map (cons c) (like_literal tl)
  end.

(** An optional field that is absent or holds a non-empty string. *)
Definition absent_or_nonempty (v : option jstr) : Prop := v <> Some [].

(** A section number: decimal digits and at most one letter after
    them, as in [4] and [4a]. *)
Definition section_number (s : jstr) : Prop :=
  exists d l,
    s = d ++ l /\ d <> [] /\ Forall (fun c => is_digit c = true) d
    /\ Forall (fun c => is_letter c = true) l /\ length l <= 1.

(** The citation of a section of a statute by number and title. *)
Definition plain_citation (section_ title_ : jstr) (year_ : option number)
  : ParsedCitation :=
  {| valid := true; type := statute; title := Some title_; year := year_;
     section := Some section_; subsection := None; paragraph := None;
     error := None |}.

(** Whether [String(z)] is a year token with the value [z]. *)
Definition prints_as_year (z : Z) : bool :=
  let ds := String_of_number (Num z) in
  (length ds =? 4) && forallb is_digit ds
  && (Z.of_N (digits_value ds) =? z)%Z.

(** The citation of a section by number alone. *)
Definition bare_citation (section_ : jstr) : ParsedCitation :=
  {| valid := true; type := statute; title := None; year := None;
     section := Some section_; subsection := None; paragraph := None;
     error := None |}.

(** A string without whitespace. *)
Definition no_space (s : jstr) : Prop :=
  Forall (fun c => is_space c = false) s.

Definition hyphen : cu := 45%N.

(** Every character that an atom of [r] reads passes [f]. *)
Fixpoint reads_only (ic : bool) (f : cu -> bool) (r : regex) : Prop :=
  match r with
  | Chr c => forall a, chr_eq ic c a = true -> f a = true
  | Cls neg items => forall a, class_mem ic neg items a = true -> f a = true
  | Dot => forall a, is_line_terminator a = false -> f a = true
  | Seq r1 r2 | Alt r1 r2 => reads_only ic f r1 /\ reads_only ic f r2
  | Rep _ _ _ r1 | Grp _ r1 => reads_only ic f r1
  | Eps | Bol | Eol | WordB => True
  end.

(** Neither whitespace nor a decimal digit. *)
Definition is_mark (c : cu) : bool := negb (is_space c) && negb (is_digit c).

(** What follows the title in the title-first form:
    [\s+(?:§|Paragraph|Paragraf)\s*(...)$]. *)
Definition section_tail : regex :=
  Seq (plus space)
      (Seq section_keyword
           (Seq (star space) (Seq (Grp 2 section_token) (Seq Eol Eps)))).

(** ** What the formatter prints *)








(** ** Function words in a line *)

(** The lower-case form of a Latin-1 letter; other characters stay. *)
Definition lower (c : cu) : cu :=
  if is_upper c then (c + 32)%N
  else if in_range 192 222 c && negb (c =? 215)%N then (c + 32)%N
  else c.

(** The word [w], given in lower case, stands in [line] as a word of its
    own, in any letter case: on each side it meets the end of the line or
    a character that is no ASCII letter, digit or underscore. *)
Definition occurs_as_word (w line : jstr) : Prop :=
  exists pre v post,
    line = pre ++ v ++ post /\ map lower v = w
    /\ stops is_word (rev pre) /\ stops is_word post.

(** The function words of [isKeywordLine], in the order of its pattern. *)
Definition function_words : list string :=
  ["ist"; "sind"; "wird"; "werden"; "hat"; "haben"; "kann"; "können";
   "soll"; "sollen"; "darf"; "dürfen"; "muss"; "müssen"; "gemäß"; "nach";
   "durch"; "auf"; "über"; "bei"; "unter"]%string.

(** A word that begins and ends with an ASCII lower-case letter. *)
Definition ascii_ended (w : jstr) : bool :=
  match w with
  | [] => false
  | c :: _ => is_lower c && is_lower (last w c)
  end.

(** The function words that begin and end with an ASCII letter: all but
    [gemäß] and [über]. *)
Definition recognised_function_words : list string :=
  filter (fun w => ascii_ended (js w)) function_words.

Definition contains_function_word (line : jstr) : Prop :=
  exists w, In w recognised_function_words /\ occurs_as_word (js w) line.

(* ================================================================= *)
(** * The repository's unit tests, replayed on the model *)

Unset Implicit Arguments.

(** tests/unit/content-cleaner.test.ts *)

Example clean_bvg_art_1 :
  cleanProvisionContent
    (text ["BGBl. Nr. 1/1930 zuletzt geändert durch StGBl. Nr. 4/1945";
           "BVG"; "Art. 1"; "19.12.1945"; "31.12.1994"; "B-VG";
           "10/01 Bundes-Verfassungsgesetz (B-VG)";
           "Österreich ist eine demokratische Republik. Ihr Recht geht vom Volk aus. Artikel 1.";
           "Staatsform, Regierungsform, Demokratie, demokratisches Prinzip,";
           "republikanisches Prinzip, Grundprinzip, Baugesetz, Gesamtänderung";
           "10.01.2020"; "10000138"; "NOR12002675"; "N1193018808R"]%string)
  = js "Österreich ist eine demokratische Republik. Ihr Recht geht vom Volk aus.".
Proof. vm_compute. reflexivity. Qed.

Example clean_abgb_1 :
  cleanProvisionContent
    (text ["JGS Nr. 946/1811"; "§ 1"; "01.01.1812";
           "Der Inbegriff der Gesetze, wodurch die Privat-Rechte und Pflichten der Einwohner des Staates unter sich bestimmt werden, macht das bürgerliche Recht in demselben aus. § 1."]%string)
  = js "Der Inbegriff der Gesetze, wodurch die Privat-Rechte und Pflichten der Einwohner des Staates unter sich bestimmt werden, macht das bürgerliche Recht in demselben aus.".
Proof. vm_compute. reflexivity. Qed.

Example clean_asvg_1 :
  cleanProvisionContent
    (text ["BGBl. Nr. 189/1955"; "BG"; "§ 1"; "01.01.1956"; "ASVG";
           "66/01 Allgemeines Sozialversicherungsgesetz";
           "Dieses Bundesgesetz regelt die Allgemeine Sozialversicherung im Inland beschäftigter Personen. § 1.";
           "18.12.2024"; "10008147"; "NOR12093434"; "N6195545424L"]%string)
  = js "Dieses Bundesgesetz regelt die Allgemeine Sozialversicherung im Inland beschäftigter Personen.".
Proof. vm_compute. reflexivity. Qed.

Example clean_multi_paragraph :
  let cleaned :=
    cleanProvisionContent
      (text ["BGBl. Nr. 194/1961 zuletzt geändert durch BGBl. I Nr. 104/2019";
             "BG"; "§ 1"; "01.01.2021"; "BAO";
             "32/01 Finanzverfahren, allgemeines Abgabenrecht";
             "(1) Die Bestimmungen dieses Bundesgesetzes gelten in Angelegenheiten der öffentlichen Abgaben.";
             "(2) Die Bestimmungen gelten überdies in Angelegenheiten der Beiträge."]%string)
  in
  includes cleaned (js "(1)") = true /\ includes cleaned (js "(2)") = true
  /\ includes cleaned (js "BGBl") = false
  /\ includes cleaned (js "BAO") = false.
Proof. cbv zeta. repeat split; vm_compute; reflexivity. Qed.

Example clean_plain :
  cleanProvisionContent (js "This is plain content with no metadata.")
  = js "This is plain content with no metadata.".
Proof. vm_compute. reflexivity. Qed.

Example clean_empty : cleanProvisionContent (js "") = js "".
Proof. vm_compute. reflexivity. Qed.

Example clean_only_metadata :
  cleanProvisionContent
    (text ["BGBl. III Nr. 188/1997"; "Anl. 1"; "01.11.1997"]%string) = js "".
Proof. vm_compute. reflexivity. Qed.

Example clean_long_terms :
  includes
    (cleanProvisionContent
       (text ["BGBl. Nr. 1/2000"; "§ 1"; "01.01.2000";
              "Befugnisse des Bundesministers für Inneres und Föderales, Sicherheitspolitik, Verteidigung"]%string))
    (js "Befugnisse") = true.
Proof. vm_compute. reflexivity. Qed.

Example clean_keyword_line :
  cleanProvisionContent
    (text ["BGBl. Nr. 1/2000"; "§ 1"; "01.01.2000";
           "Dieses Gesetz regelt die Verwaltung.";
           "Verwaltung, Organisation, Behörde"]%string)
  = js "Dieses Gesetz regelt die Verwaltung.".
Proof. vm_compute. reflexivity. Qed.

Example clean_special_characters :
  let cleaned :=
    cleanProvisionContent
      (text ["BGBl. Nr. 1/2000"; "§ 1"; "01.01.2000";
             "Straßenverkehrsordnung: Überholen auf Brücken ist verboten."]%string)
  in
  includes cleaned (js "Straßenverkehrsordnung") = true
  /\ includes cleaned (js "Überholen") = true.
Proof. cbv zeta. split; vm_compute; reflexivity. Qed.

Example clean_keyword_line_with_verb :
  includes
    (cleanProvisionContent
       (text ["BGBl. Nr. 1/2000"; "§ 1"; "01.01.2000";
              "Die Sicherheit ist gewährleistet, Schutz und Recht."]%string))
    (js "Sicherheit") = true.
Proof. vm_compute. reflexivity. Qed.

(** The end-to-end example of the specification. *)
Example clean_spec_example :
  cleanProvisionContent
    (text ["BGBl. Nr. 1/1930"; "§ 1";
           "Österreich ist eine demokratische Republik. Artikel 1.";
           "Staatsform, Demokratie, Grundprinzip"]%string)
  = js "Österreich ist eine demokratische Republik.".
Proof. vm_compute. reflexivity. Qed.

(** Citation parser tests. *)

Example parse_section_then_title :
  let r := parseCitation (js "§ 1, Allgemeines bürgerliches Gesetzbuch") in
  valid r = true /\ section r = Some (js "1")
  /\ title r = Some (js "Allgemeines bürgerliches Gesetzbuch").
Proof. cbv zeta. repeat split; vm_compute; reflexivity. Qed.

Example parse_title_then_section :
  let r := parseCitation (js "Allgemeines bürgerliches Gesetzbuch § 1") in
  valid r = true /\ section r = Some (js "1")
  /\ title r = Some (js "Allgemeines bürgerliches Gesetzbuch").
Proof. cbv zeta. repeat split; vm_compute; reflexivity. Qed.

Example parse_machine_ref_then_title :
  let r := parseCitation (js "para1, ABGB") in
  valid r = true /\ section r = Some (js "1") /\ title r = Some (js "ABGB").
Proof. cbv zeta. repeat split; vm_compute; reflexivity. Qed.

Example parse_legacy_without_year :
  let r := parseCitation (js "Section 3, Data Protection Act") in
  valid r = true /\ section r = Some (js "3")
  /\ title r = Some (js "Data Protection Act") /\ year r = None.
Proof. cbv zeta. repeat split; vm_compute; reflexivity. Qed.

Example parse_bare_machine_ref :
  let r := parseCitation (js "para1") in
  valid r = true /\ section r = Some (js "1").
Proof. cbv zeta. split; vm_compute; reflexivity. Qed.

Example parse_bare_section :
  let r := parseCitation (js "§ 1") in
  valid r = true /\ section r = Some (js "1").
Proof. cbv zeta. split; vm_compute; reflexivity. Qed.

Example parse_gibberish :
  let r := parseCitation (js "random gibberish") in
  valid r = false
  /\ includes (the (error r)) (js "Could not parse") = true.
Proof. cbv zeta. split; vm_compute; reflexivity. Qed.

Example parse_title_with_year :
  let r := parseCitation (js "§ 5, Datenschutzgesetz 2000") in
  valid r = true /\ year r = Some (Num 2000)
  /\ title r = Some (js "Datenschutzgesetz").
Proof. cbv zeta. repeat split; vm_compute; reflexivity. Qed.

(** Citation formatter tests. *)

Example format_full_with_title :
  formatCitation (cited (Some "1") (Some "ABGB") None None None)%string full
  = js "§ 1, ABGB".
Proof. vm_compute. reflexivity. Qed.

Example format_full_without_title :
  formatCitation (cited (Some "1") None None None None)%string full
  = js "§ 1".
Proof. vm_compute. reflexivity. Qed.

Example format_short :
  formatCitation (cited (Some "3") (Some "DSG") None None None)%string short
  = js "§ 3 DSG".
Proof. vm_compute. reflexivity. Qed.

Example format_pinpoint :
  formatCitation (cited (Some "3") None None None None)%string pinpoint
  = js "§ 3".
Proof. vm_compute. reflexivity. Qed.

Example format_subsection_paragraph :
  formatCitation
    (cited (Some "3") (Some "DSG") (Some "1") (Some "a") None)%string full
  = js "§ 3(1)(a), DSG".
Proof. vm_compute. reflexivity. Qed.

Example format_with_year :
  formatCitation
    (cited (Some "5") (Some "Datenschutzgesetz") None None (Some 2000%Z))%string
    full
  = js "§ 5, Datenschutzgesetz 2000".
Proof. vm_compute. reflexivity. Qed.

Example format_without_section :
  formatCitation (cited None (Some "ABGB") None None None)%string full = [].
Proof. vm_compute. reflexivity. Qed.

(** The end-to-end example of the specification, in the short style. *)
Example format_spec_example :
  formatCitation (parseCitation (js "§ 1, Allgemeines bürgerliches Gesetzbuch"))
                 short
  = js "§ 1 Allgemeines bürgerliches Gesetzbuch".
Proof. vm_compute. reflexivity. Qed.

(** FTS query tests, with the ASCII restriction of the Unicode tables. *)

Example fts_punctuation_only :
  primary (buildFtsQueryVariants ascii_L ascii_N (js "!!!")) = js "!!!".
Proof. vm_compute. reflexivity. Qed.

Example fts_fallback_empty :
  buildSanitizedFallback ascii_L ascii_N (js "!!! ### $$$") = None.
Proof. vm_compute. reflexivity. Qed.

Example fts_plain_words :
  let r := buildFtsQueryVariants ascii_L ascii_N (js "Daten Schutz") in
  primary r = quoted_prefix (js "Daten") ++ js " " ++ quoted_prefix (js "Schutz")
  /\ fallback r = Some (js "Daten* OR Schutz*").
Proof. cbv zeta. split; vm_compute; reflexivity. Qed.

Example fts_explicit_syntax :
  let q := dquote :: js "Datenschutz" ++ dquote :: js " AND "
                  ++ dquote :: js "Recht" ++ [dquote] in
  let r := buildFtsQueryVariants ascii_L ascii_N q in
  primary r = q
  /\ fallback r
     = Some (quoted_prefix (js "Datenschutz") ++ js " OR "
               ++ quoted_prefix (js "AND") ++ js " OR "
               ++ quoted_prefix (js "Recht")).
Proof. cbv zeta. split; vm_compute; reflexivity. Qed.

(* ================================================================= *)
(** * Proofs *)

Unset Implicit Arguments.

#[local] Hint Constructors sem : core.

Ltac inv H := inversion H; subst; clear H.

Section Soundness.

Variable ic : bool.
Variable A : Type.

Lemma rep_sound (r : regex) (body : matcher A) (g : bool) :
  body_sound ic r body ->
  forall fuel mn mx p s cs (k : cont A) a,
    rep body (groups r) g fuel mn mx p s cs k = Some a ->
    exists p' s' cs',
      sem ic (Rep g mn mx r) p s cs p' s' cs' /\ k p' s' cs' = Some a.
Proof.
  intros Hb. induction fuel as [|fuel IH]; intros mn mx p s cs k a H.
  - discriminate.
  - cbn [rep] in H.
    assert (Hstop : k p s cs = Some a -> (mn = 0 \/ mx = Some 0) ->
                    exists p' s' cs',
                      sem ic (Rep g mn mx r) p s cs p' s' cs'
                      /\ k p' s' cs' = Some a).
    { intros Hk Hc. exists p, s, cs. split; [constructor; exact Hc|exact Hk]. }
    assert (Hagain :
              forall b0 : bool,
              mx <> Some 0 ->
              body p s (clear_caps (groups r) cs)
                   (fun p' s' cs' =>
                      if b0 && Nat.eqb (length s') (length s)
                      then None
                      else rep body (groups r) g fuel (pred mn)
                               (option_map pred mx) p' s' cs' k) = Some a ->
              exists p' s' cs',
                sem ic (Rep g mn mx r) p s cs p' s' cs'
                /\ k p' s' cs' = Some a).
    { intros b0 Hmx Hr. apply Hb in Hr.
      destruct Hr as (p1 & s1 & cs1 & Hs & Hk).
      destruct (b0 && Nat.eqb (length s1) (length s));
        [discriminate|].
      apply IH in Hk. destruct Hk as (p2 & s2 & cs2 & Hs2 & Hk2).
      exists p2, s2, cs2. split; [|exact Hk2].
      eapply sem_rep_iter; eauto. }
    assert (Hcases :
              mx <> Some 0 ->
              (let again :=
                 body p s (clear_caps (groups r) cs)
                   (fun p' s' cs' =>
                      if Nat.eqb mn 0 && Nat.eqb (length s') (length s)
                      then None
                      else rep body (groups r) g fuel (pred mn)
                               (option_map pred mx) p' s' cs' k) in
               if negb (Nat.eqb mn 0) then again
               else if g then orelse again (k p s cs)
                    else orelse (k p s cs) again) = Some a ->
              exists p' s' cs',
                sem ic (Rep g mn mx r) p s cs p' s' cs'
                /\ k p' s' cs' = Some a).
    { intros Hmx. cbv zeta.
      destruct mn as [|mn']; cbn [Nat.eqb negb].
      - destruct g; unfold orelse.
        + intro H0.
          match type of H0 with
          | match ?x with _ => _ end = _ => destruct x eqn:Ex
          end.
          * inv H0. exact (Hagain true Hmx Ex).
          * apply Hstop; auto.
        + destruct (k p s cs) eqn:Ek.
          * intro H0. inv H0. apply Hstop; auto.
          * intro H0. exact (Hagain true Hmx H0).
      - intro H0. exact (Hagain false Hmx H0). }
    destruct mx as [[|mx']|].
    + apply Hstop; auto.
    + apply Hcases; [discriminate|exact H].
    + apply Hcases; [discriminate|exact H].
Qed.

(** Every result of the backtracking matcher is a match in the
    declarative sense, handed to the continuation. *)
Lemma m_sound (r : regex) : body_sound ic r (m ic (A:=A) r).
Proof.
  induction r; intros p s cs k a H; cbn [m] in H.
  - exists p, s, cs. auto.
  - destruct s as [|x s']; [discriminate|].
    destruct (chr_eq ic c x) eqn:E; [|discriminate].
    exists (Some x), s', cs. auto.
  - destruct s as [|x s']; [discriminate|].
    destruct (class_mem ic neg items x) eqn:E; [|discriminate].
    exists (Some x), s', cs. auto.
  - destruct s as [|x s']; [discriminate|].
    destruct (is_line_terminator x) eqn:E; [discriminate|].
    exists (Some x), s', cs. auto.
  - apply IHr1 in H. destruct H as (p1 & s1 & cs1 & H1 & H).
    apply IHr2 in H. destruct H as (p2 & s2 & cs2 & H2 & H).
    exists p2, s2, cs2. eauto.
  - unfold orelse in H. destruct (m ic r1 p s cs k) eqn:E.
    + inv H. apply IHr1 in E. destruct E as (p1 & s1 & cs1 & H1 & H).
      exists p1, s1, cs1. auto.
    + apply IHr2 in H. destruct H as (p1 & s1 & cs1 & H1 & H).
      exists p1, s1, cs1. auto.
  - eapply rep_sound; eauto.
  - apply IHr in H. destruct H as (p1 & s1 & cs1 & H1 & H).
    eexists _, _, _. split; [|exact H]. constructor. exact H1.
  - destruct p; [discriminate|]. exists None, s, cs. auto.
  - destruct s; [|discriminate]. exists p, [], cs. auto.
  - destruct (xorb (is_word_opt p) (is_word_opt (hd_error s))) eqn:E;
      [|discriminate].
    exists p, s, cs. auto.
Qed.

End Soundness.

(* ================================================================= *)
(** ** The fuel of a repetition is enough *)

Section Fuel.

Variable ic : bool.
Variable A : Type.

Lemma rep_local (body : matcher A) (gs : list nat) (g : bool) :
  local_matcher body ->
  forall fuel mn mx, local_matcher (rep body gs g fuel mn mx).
Proof.
  intros Hb. induction fuel as [|fuel IH]; intros mn mx p s cs k1 k2 Hk;
    [reflexivity|].
  cbn [rep]. rewrite (Hk p s cs (le_n _)).
  assert (Hagain :
            body p s (clear_caps gs cs)
                 (fun p' s' cs' =>
                    if Nat.eqb mn 0 && Nat.eqb (length s') (length s)
                    then None
                    else rep body gs g fuel (pred mn) (option_map pred mx)
                             p' s' cs' k1)
            = body p s (clear_caps gs cs)
                   (fun p' s' cs' =>
                      if Nat.eqb mn 0 && Nat.eqb (length s') (length s)
                      then None
                      else rep body gs g fuel (pred mn) (option_map pred mx)
                               p' s' cs' k2)).
  { apply Hb. intros p' s' cs' Hl.
    destruct (Nat.eqb mn 0 && Nat.eqb (length s') (length s));
      [reflexivity|].
    apply IH. intros p2 s2 cs2 Hl2. apply Hk. lia. }
  rewrite Hagain. reflexivity.
Qed.

Lemma m_local (r : regex) : local_matcher (m ic (A:=A) r).
Proof.
  induction r; intros p s cs k1 k2 Hk; cbn [m].
  - now apply Hk.
  - destruct s as [|a s']; [reflexivity|].
    destruct (chr_eq ic c a); [|reflexivity]. apply Hk. cbn. lia.
  - destruct s as [|a s']; [reflexivity|].
    destruct (class_mem ic neg items a); [|reflexivity]. apply Hk. cbn. lia.
  - destruct s as [|a s']; [reflexivity|].
    destruct (is_line_terminator a); [reflexivity|]. apply Hk. cbn. lia.
  - apply IHr1. intros p' s' cs' Hl. apply IHr2.
    intros p2 s2 cs2 Hl2. apply Hk. lia.
  - rewrite (IHr1 p s cs k1 k2 Hk), (IHr2 p s cs k1 k2 Hk). reflexivity.
  - apply rep_local; assumption.
  - apply IHr. intros p' s' cs' Hl. now apply Hk.
  - destruct p; [reflexivity|]. now apply Hk.
  - destruct s; [|reflexivity]. now apply Hk.
  - destruct (xorb _ _); [|reflexivity]. now apply Hk.
Qed.

(** Beyond the mandatory iterations plus the length of the input, more
    fuel does not change the result of a repetition: the bound taken by
    [m] never cuts a repetition short. *)
Lemma rep_fuel_enough (body : matcher A) (gs : list nat) (g : bool) :
  local_matcher body ->
  forall fuel1 fuel2 mn mx p s cs (k : cont A),
    mn + length s < fuel1 -> mn + length s < fuel2 ->
    rep body gs g fuel1 mn mx p s cs k = rep body gs g fuel2 mn mx p s cs k.
Proof.
  intros Hb. induction fuel1 as [|fuel1 IH];
    intros fuel2 mn mx p s cs k H1 H2; [lia|].
  destruct fuel2 as [|fuel2]; [lia|]. cbn [rep].
  assert (Hagain :
            body p s (clear_caps gs cs)
                 (fun p' s' cs' =>
                    if Nat.eqb mn 0 && Nat.eqb (length s') (length s)
                    then None
                    else rep body gs g fuel1 (pred mn) (option_map pred mx)
                             p' s' cs' k)
            = body p s (clear_caps gs cs)
                   (fun p' s' cs' =>
                      if Nat.eqb mn 0 && Nat.eqb (length s') (length s)
                      then None
                      else rep body gs g fuel2 (pred mn) (option_map pred mx)
                               p' s' cs' k)).
  { apply Hb. intros p' s' cs' Hl.
    destruct (Nat.eqb mn 0) eqn:Emn; cbn [andb].
    - destruct (Nat.eqb (length s') (length s)) eqn:El; [reflexivity|].
      apply Nat.eqb_eq in Emn. apply Nat.eqb_neq in El. subst mn.
      apply IH; cbn; lia.
    - apply Nat.eqb_neq in Emn. apply IH; lia. }
  rewrite Hagain. reflexivity.
Qed.

End Fuel.

(* ================================================================= *)
(** ** Character facts *)

Ltac bool_to_prop :=
  repeat match goal with
  | H : _ && _ = true |- _ => apply andb_true_iff in H; destruct H
  | H : _ && _ = false |- _ => apply andb_false_iff in H; destruct H
  | H : _ || _ = true |- _ => apply orb_true_iff in H; destruct H
  | H : _ || _ = false |- _ => apply orb_false_iff in H; destruct H
  | H : negb _ = true |- _ => apply negb_true_iff in H
  | H : negb _ = false |- _ => apply negb_false_iff in H
  | H : (_ <=? _)%N = true |- _ => apply N.leb_le in H
  | H : (_ <=? _)%N = false |- _ => apply N.leb_gt in H
  | H : (_ <? _)%N = true |- _ => apply N.ltb_lt in H
  | H : (_ <? _)%N = false |- _ => apply N.ltb_ge in H
  | H : (_ =? _)%N = true |- _ => apply N.eqb_eq in H
  | H : (_ =? _)%N = false |- _ => apply N.eqb_neq in H
  | H : true = false |- _ => discriminate H
  | H : false = true |- _ => discriminate H
  end.

(** Settle a goal about character tests once the tests are unfolded. *)
Ltac char_lia :=
  unfold is_digit, is_lower, is_upper, is_word, is_space,
    is_line_terminator, in_range in *;
  match goal with
  | |- ?b = _ => destruct b eqn:?G; try reflexivity; exfalso
  | _ => idtac
  end;
  bool_to_prop; try lia; try discriminate.

Lemma canon_digit (a : cu) : is_digit (canon a) = true -> is_digit a = true.
Proof.
  unfold canon. destruct (is_lower a) eqn:E1;
    [|destruct (in_range 224 254 a && negb (a =? 247)%N) eqn:E2];
    intro H; char_lia.
Qed.

Lemma uncanon_digit (a : cu) :
  is_digit (uncanon a) = true -> is_digit a = true.
Proof.
  unfold uncanon. destruct (is_upper a) eqn:E1;
    [|destruct (in_range 192 222 a && negb (a =? 215)%N) eqn:E2];
    intro H; char_lia.
Qed.

Lemma digit_class_is_digit (ic : bool) (a : cu) :
  class_mem ic false [CDigit] a = true -> is_digit a = true.
Proof.
  unfold class_mem, items_mem. cbn [existsb item_mem xorb].
  destruct ic; rewrite ?orb_false_r; intro H.
  - apply orb_true_iff in H. destruct H as [H|H].
    + now apply canon_digit.
    + now apply canon_digit, uncanon_digit.
  - exact H.
Qed.

Lemma digit_not_space (a : cu) : is_digit a = true -> is_space a = false.
Proof. intro H. char_lia. Qed.

Lemma digit_not_p (a : cu) : is_digit a = true -> chr_eq true 112 a = false.
Proof.
  unfold chr_eq, canon. change (is_lower 112) with true. cbv iota.
  change (112 - 32)%N with 80%N.
  destruct (is_lower a) eqn:E1;
    [|destruct (in_range 224 254 a && negb (a =? 247)%N) eqn:E2];
    intro H; char_lia.
Qed.

(* ================================================================= *)
(** ** Structure of matches *)

Lemma firstn_app_length (w s : jstr) :
  firstn (length (w ++ s) - length s) (w ++ s) = w.
Proof.
  rewrite length_app. replace (length w + length s - length s) with (length w)
    by lia.
  rewrite firstn_app, firstn_all, Nat.sub_diag. cbn. apply app_nil_r.
Qed.

(** A match consumes a prefix of the remaining input. *)
Lemma sem_suffix ic r p s cs p' s' cs' :
  sem ic r p s cs p' s' cs' -> exists w, s = w ++ s'.
Proof.
  induction 1;
    try (exists []; reflexivity);
    try (exists [a]; reflexivity);
    try assumption.
  - destruct IHsem1 as [w1 ->]. destruct IHsem2 as [w2 ->].
    exists (w1 ++ w2). now rewrite app_assoc.
  - destruct IHsem1 as [w1 ->]. destruct IHsem2 as [w2 ->].
    exists (w1 ++ w2). now rewrite app_assoc.
Qed.

Lemma get_cap_clear i l cs :
  mem_nat i l = false -> get_cap i (clear_caps l cs) = get_cap i cs.
Proof.
  intro Hi. induction cs as [|[j w] tl IH]; cbn; [reflexivity|].
  destruct (mem_nat j l) eqn:Ej.
  - destruct (Nat.eqb i j) eqn:Eij; [|exact IH].
    apply Nat.eqb_eq in Eij. subst. congruence.
  - cbn. now rewrite IH.
Qed.

Lemma mem_nat_app i l1 l2 :
  mem_nat i (l1 ++ l2) = mem_nat i l1 || mem_nat i l2.
Proof.
  induction l1; cbn; [reflexivity|]. now rewrite IHl1, orb_assoc.
Qed.

(** A match leaves the registers of the groups it does not contain. *)
Lemma sem_frame ic r p s cs p' s' cs' i :
  sem ic r p s cs p' s' cs' ->
  mem_nat i (groups r) = false -> get_cap i cs' = get_cap i cs.
Proof.
  induction 1; cbn [groups]; intro Hi; try reflexivity.
  - rewrite mem_nat_app in Hi. apply orb_false_iff in Hi as [H1 H2].
    now rewrite IHsem2, IHsem1.
  - rewrite mem_nat_app in Hi. apply orb_false_iff in Hi as [H1 H2]. auto.
  - rewrite mem_nat_app in Hi. apply orb_false_iff in Hi as [H1 H2]. auto.
  - cbn [groups] in IHsem2. rewrite IHsem2, IHsem1 by assumption.
    now apply get_cap_clear.
  - cbn [mem_nat] in Hi. apply orb_false_iff in Hi as [H1 H2].
    cbn [set_cap get_cap]. rewrite H1. auto.
Qed.

Lemma sem_seq_inv ic r1 r2 p s cs p2 s2 cs2 :
  sem ic (Seq r1 r2) p s cs p2 s2 cs2 ->
  exists p1 s1 cs1,
    sem ic r1 p s cs p1 s1 cs1 /\ sem ic r2 p1 s1 cs1 p2 s2 cs2.
Proof. intro H. inv H. eauto. Qed.

(** What is left of a sequence once its head has matched. *)
Lemma sem_seq_tail ic r1 r2 p s cs p2 s2 cs2 :
  sem ic (Seq r1 r2) p s cs p2 s2 cs2 ->
  exists p1 s1 cs1, sem ic r2 p1 s1 cs1 p2 s2 cs2.
Proof. intro H. inv H. eauto. Qed.

Lemma sem_grp_inv ic i r p s cs p' s' cs2 :
  sem ic (Grp i r) p s cs p' s' cs2 ->
  exists cs', sem ic r p s cs p' s' cs'
              /\ cs2 = set_cap i (firstn (length s - length s') s) cs'.
Proof. intro H. inv H. eauto. Qed.

Lemma sem_cls_inv ic neg items p s cs p' s' cs' :
  sem ic (Cls neg items) p s cs p' s' cs' ->
  exists a, s = a :: s' /\ class_mem ic neg items a = true
            /\ p' = Some a /\ cs' = cs.
Proof. intro H. inv H. eauto. Qed.

Lemma sem_chr_inv ic c p s cs p' s' cs' :
  sem ic (Chr c) p s cs p' s' cs' ->
  exists a, s = a :: s' /\ chr_eq ic c a = true /\ p' = Some a /\ cs' = cs.
Proof. intro H. inv H. eauto. Qed.

Lemma sem_dot_inv ic p s cs p' s' cs' :
  sem ic Dot p s cs p' s' cs' ->
  exists a, s = a :: s' /\ is_line_terminator a = false
            /\ p' = Some a /\ cs' = cs.
Proof. intro H. inv H. eauto. Qed.

Lemma sem_bol_inv ic p s cs p' s' cs' :
  sem ic Bol p s cs p' s' cs' -> p = None /\ p' = None /\ s' = s /\ cs' = cs.
Proof. intro H. inv H. auto. Qed.

Lemma sem_eol_inv ic p s cs p' s' cs' :
  sem ic Eol p s cs p' s' cs' -> s = [] /\ p' = p /\ s' = [] /\ cs' = cs.
Proof. intro H. inv H. auto. Qed.

Lemma sem_eps_inv ic p s cs p' s' cs' :
  sem ic Eps p s cs p' s' cs' -> p' = p /\ s' = s /\ cs' = cs.
Proof. intro H. inv H. auto. Qed.

Lemma sem_alt_inv ic r1 r2 p s cs p' s' cs' :
  sem ic (Alt r1 r2) p s cs p' s' cs' ->
  sem ic r1 p s cs p' s' cs' \/ sem ic r2 p s cs p' s' cs'.
Proof. intro H. inv H; auto. Qed.

(** A repetition either stops or runs its body once more. *)
Lemma sem_rep_inv ic g mn mx r p s cs p2 s2 cs2 :
  sem ic (Rep g mn mx r) p s cs p2 s2 cs2 ->
  ((mn = 0 \/ mx = Some 0) /\ p2 = p /\ s2 = s /\ cs2 = cs)
  \/ (mx <> Some 0 /\
      exists p1 s1 cs1,
        sem ic r p s (clear_caps (groups r) cs) p1 s1 cs1
        /\ sem ic (Rep g (pred mn) (option_map pred mx) r) p1 s1 cs1
               p2 s2 cs2).
Proof. intro H. inv H; [left; auto|right; eauto 8]. Qed.

(** A repetition with a positive minimum and no maximum runs its body. *)
Lemma sem_rep_pos_inv ic g n r p s cs p2 s2 cs2 :
  sem ic (Rep g (S n) None r) p s cs p2 s2 cs2 ->
  exists p1 s1 cs1,
    sem ic r p s (clear_caps (groups r) cs) p1 s1 cs1
    /\ sem ic (Rep g n None r) p1 s1 cs1 p2 s2 cs2.
Proof.
  intro H. apply sem_rep_inv in H. destruct H as [[[H|H] _]|[_ H]].
  - discriminate.
  - discriminate.
  - exact H.
Qed.

(** A sequence that begins with one or more characters of a class
    consumes a character of the class first. *)
Lemma sem_plus_head ic g n neg items r2 p s cs p' s' cs' :
  sem ic (Seq (Rep g (S n) None (Cls neg items)) r2) p s cs p' s' cs' ->
  exists a w, s = a :: w ++ s' /\ class_mem ic neg items a = true.
Proof.
  intro H. apply sem_seq_inv in H. destruct H as (p1 & s1 & cs1 & H1 & H2).
  apply sem_rep_pos_inv in H1. destruct H1 as (p0 & s0 & cs0 & Hc & Hr).
  apply sem_cls_inv in Hc. destruct Hc as (a & -> & Ha & _ & _).
  apply sem_suffix in Hr. destruct Hr as [w1 ->].
  apply sem_suffix in H2. destruct H2 as [w2 ->].
  exists a, (w1 ++ w2). split; [|exact Ha]. now rewrite <- app_assoc.
Qed.

(** A group whose body begins with one or more characters of a class
    captures a non-empty text that begins in the class. *)
Lemma sem_group_head ic i g n neg items r2 rest p s cs p' s' cs' :
  sem ic (Seq (Grp i (Seq (Rep g (S n) None (Cls neg items)) r2)) rest)
      p s cs p' s' cs' ->
  mem_nat i (groups rest) = false ->
  exists a w, get_cap i cs' = Some (a :: w)
              /\ class_mem ic neg items a = true.
Proof.
  intros H Hi. apply sem_seq_inv in H.
  destruct H as (p1 & s1 & cs1 & H1 & H2).
  rewrite (sem_frame _ _ _ _ _ _ _ _ i H2 Hi).
  apply sem_grp_inv in H1. destruct H1 as (cs0 & H1 & ->).
  cbn [get_cap set_cap]. rewrite Nat.eqb_refl.
  apply sem_plus_head in H1. destruct H1 as (a & w & -> & Ha).
  exists a, w. split; [|exact Ha]. f_equal.
  change (a :: w ++ s1) with ((a :: w) ++ s1). apply firstn_app_length.
Qed.

(** A successful search is a match at some position of the input. *)
Lemma search_from_sound ic r :
  forall s i p res,
    search_from ic r i p s = Some res ->
    exists pre s0 p0 p',
      s = pre ++ s0
      /\ (pre = [] -> p0 = p)
      /\ (pre <> [] -> p0 <> None)
      /\ m_index res = i + length pre
      /\ s0 = m_text res ++ m_after res
      /\ sem ic r p0 s0 [] p' (m_after res) (m_caps res).
Proof.
  assert (Hhere : forall s p s' cs',
             exec_at ic r p s = Some (s', cs') ->
             exists p',
               s = firstn (length s - length s') s ++ s'
               /\ sem ic r p s [] p' s' cs').
  { intros s p s' cs' E. unfold exec_at in E. apply m_sound in E.
    destruct E as (p1 & s1 & cs1 & Hs & Hk). inv Hk.
    exists p1. split; [|exact Hs].
    apply sem_suffix in Hs. destruct Hs as [w ->].
    now rewrite firstn_app_length. }
  induction s as [|a s IH]; intros i p res H; cbn [search_from] in H.
  - destruct (exec_at ic r p []) as [[s' cs']|] eqn:E; [|discriminate].
    inv H. apply Hhere in E. destruct E as (p1 & Hw & Hs).
    exists [], [], p, p1. cbn [m_index m_text m_after m_caps].
    repeat split; auto; try congruence.
  - destruct (exec_at ic r p (a :: s)) as [[s' cs']|] eqn:E.
    + inv H. apply Hhere in E. destruct E as (p1 & Hw & Hs).
      exists [], (a :: s), p, p1. cbn [m_index m_text m_after m_caps].
      repeat split; auto; try congruence.
    + apply IH in H.
      destruct H as (pre & s0 & p0 & p' & Hs & Hp1 & Hp2 & Hi & Ht & Hsem).
      exists (a :: pre), s0, p0, p'. repeat split; auto.
      * now rewrite Hs.
      * discriminate.
      * intros _. destruct pre; [rewrite Hp1 by reflexivity; discriminate|].
        apply Hp2. discriminate.
      * rewrite Hi. cbn. lia.
Qed.

(** A pattern that begins with [^] matches at the start of the input. *)
Lemma search_anchored ic r s res :
  search_from ic (Seq Bol r) 0 None s = Some res ->
  exists p',
    m_index res = 0 /\ s = m_text res ++ m_after res
    /\ sem ic (Seq Bol r) None s [] p' (m_after res) (m_caps res).
Proof.
  intro H. apply search_from_sound in H.
  destruct H as (pre & s0 & p0 & p' & Hs & Hp1 & Hp2 & Hi & Ht & Hsem).
  assert (pre = []) as ->.
  { destruct pre; [reflexivity|]. exfalso.
    apply sem_seq_inv in Hsem. destruct Hsem as (? & ? & ? & Hb & _).
    apply sem_bol_inv in Hb. destruct Hb as (Hb & _).
    apply Hp2; [discriminate|exact Hb]. }
  cbn in *. subst s0. rewrite Hp1 in Hsem by reflexivity.
  exists p'. repeat split; auto.
Qed.

(* ================================================================= *)
(** ** Trimming *)

Lemma drop_while_snoc_keep (f : cu -> bool) (l : jstr) (a : cu) :
  f a = false -> drop_while f (l ++ [a]) = drop_while f l ++ [a].
Proof.
  intro Ha. induction l as [|x l IH]; cbn.
  - now rewrite Ha.
  - destruct (f x); [exact IH|reflexivity].
Qed.

Lemma trimEnd_cons_keep (a : cu) (w : jstr) :
  is_space a = false -> trimEnd (a :: w) = a :: trimEnd w.
Proof.
  intro Ha. unfold trimEnd. cbn [rev].
  rewrite drop_while_snoc_keep by assumption.
  rewrite rev_app_distr. reflexivity.
Qed.

Lemma trim_cons_keep (a : cu) (w : jstr) :
  is_space a = false -> trim (a :: w) = a :: trimEnd w.
Proof.
  intro Ha. unfold trim, trimStart. cbn [drop_while]. rewrite Ha.
  now apply trimEnd_cons_keep.
Qed.

Lemma drop_while_all (f : cu -> bool) (s : jstr) :
  Forall (fun c => f c = true) s -> drop_while f s = [].
Proof.
  induction 1 as [|c s Hc _ IH]; cbn; [reflexivity|]. now rewrite Hc.
Qed.

(** Whitespace-only input trims to the empty string. *)
Lemma trim_all_space (s : jstr) :
  Forall (fun c => is_space c = true) s -> trim s = [].
Proof.
  intro H. unfold trim, trimStart. now rewrite drop_while_all.
Qed.

(* ================================================================= *)
(** ** Facts about the citation patterns *)

Lemma search_bol_later ic r :
  forall s i c, search_from ic (Seq Bol r) i (Some c) s = None.
Proof.
  induction s as [|a s IH]; intros i c; cbn; [reflexivity|]. apply IH.
Qed.

Ltac peel H :=
  apply sem_seq_tail in H; destruct H as (? & ? & ? & H).

Ltac open_match H re :=
  unfold re_match, re in H; cbn [re_ic re_body seqs fold_right] in H;
  apply search_anchored in H; destruct H as (? & ? & ? & H).

Ltac group_digit H :=
  unfold section_token, machine_token, seqs, plus, digit in H;
  cbn [fold_right] in H;
  apply sem_group_head in H; [|reflexivity];
  destruct H as (?a & ?w & ? & ?Hd%digit_class_is_digit);
  eauto.

Lemma SECTION_THEN_TITLE_section t r :
  re_match SECTION_THEN_TITLE t = Some r ->
  digit_headed (get_cap 1 (m_caps r)).
Proof.
  intro H. open_match H SECTION_THEN_TITLE. do 3 peel H.
  unfold digit_headed. group_digit H.
Qed.

Lemma TITLE_THEN_SECTION_section t r :
  re_match TITLE_THEN_SECTION t = Some r ->
  digit_headed (get_cap 2 (m_caps r)).
Proof.
  intro H. open_match H TITLE_THEN_SECTION. do 5 peel H.
  unfold digit_headed. group_digit H.
Qed.

Lemma lit_seq_tail ic l r p s cs p' s' cs' :
  sem ic (Seq (fold_right (fun c r => Seq (Chr c) r) Eps l) r)
      p s cs p' s' cs' ->
  exists p1, sem ic r p1 (skipn (length l) s) cs p' s' cs'.
Proof.
  intro H. apply sem_seq_inv in H. destruct H as (p1 & s1 & cs1 & H1 & H2).
  revert p s cs H1. induction l as [|c l IH]; intros p s cs H1; cbn in H1.
  - apply sem_eps_inv in H1. destruct H1 as (-> & -> & ->).
    exists p. exact H2.
  - apply sem_seq_inv in H1. destruct H1 as (p0 & s0 & cs0 & Hc & Hl).
    apply sem_chr_inv in Hc. destruct Hc as (a & -> & _ & _ & ->).
    apply IH in Hl. exact Hl.
Qed.

Lemma MACHINE_REF_THEN_TITLE_section t r :
  re_match MACHINE_REF_THEN_TITLE t = Some r ->
  digit_headed (get_cap 1 (m_caps r)).
Proof.
  intro H. open_match H MACHINE_REF_THEN_TITLE. do 2 peel H.
  unfold digit_headed. group_digit H.
Qed.

Lemma LEGACY_ENGLISH_section t r :
  re_match LEGACY_ENGLISH t = Some r ->
  digit_headed (get_cap 1 (m_caps r)).
Proof.
  intro H. open_match H LEGACY_ENGLISH. do 3 peel H.
  unfold digit_headed. group_digit H.
Qed.

Lemma BARE_SECTION_section t r :
  re_match BARE_SECTION t = Some r ->
  digit_headed (get_cap 1 (m_caps r)).
Proof.
  intro H. open_match H BARE_SECTION. do 3 peel H.
  unfold digit_headed. group_digit H.
Qed.

Lemma SECTION_REF_section t r :
  re_match SECTION_REF t = Some r ->
  digit_headed (get_cap 1 (m_caps r)).
Proof.
  intro H. open_match H SECTION_REF. do 1 peel H.
  unfold digit_headed. group_digit H.
Qed.

(** After the four code units of [para] a bare machine reference
    continues with a digit. *)
Lemma BARE_MACHINE_REF_digits t :
  re_test BARE_MACHINE_REF t = true ->
  exists a w, skipn 4 t = a :: w /\ is_digit a = true.
Proof.
  unfold re_test. destruct (re_match BARE_MACHINE_REF t) as [r|] eqn:H;
    [intros _|discriminate].
  open_match H BARE_MACHINE_REF.
  apply sem_seq_inv in H. destruct H as (p1 & s1 & cs1 & Hb & H).
  apply sem_bol_inv in Hb. destruct Hb as (_ & -> & -> & ->).
  change (lit "para") with
    (fold_right (fun c r => Seq (Chr c) r) Eps [112; 97; 114; 97]%N) in H.
  apply lit_seq_tail in H. destruct H as (p2 & H). cbn [length] in H.
  apply sem_seq_inv in H. destruct H as (p3 & s3 & cs3 & H & _).
  unfold machine_token, seqs, plus, digit in H. cbn [fold_right] in H.
  apply sem_plus_head in H.
  destruct H as (a & w & -> & Hd%digit_class_is_digit). eauto.
Qed.

(* ================================================================= *)
(** ** The citation parser *)

Lemma PARA_PREFIX_digit a w :
  is_digit a = true -> re_replace PARA_PREFIX [] (a :: w) = a :: w.
Proof.
  intro Hd. unfold re_replace, re_match, PARA_PREFIX.
  cbn [re_ic re_body seqs fold_right search_from].
  change (lit "para") with
    (fold_right (fun c r => Seq (Chr c) r) Eps [112; 97; 114; 97]%N).
  unfold exec_at. cbn [m fold_right]. rewrite (digit_not_p _ Hd).
  now rewrite search_bol_later.
Qed.

Lemma parseSection_invariant s title year ty :
  (exists a w, s = a :: w /\ is_digit a = true) ->
  citation_invariant (parseSection s title year ty).
Proof.
  intros (a & w & -> & Hd). unfold citation_invariant, parseSection.
  cbn [valid section].
  rewrite (PARA_PREFIX_digit _ _ Hd).
  rewrite (trim_cons_keep _ _ (digit_not_space _ Hd)).
  destruct (re_match SECTION_REF (a :: trimEnd w)) as [r|] eqn:E;
    cbn [grp nullish].
  - apply SECTION_REF_section in E. destruct E as (a' & w' & -> & _).
    reflexivity.
  - reflexivity.
Qed.

Lemma truthy_grp_digit re i x :
  (forall t r, re_match re t = Some r -> digit_headed (get_cap i (m_caps r))) ->
  truthy (grp i (re_match re x)) = true ->
  exists a w, the (grp i (re_match re x)) = a :: w /\ is_digit a = true.
Proof.
  intros Hre Ht. destruct (re_match re x) as [r|] eqn:E; [|discriminate].
  apply Hre in E. destruct E as (a & w & E & Hd).
  cbn [grp]. rewrite E. exists a, w. auto.
Qed.

(** C1. [parseCitation] is total and its result satisfies the
    ParsedCitation invariant: when [valid] holds the section is present
    and non-empty, otherwise the error is present and title, year,
    section, subsection and paragraph are all absent. *)
Theorem parseCitation_invariant :
  forall citation : jstr,
    exists r, parseCitation citation = r /\ citation_invariant r.
Proof.
  intro citation. eexists. split; [reflexivity|].
  unfold parseCitation. destruct (trim citation) as [|c t].
  { cbn. repeat split; eauto. }
  set (x := c :: t).
  destruct (truthy (grp 1 (re_match SECTION_THEN_TITLE x))
            && truthy (grp 2 (re_match SECTION_THEN_TITLE x))) eqn:E1.
  { apply andb_true_iff in E1 as [E1 _].
    destruct (splitYear _) as [cleanTitle yr].
    apply parseSection_invariant.
    exact (truthy_grp_digit _ _ _ SECTION_THEN_TITLE_section E1). }
  destruct (truthy (grp 1 (re_match TITLE_THEN_SECTION x))
            && truthy (grp 2 (re_match TITLE_THEN_SECTION x))) eqn:E2.
  { apply andb_true_iff in E2 as [_ E2].
    destruct (splitYear _) as [cleanTitle yr].
    apply parseSection_invariant.
    exact (truthy_grp_digit _ _ _ TITLE_THEN_SECTION_section E2). }
  destruct (truthy (grp 1 (re_match MACHINE_REF_THEN_TITLE x))
            && truthy (grp 2 (re_match MACHINE_REF_THEN_TITLE x))) eqn:E3.
  { apply andb_true_iff in E3 as [E3 _].
    destruct (splitYear _) as [cleanTitle yr].
    apply parseSection_invariant.
    exact (truthy_grp_digit _ _ _ MACHINE_REF_THEN_TITLE_section E3). }
  destruct (truthy (grp 1 (re_match LEGACY_ENGLISH x))
            && truthy (grp 2 (re_match LEGACY_ENGLISH x))) eqn:E4.
  { apply andb_true_iff in E4 as [E4 _].
    apply parseSection_invariant.
    exact (truthy_grp_digit _ _ _ LEGACY_ENGLISH_section E4). }
  destruct (re_test BARE_MACHINE_REF x) eqn:E5.
  { apply parseSection_invariant.
    now apply BARE_MACHINE_REF_digits. }
  destruct (re_match BARE_SECTION x) as [r|] eqn:E6.
  { apply parseSection_invariant.
    apply BARE_SECTION_section in E6. destruct E6 as (a & w & E6 & Hd).
    rewrite E6. exists a, w. auto. }
  cbn. repeat split; eauto.
Qed.

(** Every result is built by [parseSection] with the type statute, or
    is an invalid citation. *)
Lemma parseCitation_shape (citation : jstr) :
  (exists s t y, parseCitation citation = parseSection s t y statute)
  \/ (exists msg, parseCitation citation = invalid_citation msg).
Proof.
  unfold parseCitation. destruct (trim citation) as [|c t]; [right; eauto|].
  set (x := c :: t).
  destruct (truthy (grp 1 (re_match SECTION_THEN_TITLE x)) && _).
  { destruct (splitYear _). left; eauto. }
  destruct (truthy (grp 1 (re_match TITLE_THEN_SECTION x)) && _).
  { destruct (splitYear _). left; eauto. }
  destruct (truthy (grp 1 (re_match MACHINE_REF_THEN_TITLE x)) && _).
  { destruct (splitYear _). left; eauto. }
  destruct (truthy (grp 1 (re_match LEGACY_ENGLISH x)) && _).
  { left; eauto. }
  destruct (re_test BARE_MACHINE_REF x).
  { left; eauto. }
  destruct (re_match BARE_SECTION x).
  { left; eauto. }
  right; eauto.
Qed.

(** C10. [parseCitation] never returns the type statutory_instrument:
    a valid result has type statute and an invalid one has type unknown. *)
Theorem parseCitation_type :
  forall citation : jstr,
    let r := parseCitation citation in
    type r = (if valid r then statute else unknown)
    /\ is_statutory_instrument (type r) = false.
Proof.
  intro citation. cbv zeta.
  destruct (parseCitation_shape citation)
    as [(s & t & y & ->)|(msg & ->)]; split; reflexivity.
Qed.

(** C6 (the end-to-end example): the legacy English form of
    ["Section 3, Data Protection Act 2018"]. *)
Example parse_data_protection_act :
  parseCitation (js "Section 3, Data Protection Act 2018")
  = {| valid := true; type := statute;
       title := Some (js "Data Protection Act");
       year := Some (Num 2018);
       section := Some (js "3");
       subsection := None; paragraph := None; error := None |}.
Proof. vm_compute. reflexivity. Qed.

(** C7. The canonical form ["§ 3(1)(a), DSG"] parses to section 3,
    subsection 1, paragraph a and title DSG, and the full style renders
    these as the same string. *)
Theorem canonical_round_trip :
  let x := js "§ 3(1)(a), DSG" in
  parseCitation x
  = {| valid := true; type := statute; title := Some (js "DSG");
       year := None; section := Some (js "3"); subsection := Some (js "1");
       paragraph := Some (js "a"); error := None |}
  /\ buildPinpoint (parseCitation x) = js "3(1)(a)"
  /\ formatCitation (parseCitation x) full = x.
Proof.
  cbv zeta. assert (Hp : parseCitation (js "§ 3(1)(a), DSG")
                         = parseSection (js "3(1)(a)") (Some (js "DSG")) None
                                        statute)
    by (vm_compute; reflexivity).
  rewrite Hp. repeat split; vm_compute; reflexivity.
Qed.

(** Input that is empty after trimming is the empty citation. *)
Lemma parseCitation_blank (s : jstr) :
  Forall (fun c => is_space c = true) s ->
  parseCitation s = invalid_citation (js "Empty citation").
Proof.
  intro H. unfold parseCitation. now rewrite (trim_all_space _ H).
Qed.

(** C8. Empty or whitespace-only input parses to an invalid citation whose
    error contains "Empty", and [formatCitation] returns the empty string,
    in every style, for that result and for every citation that is invalid
    or has no section. *)
Theorem format_failed_parse :
  forall (s : jstr) (c : ParsedCitation) (style : CitationFormat),
    Forall (fun ch => is_space ch = true) s ->
    valid c = false \/ truthy (section c) = false ->
    (valid (parseCitation s) = false
     /\ exists e, error (parseCitation s) = Some e
                  /\ includes e (js "Empty") = true)
    /\ formatCitation (parseCitation s) style = []
    /\ formatCitation c style = [].
Proof.
  intros s c style Hs Hc. rewrite (parseCitation_blank _ Hs).
  split; [|split].
  - split; [reflexivity|]. eexists. split; [reflexivity|].
    vm_compute. reflexivity.
  - reflexivity.
  - unfold formatCitation. destruct Hc as [-> | ->].
    + reflexivity.
    + now rewrite orb_true_r.
Qed.

(** C8 at the input of two spaces and at an unparseable citation, in the
    short style. *)
Lemma format_failed_parse_witness :
  (valid (parseCitation (js "  ")) = false
   /\ exists e, error (parseCitation (js "  ")) = Some e
                /\ includes e (js "Empty") = true)
  /\ formatCitation (parseCitation (js "  ")) short = []
  /\ formatCitation (parseCitation (js "no citation")) short = [].
Proof.
  apply (format_failed_parse (js "  ") (parseCitation (js "no citation"))
                             short).
  - repeat constructor.
  - left. vm_compute. reflexivity.
Defined.

(** C9. The empty reference yields an empty canonical section and no
    candidates; ["§ 4a"] yields the canonical section ["4a"], with ["4a"]
    among the sections and ["para4a"] among the provision references. *)
Theorem candidates_examples :
  forall case_variants : jstr -> list jstr,
    buildProvisionLookupCandidates case_variants (js "")
    = {| canonicalSection := []; provisionRefs := []; sections := [] |}
    /\ canonicalSection
         (buildProvisionLookupCandidates case_variants (js "§ 4a")) = js "4a"
    /\ In (js "4a")
          (sections (buildProvisionLookupCandidates case_variants (js "§ 4a")))
    /\ In (js "para4a")
          (provisionRefs
             (buildProvisionLookupCandidates case_variants (js "§ 4a"))).
Proof.
  intro cv.
  assert (H0 : trim (re_replace LEADING_MARKER [] (trim (js ""))) = [])
    by (vm_compute; reflexivity).
  assert (H1 : trim (re_replace LEADING_MARKER [] (trim (js "§ 4a")))
               = js "4a") by (vm_compute; reflexivity).
  unfold buildProvisionLookupCandidates. rewrite H0, H1.
  change (js "4a") with [52; 97]%N.
  cbn [canonicalSection sections provisionRefs].
  repeat split.
  - right. left. reflexivity.
  - left. vm_compute. reflexivity.
Qed.

(* ================================================================= *)
(** ** The citation validator *)

(** C5. In every result of [validateCitation] the provision exists only
    when the document exists, and each early exit (unparseable citation,
    no title or ID, unresolved document) returns both flags false. *)
Theorem validateCitation_flags :
  forall (Database : Type)
         (resolveExistingStatuteId : Database -> jstr -> option jstr)
         (select_document : Database -> jstr -> option Document)
         (select_provision : Database -> jstr -> list jstr -> list jstr -> bool)
         (case_variants : jstr -> list jstr)
         (db : Database) (citation : jstr),
    let parsed := parseCitation citation in
    let r := validateCitation resolveExistingStatuteId select_document
                              select_provision case_variants db citation in
    (provision_exists r = true -> document_exists r = true)
    /\ (valid parsed = false ->
        document_exists r = false /\ provision_exists r = false
        /\ warnings r = [nullish (error parsed) (js "Invalid citation format")])
    /\ (truthy (lookup_term parsed citation) = false ->
        document_exists r = false /\ provision_exists r = false)
    /\ (find_document resolveExistingStatuteId select_document db
                      (the (lookup_term parsed citation)) = None ->
        document_exists r = false /\ provision_exists r = false).
Proof.
  intros Database resolve seldoc selprov cv db citation. cbv zeta.
  unfold validateCitation.
  destruct (valid (parseCitation citation)) eqn:Ev; cbn [negb].
  2: { cbn. repeat split; auto; discriminate. }
  destruct (truthy (lookup_term (parseCitation citation) citation)) eqn:El;
    cbn [negb].
  2: { cbn. repeat split; auto; discriminate. }
  destruct (find_document resolve seldoc db
              (the (lookup_term (parseCitation citation) citation)))
    as [doc|] eqn:Ed.
  2: { cbn. repeat split; auto; discriminate. }
  cbn [document_exists provision_exists].
  repeat split; auto; discriminate.
Qed.

(** C5 on a store that resolves every term and holds section 5 of the
    resolved document. *)
Lemma validateCitation_flags_witness :
  let resolve := fun (_ : unit) (_ : jstr) => Some (js "gesetz-10001597") in
  let seldoc := fun (_ : unit) (id : jstr) =>
                  Some {| doc_id := id; doc_title := js "Datenschutzgesetz";
                          doc_status := js "in_force" |} in
  let selprov := fun (_ : unit) (_ : jstr) (refs secs : list jstr) =>
                   existsb (jstr_eqb (js "5")) secs in
  provision_exists
    (validateCitation resolve seldoc selprov (fun _ => []) tt (js "§ 5 DSG"))
  = true
  /\ document_exists
       (validateCitation resolve seldoc selprov (fun _ => []) tt
                         (js "§ 5 DSG")) = true.
Proof.
  cbv zeta. split; [vm_compute; reflexivity|].
  apply (validateCitation_flags unit
           (fun _ _ => Some (js "gesetz-10001597"))
           (fun _ id => Some {| doc_id := id;
                                doc_title := js "Datenschutzgesetz";
                                doc_status := js "in_force" |})
           (fun _ _ _ secs => existsb (jstr_eqb (js "5")) secs)
           (fun _ => []) tt (js "§ 5 DSG")).
  vm_compute. reflexivity.
Defined.

(* ================================================================= *)
(** ** The FTS5 query builder *)

Section FtsProofs.

Variable uni_L uni_N : N -> bool.
Hypothesis conform : ascii_conform uni_L uni_N.

Lemma kept_not_quote (c : N) : kept uni_L uni_N c = true -> c <> dquote.
Proof.
  intros Hk ->. unfold kept, dquote in Hk.
  destruct (conform 34%N) as [HL HN]; [reflexivity|].
  rewrite HL, HN in Hk. discriminate Hk.
Qed.

Lemma surrogate_not_quote (c : cu) :
  is_high_surrogate c = true \/ is_low_surrogate c = true -> c <> dquote.
Proof.
  unfold is_high_surrogate, is_low_surrogate, dquote.
  intros [H|H] ->; discriminate H.
Qed.

Lemma sanitizeToken_no_quote (t : jstr) :
  Forall (fun c => c <> dquote) (sanitizeToken uni_L uni_N t)
  /\ forall c, Forall (fun c => c <> dquote)
                      (sanitizeToken uni_L uni_N (c :: t)).
Proof.
  induction t as [|d t [IH1 IH2]].
  - split; [constructor|]. intro c. cbn.
    destruct (is_high_surrogate c); destruct (kept uni_L uni_N c) eqn:Ek;
      repeat constructor; now apply kept_not_quote.
  - split; [apply IH2|]. intro c. cbn [sanitizeToken].
    destruct (is_high_surrogate c) eqn:Eh.
    + destruct (is_low_surrogate d) eqn:El.
      * destruct (kept uni_L uni_N _); [|exact IH1].
        constructor; [apply surrogate_not_quote; auto|].
        constructor; [apply surrogate_not_quote; auto|exact IH1].
      * destruct (kept uni_L uni_N c) eqn:Ek; [|apply IH2].
        constructor; [now apply kept_not_quote|apply IH2].
    + destruct (kept uni_L uni_N c) eqn:Ek; [|apply IH2].
      constructor; [now apply kept_not_quote|apply IH2].
Qed.



End FtsProofs.


Lemma ascii_tables_conform : ascii_conform ascii_L ascii_N.
Proof. intros cp _. split; reflexivity. Qed.




(* ================================================================= *)
(** ** The content cleaner: keyword lines *)




(* ================================================================= *)
(** ** Lines, joins and trims *)

Lemma split_go_nonempty sep : forall s cur, split_go sep cur s <> [].
Proof.
  induction s as [|c s IH]; intro cur; cbn; [discriminate|].
  destruct (c =? sep)%N; [discriminate|apply IH].
Qed.

Lemma join_cons2 sep (x y : jstr) (l : list jstr) :
  join sep (x :: y :: l) = x ++ sep ++ join sep (y :: l).
Proof. reflexivity. Qed.

(** Joining the pieces of a split gives the text back. *)
Lemma join_split_go sep :
  forall s cur, join [sep] (split_go sep cur s) = rev cur ++ s.
Proof.
  induction s as [|c s IH]; intro cur; cbn [split_go].
  - cbn. now rewrite app_nil_r.
  - destruct (c =? sep)%N eqn:E.
    + apply N.eqb_eq in E. subst c.
      pose proof (split_go_nonempty sep s []) as Hne.
      destruct (split_go sep [] s) as [|y l] eqn:Es; [congruence|].
      rewrite join_cons2, <- Es, IH. reflexivity.
    + rewrite IH. cbn [rev]. now rewrite <- app_assoc.
Qed.

Lemma join_split sep s : join [sep] (split sep s) = s.
Proof. unfold split. now rewrite join_split_go. Qed.

Lemma split_go_app_no_sep sep :
  forall l cur s,
    ~ In sep l -> split_go sep cur (l ++ s) = split_go sep (rev l ++ cur) s.
Proof.
  induction l as [|c l IH]; intros cur s Hn; [reflexivity|].
  cbn [app split_go]. destruct (c =? sep)%N eqn:E.
  - apply N.eqb_eq in E. subst c. exfalso. apply Hn. now left.
  - rewrite IH by (intro Hin; apply Hn; now right).
    cbn [rev]. now rewrite <- app_assoc.
Qed.

(** A join of lines without separator splits into these lines. *)
Lemma split_go_join sep :
  forall lines l cur,
    Forall (fun x => ~ In sep x) (l :: lines) ->
    split_go sep cur (join [sep] (l :: lines)) = (rev cur ++ l) :: lines.
Proof.
  induction lines as [|y lines IH]; intros l cur Hf.
  - cbn [join]. rewrite <- (app_nil_r l) at 1.
    inversion Hf; subst.
    rewrite split_go_app_no_sep by assumption. cbn [split_go].
    now rewrite rev_app_distr, rev_involutive.
  - rewrite join_cons2. inversion Hf; subst.
    rewrite split_go_app_no_sep by assumption.
    cbn [app split_go]. rewrite N.eqb_refl.
    rewrite rev_app_distr, rev_involutive. f_equal.
    rewrite IH by assumption. reflexivity.
Qed.

Lemma split_join sep (lines : list jstr) :
  lines <> [] -> Forall (fun x => ~ In sep x) lines ->
  split sep (join [sep] lines) = lines.
Proof.
  intros Hne Hf. destruct lines as [|l lines]; [congruence|].
  unfold split. now rewrite split_go_join.
Qed.

Lemma split_go_no_sep sep :
  forall s cur,
    ~ In sep cur -> Forall (fun x => ~ In sep x) (split_go sep cur s).
Proof.
  induction s as [|c s IH]; intros cur Hc; cbn [split_go].
  - constructor; [|constructor]. intro H. apply in_rev in H. auto.
  - destruct (c =? sep)%N eqn:E.
    + constructor.
      * intro H. apply in_rev in H. auto.
      * apply IH. intros [].
    + apply IH. intros [H|H]; [|auto].
      subst c. rewrite N.eqb_refl in E. discriminate.
Qed.

Lemma split_no_sep sep s : Forall (fun x => ~ In sep x) (split sep s).
Proof. apply split_go_no_sep. intros []. Qed.

Lemma split_go_app_sep sep :
  forall a cur b,
    split_go sep cur (a ++ sep :: b) = split_go sep cur a ++ split sep b.
Proof.
  induction a as [|c a IH]; intros cur b; cbn [app split_go].
  - now rewrite N.eqb_refl.
  - destruct (c =? sep)%N; [|apply IH].
    cbn [app]. f_equal. apply IH.
Qed.

(** Two separators in a row enclose an empty piece. *)
Lemma split_double_sep sep (a b : jstr) :
  In [] (split sep (a ++ sep :: sep :: b)).
Proof.
  unfold split at 1. rewrite split_go_app_sep. apply in_or_app. right.
  unfold split. cbn [split_go]. rewrite N.eqb_refl. now left.
Qed.

Lemma blank_app (a b : jstr) : blank (a ++ b) = blank a && blank b.
Proof. apply forallb_app. Qed.

Lemma blank_rev (a : jstr) : blank (rev a) = blank a.
Proof.
  induction a as [|c a IH]; [reflexivity|].
  cbn [rev]. rewrite blank_app, IH. cbn. now rewrite andb_true_r, andb_comm.
Qed.

Lemma drop_while_blank (l : jstr) :
  blank l = true -> drop_while is_space l = [].
Proof.
  induction l as [|c l IH]; [reflexivity|]. cbn. intro H.
  apply andb_true_iff in H as [Hc Hl]. rewrite Hc. auto.
Qed.

Lemma drop_while_app_keep (l r : jstr) :
  blank l = false -> drop_while is_space (l ++ r) = drop_while is_space l ++ r.
Proof.
  induction l as [|c l IH]; [discriminate|]. cbn. intro H.
  destruct (is_space c); [apply IH; exact H|reflexivity].
Qed.

Lemma blank_drop_while (l : jstr) : blank (drop_while is_space l) = blank l.
Proof.
  induction l as [|c l IH]; [reflexivity|]. cbn.
  destruct (is_space c) eqn:E; [exact IH|]. cbn. now rewrite E.
Qed.

Lemma trimStart_app (l r : jstr) :
  blank l = false -> trimStart (l ++ r) = trimStart l ++ r.
Proof. apply drop_while_app_keep. Qed.

Lemma trimEnd_app (l r : jstr) :
  blank r = false -> trimEnd (l ++ r) = l ++ trimEnd r.
Proof.
  intro H. unfold trimEnd. rewrite rev_app_distr.
  rewrite drop_while_app_keep by now rewrite blank_rev.
  now rewrite rev_app_distr, rev_involutive.
Qed.

Lemma trimEnd_blank (l : jstr) : blank l = true -> trimEnd l = [].
Proof.
  intro H. unfold trimEnd. rewrite drop_while_blank; [reflexivity|].
  now rewrite blank_rev.
Qed.

Lemma trimEnd_cons (c : cu) (l : jstr) :
  blank l = false -> trimEnd (c :: l) = c :: trimEnd l.
Proof. intro H. now apply (trimEnd_app [c] l). Qed.

Lemma blank_trimStart (l : jstr) : blank (trimStart l) = blank l.
Proof. apply blank_drop_while. Qed.

Lemma blank_trimEnd (l : jstr) : blank (trimEnd l) = blank l.
Proof.
  unfold trimEnd. now rewrite blank_rev, blank_drop_while, blank_rev.
Qed.

Lemma trimStart_idem (l : jstr) : trimStart (trimStart l) = trimStart l.
Proof.
  unfold trimStart. induction l as [|c l IH]; [reflexivity|]. cbn.
  destruct (is_space c) eqn:E; [exact IH|]. cbn. now rewrite E.
Qed.

Lemma trimEnd_idem (l : jstr) : trimEnd (trimEnd l) = trimEnd l.
Proof.
  unfold trimEnd. rewrite rev_involutive.
  f_equal. apply trimStart_idem.
Qed.

Lemma trim_comm (l : jstr) : trimStart (trimEnd l) = trimEnd (trimStart l).
Proof.
  induction l as [|c l IH]; [reflexivity|].
  destruct (blank l) eqn:Eb.
  - destruct (is_space c) eqn:Ec.
    + rewrite (trimEnd_blank (c :: l))
        by (change (is_space c && blank l = true); now rewrite Ec, Eb).
      unfold trimStart at 2. cbn [drop_while]. rewrite Ec.
      fold (trimStart l). unfold trimStart at 2.
      rewrite (drop_while_blank l Eb). reflexivity.
    + replace (c :: l) with ([c] ++ l) by reflexivity.
      assert (Hc : trimEnd ([c] ++ l) = [c]).
      { unfold trimEnd. rewrite rev_app_distr.
        rewrite <- (app_nil_r (rev l ++ rev [c])).
        assert (H : drop_while is_space ((rev l ++ rev [c]) ++ [])
                    = [c]).
        { rewrite app_nil_r. clear IH.
          assert (Hr : blank (rev l) = true) by now rewrite blank_rev.
          revert Hr. generalize (rev l). intros x Hx.
          induction x as [|d x IHx]; cbn; [now rewrite Ec|].
          change (is_space d && blank x = true) in Hx.
          apply andb_true_iff in Hx as [Hd Hx].
          rewrite Hd. auto. }
        rewrite H. reflexivity. }
      rewrite Hc. unfold trimStart. cbn [app drop_while]. rewrite Ec.
      exact (eq_sym Hc).
  - rewrite trimEnd_cons by assumption.
    unfold trimStart. cbn [drop_while]. destruct (is_space c) eqn:Ec.
    + exact IH.
    + now rewrite trimEnd_cons.
Qed.

Lemma trim_trimStart (l : jstr) : trim (trimStart l) = trim l.
Proof. unfold trim. now rewrite trimStart_idem. Qed.

Lemma trim_trimEnd (l : jstr) : trim (trimEnd l) = trim l.
Proof. unfold trim. now rewrite trim_comm, trimEnd_idem. Qed.

Lemma trim_idem (l : jstr) : trim (trim l) = trim l.
Proof. unfold trim at 2. now rewrite trim_trimEnd, trim_trimStart. Qed.

Lemma blank_trim (l : jstr) : blank (trim l) = blank l.
Proof. unfold trim. now rewrite blank_trimEnd, blank_trimStart. Qed.

Lemma trim_nil_blank (l : jstr) : trim l = [] -> blank l = true.
Proof. intro H. rewrite <- blank_trim, H. reflexivity. Qed.

Lemma blank_join (l : jstr) (ls : list jstr) :
  blank l = false -> blank (join [newline] (l :: ls)) = false.
Proof.
  intro H. destruct ls as [|y ls]; [exact H|].
  rewrite join_cons2, blank_app, H. reflexivity.
Qed.

Lemma trimStart_join (l : jstr) (ls : list jstr) :
  blank l = false ->
  trimStart (join [newline] (l :: ls)) = join [newline] (trimStart l :: ls).
Proof.
  intro H. destruct ls as [|y ls]; [reflexivity|].
  rewrite !join_cons2. now apply trimStart_app.
Qed.

Lemma map_last_nonempty f (l : list jstr) : l <> [] -> map_last f l <> [].
Proof. destruct l as [|x [|y l]]; cbn; congruence. Qed.

Lemma trimEnd_join (lines : list jstr) :
  lines <> [] -> Forall (fun l => blank l = false) lines ->
  trimEnd (join [newline] lines) = join [newline] (map_last trimEnd lines).
Proof.
  induction lines as [|l lines IH]; [congruence|]. intros _ Hf.
  destruct lines as [|y lines]; [reflexivity|].
  inversion Hf as [|? ? Hl Hf']; subst.
  assert (Hy : blank (join [newline] (y :: lines)) = false).
  { inversion Hf'; subst. now apply blank_join. }
  change (map_last trimEnd (l :: y :: lines))
    with (l :: map_last trimEnd (y :: lines)).
  assert (Hne : y :: lines <> []) by discriminate.
  pose proof (map_last_nonempty trimEnd (y :: lines) Hne) as Hm.
  rewrite join_cons2. rewrite trimEnd_app.
  - cbn [app]. rewrite trimEnd_cons by exact Hy.
    rewrite (IH Hne Hf').
    destruct (map_last trimEnd (y :: lines)) as [|j l0]; [congruence|].
    reflexivity.
  - cbn [app]. change (blank (newline :: join [newline] (y :: lines)))
      with (is_space newline && blank (join [newline] (y :: lines))).
    now rewrite Hy, andb_false_r.
Qed.

Lemma map_last_Forall (P : jstr -> Prop) (f : jstr -> jstr) (l : list jstr) :
  (forall x, P x -> P (f x)) -> Forall P l -> Forall P (map_last f l).
Proof.
  intros Hf. induction l as [|x l IH]; intro H; [constructor|].
  inversion H; subst. destruct l as [|y l]; cbn [map_last].
  - constructor; auto.
  - constructor; auto.
Qed.

Lemma map_trim_map_last (l : list jstr) :
  map trim (map_last trimEnd l) = map trim l.
Proof.
  induction l as [|x l IH]; [reflexivity|].
  destruct l as [|y l]; cbn [map_last map].
  - now rewrite trim_trimEnd.
  - f_equal. exact IH.
Qed.

Lemma drop_while_In (f : cu -> bool) (l : jstr) (c : cu) :
  In c (drop_while f l) -> In c l.
Proof.
  induction l as [|x l IH]; [auto|]. cbn. destruct (f x); [|auto].
  intro H. right. auto.
Qed.

Lemma trimStart_In (l : jstr) (c : cu) : In c (trimStart l) -> In c l.
Proof. apply drop_while_In. Qed.

Lemma trimEnd_In (l : jstr) (c : cu) : In c (trimEnd l) -> In c l.
Proof.
  unfold trimEnd. intro H. apply in_rev in H. apply drop_while_In in H.
  now apply in_rev in H.
Qed.

Lemma trim_blank (l : jstr) : blank l = true -> trim l = [].
Proof.
  intro H. unfold trim, trimStart. now rewrite drop_while_blank.
Qed.

(** Pass 1 reads a line through its trimmed text only. *)
Lemma is_content_line_trim (l1 l2 : jstr) :
  trim l1 = trim l2 -> is_content_line l1 = is_content_line l2.
Proof. intro H. unfold is_content_line. now rewrite H. Qed.

Lemma is_content_line_not_blank (l : jstr) :
  is_content_line l = true -> blank l = false.
Proof.
  intro H. destruct (blank l) eqn:E; [|reflexivity].
  unfold is_content_line in H. rewrite (trim_blank l E) in H. discriminate.
Qed.

Lemma pop_keyword_lines_In (l : list jstr) (x : jstr) :
  In x (pop_keyword_lines l) -> In x l.
Proof.
  induction l as [|y l IH]; [auto|]. cbn [pop_keyword_lines].
  destruct (isKeywordLine (trim y)); [|auto]. intro H. right. auto.
Qed.

Lemma pop_keyword_lines_idem (l : list jstr) :
  pop_keyword_lines (pop_keyword_lines l) = pop_keyword_lines l.
Proof.
  induction l as [|y l IH]; [reflexivity|]. cbn [pop_keyword_lines].
  destruct (isKeywordLine (trim y)) eqn:E; [exact IH|].
  cbn [pop_keyword_lines]. now rewrite E.
Qed.

(** Pass 2 reads a line through its trimmed text only. *)
Lemma pop_keyword_lines_fixed (l l' : list jstr) :
  map trim l = map trim l' ->
  pop_keyword_lines l = l -> pop_keyword_lines l' = l'.
Proof.
  intros Hm Hp. destruct l as [|x l], l' as [|x' l']; try discriminate;
    [reflexivity|].
  cbn [map] in Hm. injection Hm as Hx _.
  cbn [pop_keyword_lines] in *. rewrite <- Hx.
  destruct (isKeywordLine (trim x)); [|reflexivity].
  exfalso.
  assert (Hlen : length (pop_keyword_lines l) <= length l).
  { clear. induction l as [|y l IH]; [auto|]. cbn [pop_keyword_lines].
    destruct (isKeywordLine (trim y)); cbn; lia. }
  rewrite Hp in Hlen. cbn in Hlen. lia.
Qed.

Lemma filter_all (f : jstr -> bool) (l : list jstr) :
  Forall (fun x => f x = true) l -> filter f l = l.
Proof.
  induction 1 as [|x l Hx _ IH]; [reflexivity|]. cbn. now rewrite Hx, IH.
Qed.

(** The lines left by passes 1 and 2: content lines without newline, the
    last of which is no keyword line. *)
Lemma content_lines_facts (content : jstr) :
  Forall (fun l => is_content_line l = true) (content_lines content)
  /\ Forall (fun l => ~ In newline l) (content_lines content)
  /\ pop_keyword_lines (rev (content_lines content))
     = rev (content_lines content).
Proof.
  unfold content_lines.
  set (kept := filter is_content_line (split newline content)).
  split; [|split].
  - apply Forall_forall. intros x Hx. apply in_rev in Hx.
    apply pop_keyword_lines_In in Hx. apply in_rev in Hx.
    apply filter_In in Hx. tauto.
  - apply Forall_forall. intros x Hx. apply in_rev in Hx.
    apply pop_keyword_lines_In in Hx. apply in_rev in Hx.
    apply filter_In in Hx. destruct Hx as [Hx _].
    pose proof (split_no_sep newline content) as Hs.
    rewrite Forall_forall in Hs. auto.
  - rewrite rev_involutive. apply pop_keyword_lines_idem.
Qed.

(* ================================================================= *)
(** ** The content cleaner: cleaning twice *)

Lemma chr_eq_plain (c a : cu) : chr_eq false c a = true -> a = c.
Proof. unfold chr_eq. intro H. apply N.eqb_eq in H. auto. Qed.

(** A blank run holds three newlines in a row, so it encloses an empty
    line. *)
Lemma BLANK_RUN_empty_line (s : jstr) (i : nat) (p : option cu) (res : mres) :
  search_from false (re_body BLANK_RUN) i p s = Some res ->
  In [] (split newline s).
Proof.
  intro H. apply search_from_sound in H.
  destruct H as (pre & s0 & p0 & p' & -> & _ & _ & _ & _ & Hsem).
  cbn [BLANK_RUN plain re_body seqs fold_right at_least] in Hsem.
  apply sem_seq_inv in Hsem. destruct Hsem as (p1 & s1 & cs1 & Hr & _).
  apply sem_rep_pos_inv in Hr. destruct Hr as (p2 & s2 & cs2 & Hc1 & Hr).
  apply sem_chr_inv in Hc1. destruct Hc1 as (a1 & -> & E1 & _ & _).
  apply sem_rep_pos_inv in Hr. destruct Hr as (p3 & s3 & cs3 & Hc2 & Hr).
  apply sem_chr_inv in Hc2. destruct Hc2 as (a2 & -> & E2 & _ & _).
  apply chr_eq_plain in E1, E2. subst a1 a2.
  apply split_double_sep.
Qed.

Lemma replace_all_BLANK_RUN_id (s : jstr) :
  ~ In [] (split newline s) -> replace_all BLANK_RUN [newline; newline] s = s.
Proof.
  intro H. unfold replace_all. cbn [replace_all_go].
  destruct (search_from (re_ic BLANK_RUN) (re_body BLANK_RUN) 0 None s)
    as [res|] eqn:E; [|reflexivity].
  exfalso. apply H. exact (BLANK_RUN_empty_line _ _ _ _ E).
Qed.

Lemma re_replace_no_match (re : jsregex) (by_ s : jstr) :
  re_test re s = false -> re_replace re by_ s = s.
Proof.
  unfold re_test, re_replace. now destruct (re_match re s).
Qed.

(** A trimmed text without trailing section reference and without empty
    line is left as it is by the fix-up. *)
Lemma fix_up_id (c0 : jstr) :
  re_test TRAILING_SECTION_REF c0 = false ->
  ~ In [] (split newline c0) ->
  trim c0 = c0 ->
  fix_up c0 = c0.
Proof.
  intros Ht He Htrim. unfold fix_up.
  rewrite re_replace_no_match by exact Ht.
  now rewrite replace_all_BLANK_RUN_id.
Qed.

Lemma Forall_content_trim (l1 l2 : list jstr) :
  map trim l1 = map trim l2 ->
  Forall (fun l => is_content_line l = true) l2 ->
  Forall (fun l => is_content_line l = true) l1.
Proof.
  revert l2. induction l1 as [|x l1 IH]; intros l2 Hm Hf; [constructor|].
  destruct l2 as [|y l2]; [discriminate|].
  cbn [map] in Hm. injection Hm as Hx Hm. inversion Hf; subst.
  constructor; [|eauto].
  now rewrite (is_content_line_trim x y Hx).
Qed.

(** The joined and trimmed lines of a cleaned text split into content
    lines again, untouched by passes 1 and 2. *)
Lemma cleaned_lines_stable (lines : list jstr) :
  lines <> [] ->
  Forall (fun l => is_content_line l = true) lines ->
  Forall (fun l => ~ In newline l) lines ->
  pop_keyword_lines (rev lines) = rev lines ->
  let c0 := trim (join [newline] lines) in
  content_lines c0 = split newline c0
  /\ Forall (fun l => is_content_line l = true) (split newline c0).
Proof.
  intros Hne Hc Hn Hp. cbv zeta.
  destruct lines as [|l ls]; [congruence|].
  inversion Hc as [|? ? Hcl Hcls]; subst.
  inversion Hn as [|? ? Hnl Hnls]; subst.
  pose proof (is_content_line_not_blank l Hcl) as Hbl.
  set (lines1 := trimStart l :: ls).
  assert (Hb1 : Forall (fun x => blank x = false) lines1).
  { constructor; [now rewrite blank_trimStart|].
    apply Forall_forall. intros x Hx. apply is_content_line_not_blank.
    rewrite Forall_forall in Hcls. auto. }
  assert (Hn1 : Forall (fun x => ~ In newline x) lines1).
  { constructor; [|exact Hnls]. intro H. apply Hnl. now apply trimStart_In. }
  assert (Hne1 : lines1 <> []) by discriminate.
  set (lines2 := map_last trimEnd lines1).
  assert (Hc0 : trim (join [newline] (l :: ls)) = join [newline] lines2).
  { unfold trim. rewrite trimStart_join by exact Hbl.
    now apply trimEnd_join. }
  assert (Hn2 : Forall (fun x => ~ In newline x) lines2).
  { apply map_last_Forall; [|exact Hn1].
    intros x Hx H. apply Hx. now apply trimEnd_In. }
  assert (Hs : split newline (join [newline] lines2) = lines2).
  { apply split_join; [now apply map_last_nonempty|exact Hn2]. }
  assert (Hm : map trim lines2 = map trim (l :: ls)).
  { unfold lines2. rewrite map_trim_map_last. unfold lines1. cbn [map].
    now rewrite trim_trimStart. }
  assert (Hc2 : Forall (fun x => is_content_line x = true) lines2).
  { exact (Forall_content_trim _ _ Hm Hc). }
  rewrite Hc0. unfold content_lines. rewrite Hs.
  split; [|exact Hc2].
  rewrite (filter_all _ _ Hc2).
  rewrite (pop_keyword_lines_fixed (rev (l :: ls)) (rev lines2)).
  - apply rev_involutive.
  - now rewrite !map_rev, Hm.
  - exact Hp.
Qed.

(** C2 (as stated) fails. Of two trailing section references the fix-up
    strips the last one, and a second cleaning strips the other. And
    when the fix-up strips the one trailing section reference of a line
    that is a keyword line without it, a second cleaning removes that
    line. *)
Lemma clean_twice_counterexample :
  (cleanProvisionContent (js "foo § 1 § 2") = js "foo § 1"
   /\ cleanProvisionContent (cleanProvisionContent (js "foo § 1 § 2"))
      = js "foo"
   /\ jstr_eqb
        (cleanProvisionContent (cleanProvisionContent (js "foo § 1 § 2")))
        (cleanProvisionContent (js "foo § 1 § 2")) = false)
  /\ (let content := text ["Text ist da."; "Aaa, Bbb, Ccc § 1"]%string in
      cleanProvisionContent content = text ["Text ist da."; "Aaa, Bbb, Ccc"]%string
      /\ cleanProvisionContent (cleanProvisionContent content)
         = js "Text ist da."
      /\ jstr_eqb (cleanProvisionContent (cleanProvisionContent content))
                  (cleanProvisionContent content) = false).
Proof.
  cbv zeta. split; (split; [|split]); vm_compute; reflexivity.
Qed.

(* ================================================================= *)
(** ** Runs of one-character atoms *)

Lemma canon_space (a : cu) : is_space a = true -> canon a = a.
Proof.
  intro H. unfold canon.
  destruct (is_lower a) eqn:E1;
    [|destruct (in_range 224 254 a && negb (a =? 247)%N) eqn:E2];
    [exfalso| exfalso |reflexivity]; char_lia.
Qed.

Lemma canon_digit_id (a : cu) : is_digit a = true -> canon a = a.
Proof.
  intro H. unfold canon.
  destruct (is_lower a) eqn:E1;
    [|destruct (in_range 224 254 a && negb (a =? 247)%N) eqn:E2];
    [exfalso| exfalso |reflexivity]; char_lia.
Qed.

Lemma space_class (ic : bool) (a : cu) :
  is_space a = true -> class_mem ic false [CSpace] a = true.
Proof.
  intro H. unfold class_mem, items_mem. cbn [existsb item_mem xorb].
  destruct ic; [|now rewrite H].
  rewrite (canon_space a H), H. reflexivity.
Qed.

Lemma digit_class (ic : bool) (a : cu) :
  is_digit a = true -> class_mem ic false [CDigit] a = true.
Proof.
  intro H. unfold class_mem, items_mem. cbn [existsb item_mem xorb].
  destruct ic; [|now rewrite H].
  rewrite (canon_digit_id a H), H. reflexivity.
Qed.

Lemma canon_space_inv (a : cu) : is_space (canon a) = true -> is_space a = true.
Proof.
  unfold canon. destruct (is_lower a) eqn:E1;
    [|destruct (in_range 224 254 a && negb (a =? 247)%N) eqn:E2];
    intro H; [exfalso|exfalso|exact H]; char_lia.
Qed.

Lemma uncanon_space_inv (a : cu) :
  is_space (uncanon a) = true -> is_space a = true.
Proof.
  unfold uncanon. destruct (is_upper a) eqn:E1;
    [|destruct (in_range 192 222 a && negb (a =? 215)%N) eqn:E2];
    intro H; [exfalso|exfalso|exact H]; char_lia.
Qed.

Lemma space_class_inv (ic : bool) (a : cu) :
  class_mem ic false [CSpace] a = true -> is_space a = true.
Proof.
  unfold class_mem, items_mem. cbn [existsb item_mem xorb].
  destruct ic; rewrite ?orb_false_r; intro H; [|exact H].
  apply orb_true_iff in H. destruct H as [H|H].
  - now apply canon_space_inv.
  - now apply canon_space_inv, uncanon_space_inv.
Qed.

Lemma clear_caps_nil (cs : caps) : clear_caps [] cs = cs.
Proof.
  induction cs as [|[j w] cs IH]; [reflexivity|]. cbn. now rewrite IH.
Qed.

Section AtomRuns.

Variable ic : bool.
Variable r : regex.
Variable f : cu -> bool.

(** [r] reads exactly one character, one that passes [f], and binds no
    group. *)
Hypothesis r_groups : groups r = [].
Hypothesis r_sem :
  forall p s cs p' s' cs',
    sem ic r p s cs p' s' cs' ->
    exists a, s = a :: s' /\ f a = true /\ cs' = cs.

(** What a repetition of [r] reads is a run of such characters, of a
    length within the bounds. *)
Lemma sem_rep_atom g mn mx p s cs p' s' cs' :
  sem ic (Rep g mn mx r) p s cs p' s' cs' ->
  exists w, s = w ++ s'
            /\ Forall (fun a => f a = true) w
            /\ (mx = None -> mn <= length w)
            /\ (forall n, mx = Some n ->
                          length w <= n /\ (mn <= n -> mn <= length w))
            /\ cs' = cs.
Proof.
  intro H. remember (Rep g mn mx r) as rr eqn:Er.
  revert mn mx Er.
  induction H; intros mn' mx' Er; try discriminate;
    injection Er as -> -> -> ->.
  - exists []. split; [reflexivity|]. split; [constructor|].
    split; [|split; [|reflexivity]].
    + intros ->. destruct H as [->|H]; [cbn; lia|discriminate].
    + intros n ->. cbn [length]. split; [lia|].
      intros Hn. destruct H as [->|H]; [lia|]. injection H as <-. lia.
  - apply r_sem in H0. destruct H0 as (a & -> & Ha & ->).
    destruct (IHsem2 _ _ eq_refl) as (w & -> & Hw & Hnone & Hsome & ->).
    exists (a :: w). rewrite r_groups, clear_caps_nil.
    split; [reflexivity|]. split; [now constructor|].
    split; [|split; [|reflexivity]].
    + intros ->. specialize (Hnone eq_refl). cbn. lia.
    + intros n ->. destruct n as [|n]; [congruence|].
      destruct (Hsome n eq_refl). cbn. lia.
Qed.

Variable A : Type.
Variable body : matcher A.

(** The matcher of [r], step by step. *)
Hypothesis body_step :
  forall p s cs (k : cont A),
    body p s cs k = match s with
                    | a :: s' => if f a then k (Some a) s' cs else None
                    | [] => None
                    end.

Lemma body_stops p rest cs (k : cont A) :
  stops f rest -> body p rest cs k = None.
Proof.
  intro H. rewrite body_step. destruct rest as [|b rest]; [reflexivity|].
  cbn in H. now rewrite H.
Qed.

(** A greedy repetition reads the whole run when the continuation accepts
    the position after it. *)
Lemma rep_greedy_run (run rest : jstr) (k : cont A) (res : A) :
  Forall (fun a => f a = true) run ->
  stops f rest ->
  forall fuel mn p cs,
    mn <= length run -> length run < fuel ->
    k (prev_after p run) rest cs = Some res ->
    rep body [] true fuel mn None p (run ++ rest) cs k = Some res.
Proof.
  intros Hrun Hstop. induction Hrun as [|a run Ha Hrun IH];
    intros fuel mn p cs Hmn Hfuel Hk;
    (destruct fuel as [|fuel]; [cbn in Hfuel; lia|]); cbn [rep].
  - cbn in Hmn. assert (mn = 0) as -> by lia. cbn [Nat.eqb negb app].
    rewrite body_stops by exact Hstop. exact Hk.
  - rewrite clear_caps_nil, body_step. cbn [app]. rewrite Ha.
    assert (Hlen : Nat.eqb (length (run ++ rest))
                           (length (a :: run ++ rest)) = false).
    { apply Nat.eqb_neq. cbn. lia. }
    rewrite Hlen, andb_false_r.
    assert (Hgo : rep body [] true fuel (pred mn) (option_map pred None)
                      (Some a) (run ++ rest) cs k = Some res).
    { apply IH; cbn in *; try lia.
      destruct run; exact Hk. }
    rewrite Hgo. now destruct (Nat.eqb mn 0).
Qed.

(** A repetition with equal bounds reads exactly that many characters. *)
Lemma rep_exact_run (g : bool) (run rest : jstr) (k : cont A) :
  Forall (fun a => f a = true) run ->
  forall fuel p cs,
    length run < fuel ->
    rep body [] g fuel (length run) (Some (length run)) p (run ++ rest) cs k
    = k (prev_after p run) rest cs.
Proof.
  intros Hrun. induction Hrun as [|a run Ha Hrun IH];
    intros fuel p cs Hfuel;
    (destruct fuel as [|fuel]; [cbn in Hfuel; lia|]); cbn [rep length].
  - reflexivity.
  - rewrite clear_caps_nil, body_step. cbn [app Nat.eqb negb andb]. rewrite Ha.
    cbn [pred option_map]. rewrite IH by (cbn in Hfuel; lia).
    destruct run; reflexivity.
Qed.

(** A lazy repetition stops at the first position, from the minimum on,
    that the continuation accepts. *)
Lemma rep_lazy_run (rest : jstr) (k : cont A) (res : A) (cs : caps) :
  forall (q : jstr) fuel mn p,
    Forall (fun a => f a = true) q ->
    mn <= length q -> length q < fuel ->
    (forall q1 q2, q = q1 ++ q2 -> q2 <> [] -> mn <= length q1 ->
                   k (prev_after p q1) (q2 ++ rest) cs = None) ->
    k (prev_after p q) rest cs = Some res ->
    rep body [] false fuel mn None p (q ++ rest) cs k = Some res.
Proof.
  induction q as [|a q IH]; intros fuel mn p Hq Hmn Hfuel Hfail Hk;
    (destruct fuel as [|fuel]; [cbn in Hfuel; lia|]); cbn [rep].
  - cbn in Hmn. assert (mn = 0) as -> by lia. cbn [Nat.eqb negb app orelse].
    cbn [prev_after] in Hk. rewrite Hk. reflexivity.
  - inversion Hq as [|? ? Ha Hq']; subst.
    rewrite clear_caps_nil, body_step. cbn [app]. rewrite Ha.
    assert (Hlen : Nat.eqb (length (q ++ rest))
                           (length (a :: q ++ rest)) = false).
    { apply Nat.eqb_neq. cbn. lia. }
    rewrite Hlen, andb_false_r.
    assert (Hgo : rep body [] false fuel (pred mn) (option_map pred None)
                      (Some a) (q ++ rest) cs k = Some res).
    { apply IH; cbn in *; try lia; try assumption.
      - intros q1 q2 E Hne Hl.
        specialize (Hfail (a :: q1) q2). cbn in Hfail.
        rewrite E in Hfail. specialize (Hfail eq_refl Hne).
        destruct q1; apply Hfail; cbn in *; lia.
      - destruct q; exact Hk. }
    rewrite Hgo. destruct (Nat.eqb mn 0) eqn:Emn; cbn [negb]; [|reflexivity].
    apply Nat.eqb_eq in Emn. subst mn.
    assert (Hf : k p (a :: q ++ rest) cs = None).
    { apply (Hfail [] (a :: q) eq_refl); [discriminate|cbn; lia]. }
    rewrite Hf. reflexivity.
Qed.

End AtomRuns.

Lemma cls_sem ic neg items p s cs p' s' cs' :
  sem ic (Cls neg items) p s cs p' s' cs' ->
  exists a, s = a :: s' /\ class_mem ic neg items a = true /\ cs' = cs.
Proof.
  intro H. apply sem_cls_inv in H. destruct H as (a & -> & Ha & _ & ->).
  eauto.
Qed.

Lemma cls_step ic (A : Type) neg items p s cs (k : cont A) :
  m ic (Cls neg items) p s cs k
  = match s with
    | a :: s' => if class_mem ic neg items a then k (Some a) s' cs else None
    | [] => None
    end.
Proof. reflexivity. Qed.

Lemma dot_sem ic p s cs p' s' cs' :
  sem ic Dot p s cs p' s' cs' ->
  exists a, s = a :: s' /\ not_terminator a = true /\ cs' = cs.
Proof.
  intro H. apply sem_dot_inv in H. destruct H as (a & -> & Ha & _ & ->).
  exists a. unfold not_terminator. rewrite Ha. auto.
Qed.

Lemma dot_step ic (A : Type) p s cs (k : cont A) :
  m ic Dot p s cs k
  = match s with
    | a :: s' => if not_terminator a then k (Some a) s' cs else None
    | [] => None
    end.
Proof.
  destruct s as [|a s]; [reflexivity|]. cbn [m]. unfold not_terminator.
  now destruct (is_line_terminator a).
Qed.

Lemma Forall_last (P : cu -> Prop) (l : jstr) (d : cu) :
  Forall P l -> l <> [] -> P (last l d).
Proof.
  induction 1 as [|a l Ha Hl IH]; [congruence|]. intros _.
  destruct l as [|b l]; [exact Ha|]. apply IH. discriminate.
Qed.

Lemma app_eq_same_length (a b c d : jstr) :
  length b = length d -> a ++ b = c ++ d -> a = c /\ b = d.
Proof.
  revert c. induction a as [|x a IH]; intros c Hl E.
  - destruct c as [|y c]; [auto|].
    apply (f_equal (@length cu)) in E. cbn in E. rewrite length_app in E. lia.
  - destruct c as [|y c].
    + apply (f_equal (@length cu)) in E. cbn in E. rewrite length_app in E.
      lia.
    + cbn in E. injection E as -> E. destruct (IH c Hl E) as [-> ->]. auto.
Qed.

Lemma digit_stops_space ic (d rest : jstr) :
  year_token d -> stops (class_mem ic false [CSpace]) (d ++ rest).
Proof.
  intros [Hl Hd]. destruct d as [|a d]; [discriminate|].
  unfold stops. cbn [app]. inversion Hd; subst.
  destruct (class_mem ic false [CSpace] a) eqn:E; [|reflexivity].
  apply space_class_inv in E.
  rewrite (digit_not_space a) in E by assumption. discriminate.
Qed.

(* ================================================================= *)
(** ** The year token *)

Section YearPart.

Variable ic : bool.
Variable i : nat.
Variable R : regex.

Lemma sem_year_part p s cs p' s' cs' :
  sem ic (year_part i R) p s cs p' s' cs' ->
  exists sp dd s1 p1,
    s = sp ++ dd ++ s1
    /\ sp <> [] /\ Forall (fun c => is_space c = true) sp
    /\ year_token dd
    /\ sem ic R p1 s1 (set_cap i dd cs) p' s' cs'.
Proof.
  intro H. unfold year_part in H.
  apply sem_seq_inv in H. destruct H as (p1 & s1 & cs1 & Hsp & H).
  apply sem_seq_inv in H. destruct H as (p2 & s2 & cs2 & Hg & H).
  apply (sem_rep_atom ic space (class_mem ic false [CSpace]) eq_refl
                      (cls_sem ic false [CSpace])) in Hsp.
  destruct Hsp as (sp & -> & Hsp & Hmin & _ & ->).
  apply sem_grp_inv in Hg. destruct Hg as (cs3 & Hg & ->).
  apply (sem_rep_atom ic digit (class_mem ic false [CDigit]) eq_refl
                      (cls_sem ic false [CDigit])) in Hg.
  destruct Hg as (dd & -> & Hdd & _ & Hmax & ->).
  rewrite firstn_app_length in H.
  exists sp, dd, s2, p2. split; [reflexivity|].
  split. { specialize (Hmin eq_refl). intros ->. cbn in Hmin. lia. }
  split. { eapply Forall_impl; [|exact Hsp]. apply space_class_inv. }
  split; [|exact H]. split.
  - destruct (Hmax 4 eq_refl) as [H1 H2]. specialize (H2 (le_n 4)). lia.
  - eapply Forall_impl; [|exact Hdd]. apply digit_class_is_digit.
Qed.

Variable A : Type.

(** The matcher reads the whitespace and the four digits and goes on with
    [R], when [R] and the continuation accept what follows. *)
Lemma m_year_part (ws d rest : jstr) p cs (k : cont A) (res : A) :
  ws <> [] -> Forall (fun c => is_space c = true) ws -> year_token d ->
  m ic R (prev_after (prev_after p ws) d) rest (set_cap i d cs) k = Some res ->
  m ic (year_part i R) p (ws ++ d ++ rest) cs k = Some res.
Proof.
  intros Hne Hws Hd Hk. unfold year_part. cbn [m plus space groups].
  apply (rep_greedy_run (class_mem ic false [CSpace]) A
                        (m ic (Cls false [CSpace]))
                        (cls_step ic A false [CSpace])).
  - eapply Forall_impl; [|exact Hws]. intros a. apply space_class.
  - now apply digit_stops_space.
  - destruct ws; [congruence|cbn; lia].
  - rewrite length_app. lia.
  - cbn [m times digit groups].
    destruct Hd as [Hl Hd]. rewrite <- Hl.
    rewrite (rep_exact_run (class_mem ic false [CDigit]) A
                           (m ic (Cls false [CDigit]))
                           (cls_step ic A false [CDigit])).
    + rewrite firstn_app_length. exact Hk.
    + eapply Forall_impl; [|exact Hd]. intros a. apply digit_class.
    + rewrite length_app. lia.
Qed.

End YearPart.

Lemma search_from_eq ic r i p s :
  search_from ic r i p s
  = match exec_at ic r p s with
    | Some (s', cs) =>
      Some {| m_index := i; m_text := firstn (length s - length s') s;
              m_after := s'; m_caps := cs |}
    | None =>
      match s with
      | [] => None
      | a :: tl => search_from ic r (S i) (Some a) tl
      end
    end.
Proof. destruct s; reflexivity. Qed.

Lemma sem_end_inv ic p s cs p' s' cs' :
  sem ic (Seq Eol Eps) p s cs p' s' cs' -> s = [] /\ s' = [] /\ cs' = cs.
Proof.
  intro H. apply sem_seq_inv in H. destruct H as (p1 & s1 & cs1 & He & H).
  apply sem_eol_inv in He. destruct He as (-> & -> & -> & ->).
  apply sem_eps_inv in H. destruct H as (-> & -> & ->). auto.
Qed.

Section YearSuffix.

Variables ws d : jstr.
Hypothesis ws_nonempty : ws <> [].
Hypothesis ws_space : Forall (fun c => is_space c = true) ws.
Hypothesis d_year : year_token d.

Lemma year_suffix_exec_fail (q : jstr) (prev : option cu) :
  q <> [] -> is_space (last q 0%N) = false ->
  exec_at false (year_part 1 (Seq Eol Eps)) prev (q ++ ws ++ d) = None.
Proof.
  intros Hq Hlast.
  destruct (exec_at false (year_part 1 (Seq Eol Eps)) prev (q ++ ws ++ d))
    as [[s' cs']|] eqn:E; [|reflexivity].
  exfalso. unfold exec_at in E. apply m_sound in E.
  destruct E as (p1 & s1 & cs1 & Hs & _).
  apply sem_year_part in Hs.
  destruct Hs as (sp & dd & s2 & p2 & E & _ & Hsp & [Hl _] & Hend).
  apply sem_end_inv in Hend. destruct Hend as (-> & _ & _).
  rewrite app_nil_r, app_assoc in E.
  apply app_eq_same_length in E;
    [|destruct d_year as [Hd _]; now rewrite Hd, Hl].
  destruct E as [E _]. rewrite <- E in Hsp.
  apply Forall_app in Hsp. destruct Hsp as [Hsp _].
  apply (Forall_last _ q 0%N) in Hsp; [|exact Hq].
  cbv beta in Hsp. congruence.
Qed.

Lemma year_suffix_exec_ok (prev : option cu) :
  exec_at false (year_part 1 (Seq Eol Eps)) prev (ws ++ d)
  = Some ([], [(1, d)]).
Proof.
  unfold exec_at. rewrite <- (app_nil_r d) at 1.
  apply m_year_part; auto.
Qed.

Lemma year_suffix_search :
  forall (q : jstr) (i : nat) (prev : option cu),
    (q <> [] -> is_space (last q 0%N) = false) ->
    search_from false (year_part 1 (Seq Eol Eps)) i prev (q ++ ws ++ d)
    = Some {| m_index := i + length q; m_text := ws ++ d; m_after := [];
              m_caps := [(1, d)] |}.
Proof.
  induction q as [|a q IH]; intros i prev Hq; rewrite search_from_eq.
  - cbn [app]. rewrite year_suffix_exec_ok. cbn [length].
    rewrite Nat.sub_0_r, firstn_all, Nat.add_0_r. reflexivity.
  - rewrite year_suffix_exec_fail; [|discriminate|apply Hq; discriminate].
    cbn [app]. rewrite IH.
    + cbn [length]. now rewrite Nat.add_succ_r.
    + intro Hne. destruct q as [|b q]; [congruence|].
      apply Hq. discriminate.
Qed.

End YearSuffix.

Lemma parseInt10_year (d : jstr) : year_token d -> parseInt10 d = year_value d.
Proof.
  intros [Hl Hd]. destruct d as [|a d]; [discriminate|].
  inversion Hd as [|? ? Ha Hd']; subst.
  unfold parseInt10, trimStart. cbn [drop_while].
  rewrite (digit_not_space a Ha).
  assert (E1 : (a =? 45)%N = false) by char_lia.
  assert (E2 : (a =? 43)%N = false) by char_lia.
  rewrite E1, E2.
  assert (Ht : take_while is_digit (a :: d) = a :: d).
  { clear Hl. induction Hd as [|x l Hx _ IH]; [reflexivity|].
    cbn. now rewrite Hx, IH. }
  rewrite Ht. reflexivity.
Qed.

(** The title/year separation of [splitYear]: a title that ends in a bare
    4-digit token loses the token and the whitespace before it, and the
    token is the year. *)
Lemma splitYear_ends_in_year (t p ws d : jstr) :
  ends_in_year (trim t) p ws d ->
  splitYear t = (trim p, Some (year_value d)).
Proof.
  intros (Et & (p' & c & Ep & Hc) & Hne & Hws & Hd).
  unfold splitYear. rewrite Et.
  assert (Hm : re_match YEAR_SUFFIX (p ++ ws ++ d)
               = Some {| m_index := 0 + length p; m_text := ws ++ d;
                         m_after := []; m_caps := [(1, d)] |}).
  { unfold re_match. apply year_suffix_search; auto.
    intros _. rewrite Ep, last_last. exact Hc. }
  rewrite Hm. cbn [grp m_caps get_cap Nat.eqb m_text nullish].
  destruct Hd as [Hl Hd]. destruct d as [|d0 d']; [discriminate|].
  cbn [truthy negb]. f_equal.
  - f_equal. apply firstn_app_length.
  - f_equal. apply parseInt10_year. split; assumption.
Qed.

(* ================================================================= *)
(** ** The legacy English form *)

Lemma last_app_nonempty (q1 q2 : jstr) (d : cu) :
  q2 <> [] -> last (q1 ++ q2) d = last q2 d.
Proof.
  intro H. induction q1 as [|a q1 IH]; [reflexivity|].
  cbn [app]. destruct (q1 ++ q2) eqn:E.
  - apply app_eq_nil in E. destruct E. congruence.
  - rewrite <- IH. reflexivity.
Qed.

(** After the title, a match of the legacy form ends the input, with or
    without a year token. *)
Lemma sem_opt_year_end ic p s cs p' s' cs' :
  sem ic (Seq (opt (year_part 3 Eps)) (Seq Eol Eps)) p s cs p' s' cs' ->
  s = [] \/ exists sp dd,
              s = sp ++ dd /\ sp <> []
              /\ Forall (fun c => is_space c = true) sp /\ year_token dd.
Proof.
  intro H. apply sem_seq_inv in H. destruct H as (p1 & s1 & cs1 & Ho & He).
  apply sem_end_inv in He. destruct He as (-> & _ & _).
  apply sem_rep_inv in Ho.
  destruct Ho as [(_ & _ & <- & _)|(_ & p2 & s2 & cs2 & Hy & Hr)];
    [left; reflexivity|].
  apply sem_rep_inv in Hr.
  destruct Hr as [(_ & _ & <- & _)|(Hne & _)]; [|cbn in Hne; congruence].
  apply sem_year_part in Hy.
  destruct Hy as (sp & dd & s3 & p3 & -> & Hsp1 & Hsp2 & Hdd & Heps).
  apply sem_eps_inv in Heps. destruct Heps as (_ & <- & _).
  right. exists sp, dd. rewrite app_nil_r. auto.
Qed.

Section LegacyTail.

Variables p ws d : jstr.
Variable c : cu.
Variable p0 : jstr.
Hypothesis p_last : p = p0 ++ [c].
Hypothesis c_not_space : is_space c = false.
Hypothesis ws_nonempty : ws <> [].
Hypothesis ws_space : Forall (fun a => is_space a = true) ws.
Hypothesis d_year : year_token d.

Lemma p_nonempty : p <> [].
Proof. rewrite p_last. destruct p0; discriminate. Qed.

Lemma title_not_all_space (q : jstr) :
  q <> [] -> last q 0%N = c -> ~ Forall (fun a => is_space a = true) q.
Proof.
  intros Hq Hl Hf. apply (Forall_last _ q 0%N) in Hf; [|exact Hq].
  cbv beta in Hf. congruence.
Qed.

Lemma m_opt_year_end (pr : option cu) (cs : caps) :
  m true (Seq (opt (year_part 3 Eps)) (Seq Eol Eps)) pr (ws ++ d) cs accept
  = Some ([], (3, d) :: clear_caps [3] cs).
Proof.
  cbn [m opt]. change (groups (year_part 3 Eps)) with [3].
  assert (Hlen : exists n, length (ws ++ d) = S n).
  { destruct ws; [congruence|]. cbn. eauto. }
  destruct Hlen as [n Hn]. cbn [Nat.add]. rewrite Hn. cbn [rep Nat.eqb negb].
  rewrite <- (app_nil_r d) at 1.
  erewrite m_year_part; [reflexivity|auto..].
  cbn [m]. rewrite ?andb_true_l.
  assert (E : Nat.eqb (length (@nil cu)) (length (ws ++ d)) = false).
  { apply Nat.eqb_neq. rewrite Hn. cbn. lia. }
  rewrite E. cbn [pred option_map]. reflexivity.
Qed.

(** Before the end of the title text the rest of the pattern fails. *)
Lemma tail_rest_fails (q2 : jstr) (pr : option cu) (cs : caps) :
  q2 <> [] -> last q2 0%N = c ->
  m true (Seq (opt (year_part 3 Eps)) (Seq Eol Eps)) pr (q2 ++ ws ++ d) cs
    accept = None.
Proof.
  intros Hq Hl.
  destruct (m true _ pr (q2 ++ ws ++ d) cs accept) as [a|] eqn:E;
    [|reflexivity].
  exfalso. apply m_sound in E. destruct E as (p1 & s1 & cs1 & Hs & _).
  apply sem_opt_year_end in Hs.
  destruct Hs as [Hs|(sp & dd & Hs & _ & Hsp & [Hdl _])].
  - destruct q2; [congruence|discriminate].
  - rewrite app_assoc in Hs. apply app_eq_same_length in Hs;
      [|destruct d_year as [Hd _]; now rewrite Hd, Hdl].
    destruct Hs as [Hs _]. rewrite <- Hs in Hsp.
    apply Forall_app in Hsp. destruct Hsp as [Hsp _].
    exact (title_not_all_space q2 Hq Hl Hsp).
Qed.

(** On a single-line title text that ends in a year token the tail of the
    legacy form captures the text as title and the token as year. *)
Lemma legacy_tail_forward (pr : option cu) (cs : caps) :
  Forall (fun a => not_terminator a = true) p ->
  m true legacy_tail pr (p ++ ws ++ d) cs accept
  = Some ([], (3, d) :: (2, p) :: clear_caps [3] cs).
Proof.
  intro Hp. unfold legacy_tail.
  change (Seq (plus space) (Seq (Grp 3 (times 4 digit)) Eps))
    with (year_part 3 Eps).
  cbn [m lazy_plus groups].
  apply (rep_lazy_run not_terminator (jstr * caps) (m true Dot)
                      (dot_step true (jstr * caps))).
  - exact Hp.
  - pose proof p_nonempty. destruct p; [congruence|cbn; lia].
  - rewrite length_app. lia.
  - intros q1 q2 E Hq2 _.
    change (m true (Seq (opt (year_part 3 Eps)) (Seq Eol Eps))
              (prev_after pr q1) (q2 ++ ws ++ d)
              (set_cap 2 (firstn (length (p ++ ws ++ d)
                                  - length (q2 ++ ws ++ d)) (p ++ ws ++ d))
                       cs) accept = None).
    apply tail_rest_fails; [exact Hq2|].
    rewrite <- (last_app_nonempty q1 q2 0%N Hq2), <- E, p_last.
    apply last_last.
  - change (m true (Seq (opt (year_part 3 Eps)) (Seq Eol Eps))
              (prev_after pr p) (ws ++ d)
              (set_cap 2 (firstn (length (p ++ ws ++ d) - length (ws ++ d))
                                 (p ++ ws ++ d)) cs) accept
            = Some ([], (3, d) :: (2, p) :: clear_caps [3] cs)).
    rewrite firstn_app_length, m_opt_year_end. reflexivity.
Qed.

(** The title text has no line terminator when the tail matches at all. *)
Lemma legacy_tail_single_line pr cs p' s' cs' :
  sem true legacy_tail pr (p ++ ws ++ d) cs p' s' cs' ->
  Forall (fun a => not_terminator a = true) p.
Proof.
  intro H. unfold legacy_tail in H.
  change (Seq (plus space) (Seq (Grp 3 (times 4 digit)) Eps))
    with (year_part 3 Eps) in H.
  apply sem_seq_inv in H. destruct H as (p1 & s1 & cs1 & Hg & Hrest).
  apply sem_grp_inv in Hg. destruct Hg as (cs2 & Hg & _).
  apply (sem_rep_atom true Dot not_terminator eq_refl (dot_sem true)) in Hg.
  destruct Hg as (g & Eg & Hg & _).
  apply sem_opt_year_end in Hrest.
  destruct Hrest as [->|(sp & dd & -> & _ & Hsp & [Hdl _])].
  - rewrite app_nil_r in Eg. rewrite <- Eg in Hg.
    apply Forall_app in Hg. tauto.
  - rewrite !app_assoc in Eg. apply app_eq_same_length in Eg;
      [|destruct d_year as [Hd _]; now rewrite Hd, Hdl].
    destruct Eg as [Eg _]. apply app_eq_app in Eg.
    destruct Eg as [l [[E1 E2]|[E1 E2]]].
    + subst sp. destruct l as [|a l].
      * rewrite app_nil_r in E1. now subst g.
      * exfalso. apply Forall_app in Hsp. destruct Hsp as [Hsp _].
        apply (title_not_all_space p p_nonempty).
        -- rewrite p_last. apply last_last.
        -- rewrite E1. apply Forall_app. split; [|exact Hsp].
           exfalso.
           assert (Hl : last p 0%N = last (a :: l) 0%N).
           { rewrite E1. apply last_app_nonempty. discriminate. }
           rewrite p_last, last_last in Hl.
           apply (Forall_last _ (a :: l) 0%N) in Hsp; [|discriminate].
           cbv beta in Hsp. congruence.
    + subst g. apply Forall_app in Hg. tauto.
Qed.

End LegacyTail.

Lemma LEGACY_ENGLISH_split (A : Type) p s cs (k : cont A) :
  m true (re_body LEGACY_ENGLISH) p s cs k
  = m true legacy_head p s cs
      (fun p' s' cs' => m true legacy_tail p' s' cs' k).
Proof. reflexivity. Qed.

Lemma search_anchored_exec ic r s res :
  search_from ic (Seq Bol r) 0 None s = Some res ->
  exec_at ic (Seq Bol r) None s = Some (m_after res, m_caps res).
Proof.
  rewrite search_from_eq.
  destruct (exec_at ic (Seq Bol r) None s) as [[s' cs]|]; intro H.
  - injection H as <-. reflexivity.
  - destruct s; [discriminate|]. now rewrite search_bol_later in H.
Qed.

(** In a match of the legacy form, a title text that ends in a year token
    is split into the title capture and the year capture; [T] is the input
    left after keyword, section token and separator. *)
Lemma LEGACY_ENGLISH_title_year (x : jstr) (r : mres) :
  re_match LEGACY_ENGLISH x = Some r ->
  exists T p1 cs1,
    sem true legacy_head None x [] p1 T cs1
    /\ forall p ws d,
        ends_in_year T p ws d ->
        get_cap 2 (m_caps r) = Some p /\ get_cap 3 (m_caps r) = Some d.
Proof.
  intro H. unfold re_match in H.
  assert (Hb : re_body LEGACY_ENGLISH
               = Seq Bol (Seq (alts [lit "Section";
                                     seqs [chr "s"; opt (chr ".")]])
                              (seqs [plus space; Grp 1 section_token;
                                     star space; opt (chr ","); plus space;
                                     Grp 2 (lazy_plus Dot);
                                     opt (seqs [plus space;
                                                Grp 3 (times 4 digit)]);
                                     Eol]))) by reflexivity.
  rewrite Hb in H. apply search_anchored_exec in H. rewrite <- Hb in H.
  unfold exec_at in H. change (re_ic LEGACY_ENGLISH) with true in H.
  rewrite LEGACY_ENGLISH_split in H.
  apply m_sound in H. destruct H as (p1 & T & cs1 & Hhead & Htail).
  exists T, p1, cs1. split; [exact Hhead|].
  intros p ws d (-> & (p0 & c & Ep & Hc) & Hne & Hws & Hd).
  assert (Hline : Forall (fun a => not_terminator a = true) p).
  { pose proof Htail as Hs. apply m_sound in Hs.
    destruct Hs as (p2 & s2 & cs2 & Hs & _).
    exact (legacy_tail_single_line p ws d c p0 Ep Hc Hd _ _ _ _ _ Hs). }
  fold accept in Htail.
  rewrite (legacy_tail_forward p ws d c p0 Ep Hc Hne Hws Hd p1 cs1 Hline)
    in Htail.
  injection Htail as _ <-. cbn [get_cap Nat.eqb]. auto.
Qed.

Lemma form_matches_nonempty (re : jsregex) (x : jstr) :
  form_matches re x = true -> exists r, re_match re x = Some r.
Proof.
  unfold form_matches. destruct (re_match re x); [eauto|discriminate].
Qed.

Lemma parseSection_title_year s t y ty :
  title (parseSection s t y ty) = option_map trim t
  /\ year (parseSection s t y ty) = y.
Proof. split; reflexivity. Qed.

Lemma form_matches_empty :
  form_matches SECTION_THEN_TITLE [] = false
  /\ form_matches TITLE_THEN_SECTION [] = false
  /\ form_matches MACHINE_REF_THEN_TITLE [] = false
  /\ form_matches LEGACY_ENGLISH [] = false.
Proof. repeat split; vm_compute; reflexivity. Qed.

(** The branches of [parseCitation] for the four forms with a title. *)
Lemma parseCitation_form1 citation :
  form_matches SECTION_THEN_TITLE (trim citation) = true ->
  parseCitation citation
  = parseSection (the (grp 1 (re_match SECTION_THEN_TITLE (trim citation))))
      (Some (fst (splitYear
                    (the (grp 2 (re_match SECTION_THEN_TITLE
                                          (trim citation)))))))
      (snd (splitYear
              (the (grp 2 (re_match SECTION_THEN_TITLE (trim citation))))))
      statute.
Proof.
  intro H. unfold parseCitation.
  destruct (trim citation) as [|c t] eqn:E.
  { destruct form_matches_empty as (H1 & _). congruence. }
  unfold form_matches in H. rewrite H.
  now destruct (splitYear _).
Qed.

Lemma parseCitation_form2 citation :
  form_matches SECTION_THEN_TITLE (trim citation) = false ->
  form_matches TITLE_THEN_SECTION (trim citation) = true ->
  parseCitation citation
  = parseSection (the (grp 2 (re_match TITLE_THEN_SECTION (trim citation))))
      (Some (fst (splitYear
                    (the (grp 1 (re_match TITLE_THEN_SECTION
                                          (trim citation)))))))
      (snd (splitYear
              (the (grp 1 (re_match TITLE_THEN_SECTION (trim citation))))))
      statute.
Proof.
  intros H1 H2. unfold parseCitation.
  destruct (trim citation) as [|c t] eqn:E.
  { destruct form_matches_empty as (_ & H & _). congruence. }
  unfold form_matches in H1, H2. rewrite H1, H2.
  now destruct (splitYear _).
Qed.

Lemma parseCitation_form3 citation :
  form_matches SECTION_THEN_TITLE (trim citation) = false ->
  form_matches TITLE_THEN_SECTION (trim citation) = false ->
  form_matches MACHINE_REF_THEN_TITLE (trim citation) = true ->
  parseCitation citation
  = parseSection
      (the (grp 1 (re_match MACHINE_REF_THEN_TITLE (trim citation))))
      (Some (fst (splitYear
                    (the (grp 2 (re_match MACHINE_REF_THEN_TITLE
                                          (trim citation)))))))
      (snd (splitYear
              (the (grp 2 (re_match MACHINE_REF_THEN_TITLE
                                    (trim citation))))))
      statute.
Proof.
  intros H1 H2 H3. unfold parseCitation.
  destruct (trim citation) as [|c t] eqn:E.
  { destruct form_matches_empty as (_ & _ & H & _). congruence. }
  unfold form_matches in H1, H2, H3. rewrite H1, H2, H3.
  now destruct (splitYear _).
Qed.

Lemma parseCitation_form4 citation :
  form_matches SECTION_THEN_TITLE (trim citation) = false ->
  form_matches TITLE_THEN_SECTION (trim citation) = false ->
  form_matches MACHINE_REF_THEN_TITLE (trim citation) = false ->
  form_matches LEGACY_ENGLISH (trim citation) = true ->
  parseCitation citation
  = parseSection (the (grp 1 (re_match LEGACY_ENGLISH (trim citation))))
      (grp 2 (re_match LEGACY_ENGLISH (trim citation)))
      (if truthy (grp 3 (re_match LEGACY_ENGLISH (trim citation)))
       then Some (parseInt10
                    (the (grp 3 (re_match LEGACY_ENGLISH (trim citation)))))
       else None)
      statute.
Proof.
  intros H1 H2 H3 H4. unfold parseCitation.
  destruct (trim citation) as [|c t] eqn:E.
  { destruct form_matches_empty as (_ & _ & _ & H). congruence. }
  unfold form_matches in H1, H2, H3, H4. rewrite H1, H2, H3, H4.
  reflexivity.
Qed.

Lemma splitYear_extracted s t p ws d :
  ends_in_year (trim t) p ws d ->
  year_extracted
    (parseSection s (Some (fst (splitYear t))) (snd (splitYear t)) statute)
    p d.
Proof.
  intro H. rewrite (splitYear_ends_in_year t p ws d H).
  unfold year_extracted, parseSection. cbn [title year option_map fst snd].
  now rewrite trim_idem.
Qed.

(** In each of the four grammar forms that carry a title, a title string
    that ends in a bare 4-digit token (text, whitespace, four digits)
    gives that token as the year and the text before it, trimmed, as the
    title. For the first three forms the title string is the title
    capture; for the legacy English form it is the input after keyword,
    section token and separator. *)
Lemma title_year_by_form :
  forall citation : jstr,
      let x := trim citation in
      let r := parseCitation citation in
      (form_matches SECTION_THEN_TITLE x = true ->
       forall p ws d,
         ends_in_year (trim (the (grp 2 (re_match SECTION_THEN_TITLE x))))
                      p ws d ->
         year_extracted r p d)
      /\ (form_matches SECTION_THEN_TITLE x = false ->
          form_matches TITLE_THEN_SECTION x = true ->
          forall p ws d,
            ends_in_year (trim (the (grp 1 (re_match TITLE_THEN_SECTION x))))
                         p ws d ->
            year_extracted r p d)
      /\ (form_matches SECTION_THEN_TITLE x = false ->
          form_matches TITLE_THEN_SECTION x = false ->
          form_matches MACHINE_REF_THEN_TITLE x = true ->
          forall p ws d,
            ends_in_year
              (trim (the (grp 2 (re_match MACHINE_REF_THEN_TITLE x))))
              p ws d ->
            year_extracted r p d)
      /\ (form_matches SECTION_THEN_TITLE x = false ->
          form_matches TITLE_THEN_SECTION x = false ->
          form_matches MACHINE_REF_THEN_TITLE x = false ->
          form_matches LEGACY_ENGLISH x = true ->
          exists T p1 cs1,
            sem true legacy_head None x [] p1 T cs1
            /\ forall p ws d,
                ends_in_year T p ws d -> year_extracted r p d).
Proof.
  intro citation. cbv zeta. split; [|split; [|split]].
  - intros H1 p ws d He. rewrite (parseCitation_form1 _ H1).
    exact (splitYear_extracted _ _ p ws d He).
  - intros H1 H2 p ws d He. rewrite (parseCitation_form2 _ H1 H2).
    exact (splitYear_extracted _ _ p ws d He).
  - intros H1 H2 H3 p ws d He. rewrite (parseCitation_form3 _ H1 H2 H3).
    exact (splitYear_extracted _ _ p ws d He).
  - intros H1 H2 H3 H4. rewrite (parseCitation_form4 _ H1 H2 H3 H4).
    destruct (form_matches_nonempty _ _ H4) as [r Hr].
    destruct (LEGACY_ENGLISH_title_year _ r Hr) as (T & p1 & cs1 & Hh & Hcap).
    exists T, p1, cs1. split; [exact Hh|].
    intros p ws d He. destruct (Hcap p ws d He) as [H2' H3'].
    rewrite Hr. cbn [grp]. rewrite H2', H3'.
    destruct He as (_ & _ & _ & _ & Hd).
    assert (Ht : truthy (Some d) = true).
    { destruct Hd as [Hl _]. destruct d; [discriminate|reflexivity]. }
    rewrite Ht. split; cbn; [reflexivity|].
    unfold the, nullish. now rewrite parseInt10_year.
Qed.

(** C6 on a citation of the section-first form. *)


(* ================================================================= *)
(** * Further properties *)

(** ** The formatter *)

Lemma section_sign : js "§ " = [167%N; 32%N].
Proof. reflexivity. Qed.





(** X2. The year takes part in the full style only, and only when it is
    a number other than zero: the short and the pinpoint style print the
    same text whatever the year is, and every style prints a year that is
    [0] or [NaN] as it prints no year. *)
Theorem formatCitation_year :
  forall (parsed : ParsedCitation) (format : CitationFormat)
         (y : option number),
    format = short \/ format = pinpoint \/ number_truthy y = false ->
    formatCitation (with_year parsed y) format
    = formatCitation (with_year parsed None) format.
Proof.
  intros parsed format y H. unfold formatCitation, with_year, buildPinpoint.
  cbn [valid section subsection paragraph title year].
  destruct H as [->|[->|H]]; [reflexivity|reflexivity|].
  rewrite H. reflexivity.
Qed.

Lemma formatCitation_year_witness :
  formatCitation
    (with_year (cited (Some "3") (Some "DSG") None None None)%string (Some (Num 0)))
    full
  = formatCitation
      (with_year (cited (Some "3") (Some "DSG") None None None)%string None) full.
Proof.
  apply (formatCitation_year
           (cited (Some "3") (Some "DSG") None None None)%string full (Some (Num 0))).
  right. right. reflexivity.
Defined.

(** ** The parser *)

Lemma trimStart_blank_app (ws x : jstr) :
  blank ws = true -> trimStart (ws ++ x) = trimStart x.
Proof.
  unfold trimStart. induction ws as [|c ws IH]; [reflexivity|].
  cbn. intro H. apply andb_true_iff in H as [Hc H]. rewrite Hc. auto.
Qed.

Lemma trimEnd_app_blank (x ws : jstr) :
  blank ws = true -> trimEnd (x ++ ws) = trimEnd x.
Proof.
  intro H. unfold trimEnd. rewrite rev_app_distr. f_equal.
  apply (trimStart_blank_app (rev ws) (rev x)). now rewrite blank_rev.
Qed.

Lemma trim_pad (ws1 c ws2 : jstr) :
  blank ws1 = true -> blank ws2 = true -> trim (ws1 ++ c ++ ws2) = trim c.
Proof.
  intros H1 H2. unfold trim. rewrite (trimStart_blank_app _ _ H1).
  destruct (blank c) eqn:E.
  - rewrite (trimStart_blank_app _ _ E).
    unfold trimStart. now rewrite (drop_while_blank _ H2),
                          (drop_while_blank _ E).
  - rewrite (trimStart_app _ _ E). now apply trimEnd_app_blank.
Qed.

(** X3. Whitespace before and after a citation never changes what
    [parseCitation] returns. *)
Theorem parseCitation_outer_whitespace :
  forall before citation after : jstr,
    blank before = true -> blank after = true ->
    parseCitation (before ++ citation ++ after) = parseCitation citation.
Proof.
  intros before citation after H1 H2. unfold parseCitation.
  now rewrite (trim_pad _ _ _ H1 H2).
Qed.

Lemma parseCitation_outer_whitespace_witness :
  parseCitation (js "  " ++ js "§ 5 DSG" ++ [newline])
  = parseCitation (js "§ 5 DSG").
Proof.
  apply (parseCitation_outer_whitespace (js "  ") (js "§ 5 DSG") [newline]);
    reflexivity.
Defined.

(** X4. A failed parse says why: the error is "Empty citation" when the
    input is blank, and otherwise it quotes the trimmed input after
    "Could not parse Austrian citation: ". *)
Theorem parseCitation_error_message :
  forall citation : jstr,
    valid (parseCitation citation) = false ->
    error (parseCitation citation)
    = Some (if blank citation then js "Empty citation"
            else could_not_parse (trim citation)).
Proof.
  intros citation. unfold parseCitation.
  destruct (trim citation) as [|c t] eqn:Et.
  { intros _. now rewrite (trim_nil_blank _ Et). }
  assert (Hb : blank citation = false).
  { destruct (blank citation) eqn:E; [|reflexivity].
    rewrite (trim_blank _ E) in Et. discriminate. }
  rewrite Hb. set (x := c :: t).
  destruct (truthy (grp 1 (re_match SECTION_THEN_TITLE x)) && _).
  { destruct (splitYear _). discriminate. }
  destruct (truthy (grp 1 (re_match TITLE_THEN_SECTION x)) && _).
  { destruct (splitYear _). discriminate. }
  destruct (truthy (grp 1 (re_match MACHINE_REF_THEN_TITLE x)) && _).
  { destruct (splitYear _). discriminate. }
  destruct (truthy (grp 1 (re_match LEGACY_ENGLISH x)) && _).
  { discriminate. }
  destruct (re_test BARE_MACHINE_REF x); [discriminate|].
  destruct (re_match BARE_SECTION x); [discriminate|].
  intros _. unfold could_not_parse, invalid_citation. cbn [error].
  reflexivity.
Qed.

Lemma parseCitation_error_message_witness :
  error (parseCitation (js " kein Zitat "))
  = Some (if blank (js " kein Zitat ") then js "Empty citation"
          else could_not_parse (trim (js " kein Zitat "))).
Proof.
  apply (parseCitation_error_message (js " kein Zitat ")).
  vm_compute. reflexivity.
Defined.

(** Under the [i] flag the class [[a-z]] holds the ASCII letters. *)
Lemma az_class_letter (a : cu) :
  class_mem true false [CRange 97 122] a = true -> is_letter a = true.
Proof.
  unfold class_mem, items_mem, is_letter. cbn [existsb item_mem xorb].
  rewrite !orb_false_r. unfold canon.
  destruct (is_lower a) eqn:E1; [reflexivity|].
  destruct (in_range 224 254 a && negb (a =? 247)%N) eqn:E2; unfold uncanon.
  - destruct (is_upper (a - 32)) eqn:E3;
      [|destruct (in_range 192 222 (a - 32) && negb (a - 32 =? 215)%N) eqn:E4];
      intro H; char_lia.
  - destruct (is_upper a) eqn:E3; [reflexivity|].
    destruct (in_range 192 222 a && negb (a =? 215)%N) eqn:E4;
      intro H; char_lia.
Qed.

(** An optional bracket with a group inside either leaves the register
    of the group or binds it to what the body of the group reads. *)
Lemma sem_opt_bracket ic i body p s cs p' s' cs' :
  sem ic (opt (seqs [chr "("; Grp i body; chr ")"])) p s cs p' s' cs' ->
  cs' = cs
  \/ exists p1 s1 cs1 p2 s2 cs2,
      sem ic body p1 s1 cs1 p2 s2 cs2
      /\ cs' = set_cap i (firstn (length s1 - length s2) s1) cs2.
Proof.
  intro H. apply sem_rep_inv in H.
  destruct H as [(_ & _ & _ & ->)|(_ & p1 & s1 & cs1 & Hb & Hr)];
    [left; reflexivity|right].
  apply sem_rep_inv in Hr.
  destruct Hr as [(_ & -> & -> & ->)|(Hne & _)]; [|cbn in Hne; congruence].
  unfold seqs in Hb. cbn [fold_right] in Hb.
  apply sem_seq_inv in Hb. destruct Hb as (p2 & s2 & cs2 & Hc & Hb).
  apply sem_seq_inv in Hb. destruct Hb as (p3 & s3 & cs3 & Hg & Hb).
  apply sem_seq_inv in Hb. destruct Hb as (p4 & s4 & cs4 & Hc' & Hb).
  apply sem_eps_inv in Hb. destruct Hb as (-> & -> & ->).
  apply sem_chr_inv in Hc'. destruct Hc' as (_ & _ & _ & _ & ->).
  apply sem_grp_inv in Hg. destruct Hg as (cs5 & Hg & ->).
  eauto 10.
Qed.

(** In a match of the section reference, the subsection capture is a
    run of digits and the paragraph capture is one letter. *)
Lemma SECTION_REF_fields (t : jstr) (r : mres) :
  re_match SECTION_REF t = Some r ->
  (forall v, get_cap 2 (m_caps r) = Some v ->
             v <> [] /\ Forall (fun c => is_digit c = true) v)
  /\ (forall y, get_cap 3 (m_caps r) = Some y ->
                exists a, y = [a] /\ is_letter a = true).
Proof.
  intro H. open_match H SECTION_REF.
  apply sem_seq_inv in H. destruct H as (p1 & s1 & cs1 & Hb & H).
  apply sem_bol_inv in Hb. destruct Hb as (_ & -> & -> & ->).
  apply sem_seq_inv in H. destruct H as (p2 & s2 & cs2 & Hg1 & H).
  apply sem_seq_inv in H. destruct H as (p3 & s3 & cs3 & Ho2 & H).
  apply sem_seq_inv in H. destruct H as (p4 & s4 & cs4 & Ho3 & H).
  apply sem_end_inv in H. destruct H as (_ & _ & <-).
  assert (N2 : get_cap 2 cs2 = None)
    by exact (sem_frame _ _ _ _ _ _ _ _ 2 Hg1 eq_refl).
  assert (N3 : get_cap 3 cs3 = None).
  { rewrite (sem_frame _ _ _ _ _ _ _ _ 3 Ho2 eq_refl).
    exact (sem_frame _ _ _ _ _ _ _ _ 3 Hg1 eq_refl). }
  split.
  - intros v Hx. rewrite (sem_frame _ _ _ _ _ _ _ _ 2 Ho3 eq_refl) in Hx.
    apply sem_opt_bracket in Ho2.
    destruct Ho2 as [->|(q1 & u1 & c1 & q2 & u2 & c2 & Hd & ->)];
      [congruence|].
    cbn [get_cap set_cap Nat.eqb] in Hx. injection Hx as <-.
    apply (sem_rep_atom true digit (class_mem true false [CDigit]) eq_refl
                        (cls_sem true false [CDigit])) in Hd.
    destruct Hd as (w & -> & Hw & Hmin & _ & _).
    rewrite firstn_app_length. split.
    + specialize (Hmin eq_refl). intros ->. cbn in Hmin. lia.
    + eapply Forall_impl; [|exact Hw]. apply digit_class_is_digit.
  - intros y Hy. apply sem_opt_bracket in Ho3.
    destruct Ho3 as [E|(q1 & u1 & c1 & q2 & u2 & c2 & Hd & E)];
      rewrite E in Hy; [congruence|].
    cbn [get_cap set_cap Nat.eqb] in Hy. injection Hy as <-.
    apply cls_sem in Hd. destruct Hd as (a & -> & Ha & _).
    exists a. split; [|now apply az_class_letter].
    change (a :: u2) with ([a] ++ u2). apply firstn_app_length.
Qed.

(** The fields [parseSection] reads from a section string that begins
    with a digit. *)
Lemma parseSection_fields s t y ty :
  starts_with_digit s ->
  let r := parseSection s t y ty in
  digit_headed (section r)
  /\ (forall v, subsection r = Some v ->
                v <> [] /\ Forall (fun c => is_digit c = true) v)
  /\ (forall v, paragraph r = Some v ->
                exists a, v = [a] /\ is_letter a = true).
Proof.
  intros (a & w & -> & Hd). unfold parseSection.
  cbn [section subsection paragraph].
  rewrite (PARA_PREFIX_digit _ _ Hd).
  rewrite (trim_cons_keep _ _ (digit_not_space _ Hd)).
  destruct (re_match SECTION_REF (a :: trimEnd w)) as [r|] eqn:E;
    cbn [grp nullish].
  - pose proof (SECTION_REF_fields _ _ E) as [F2 F3].
    apply SECTION_REF_section in E. destruct E as (a' & w' & E & Hd').
    rewrite E. cbn [nullish]. split; [|split; assumption].
    exists a', w'. auto.
  - split; [exists a, (trimEnd w); auto|]. split; discriminate.
Qed.

Lemma year_value_range (d : jstr) :
  year_token d -> exists z, year_value d = Num z /\ (0 <= z <= 9999)%Z.
Proof.
  intros [Hl Hd]. unfold year_value. eexists. split; [reflexivity|].
  destruct d as [|a [|b [|c [|e [|? ?]]]]]; try discriminate.
  inversion Hd as [|? ? Ha Hd1]; subst.
  inversion Hd1 as [|? ? Hb Hd2]; subst.
  inversion Hd2 as [|? ? Hc Hd3]; subst.
  inversion Hd3 as [|? ? He _]; subst.
  unfold digits_value. cbn [fold_left].
  unfold is_digit, in_range in *. bool_to_prop. lia.
Qed.

(** [splitYear] returns no year or the value of a year token. *)
Lemma splitYear_year (t : jstr) : year_in_range (snd (splitYear t)).
Proof.
  unfold splitYear, year_in_range.
  destruct (re_match YEAR_SUFFIX (trim t)) as [r|] eqn:E; cbn [grp];
    [|cbn; discriminate].
  destruct (truthy (get_cap 1 (m_caps r))); cbn [negb snd];
    [|discriminate].
  unfold re_match in E. apply search_from_sound in E.
  destruct E as (pre & s0 & p0 & p' & _ & _ & _ & _ & _ & Hsem).
  change (re_body YEAR_SUFFIX) with (year_part 1 (Seq Eol Eps)) in Hsem.
  apply sem_year_part in Hsem.
  destruct Hsem as (sp & dd & s1 & p1 & _ & _ & _ & Hdd & Hend).
  apply sem_end_inv in Hend. destruct Hend as (_ & _ & ->).
  cbn [get_cap set_cap Nat.eqb nullish].
  intros n Hn. injection Hn as <-.
  rewrite (parseInt10_year _ Hdd). now apply year_value_range.
Qed.

(** In a match of the legacy English form the year capture is a year
    token. *)
Lemma LEGACY_ENGLISH_year (x : jstr) (r : mres) :
  re_match LEGACY_ENGLISH x = Some r ->
  forall d, get_cap 3 (m_caps r) = Some d -> year_token d.
Proof.
  intro H. unfold re_match in H.
  assert (Hb : re_body LEGACY_ENGLISH
               = Seq Bol (Seq (alts [lit "Section";
                                     seqs [chr "s"; opt (chr ".")]])
                              (seqs [plus space; Grp 1 section_token;
                                     star space; opt (chr ","); plus space;
                                     Grp 2 (lazy_plus Dot);
                                     opt (seqs [plus space;
                                                Grp 3 (times 4 digit)]);
                                     Eol]))) by reflexivity.
  rewrite Hb in H. apply search_anchored_exec in H. rewrite <- Hb in H.
  unfold exec_at in H. change (re_ic LEGACY_ENGLISH) with true in H.
  rewrite LEGACY_ENGLISH_split in H.
  apply m_sound in H. destruct H as (p1 & T & cs1 & Hhead & Htail).
  apply m_sound in Htail. destruct Htail as (p2 & s2 & cs2 & Htail & Hk).
  injection Hk as _ <-.
  assert (N3 : get_cap 3 cs1 = None)
    by exact (sem_frame _ _ _ _ _ _ _ _ 3 Hhead eq_refl).
  unfold legacy_tail in Htail.
  apply sem_seq_inv in Htail. destruct Htail as (p3 & s3 & cs3 & Hg & Ht).
  apply sem_seq_inv in Ht. destruct Ht as (p4 & s4 & cs4 & Ho & He).
  apply sem_end_inv in He. destruct He as (_ & _ & ->).
  assert (N3' : get_cap 3 cs3 = None).
  { rewrite (sem_frame _ _ _ _ _ _ _ _ 3 Hg eq_refl). exact N3. }
  apply sem_rep_inv in Ho.
  destruct Ho as [(_ & _ & _ & ->)|(_ & p5 & s5 & cs5 & Hy & Hr)];
    [congruence|].
  apply sem_rep_inv in Hr.
  destruct Hr as [(_ & _ & _ & ->)|(Hne & _)]; [|cbn in Hne; congruence].
  change (Seq (plus space) (Seq (Grp 3 (times 4 digit)) Eps))
    with (year_part 3 Eps) in Hy.
  apply sem_year_part in Hy.
  destruct Hy as (sp & dd & s6 & p6 & _ & _ & _ & Hdd & Heps).
  apply sem_eps_inv in Heps. destruct Heps as (_ & _ & ->).
  cbn [get_cap set_cap Nat.eqb]. intros d Hd. now injection Hd as <-.
Qed.

Lemma year_in_range_None : year_in_range None.
Proof. intros n H. discriminate. Qed.

(** What [parseCitation] hands to [parseSection]: a section string that
    begins with a digit, a year in range, and a year only with a title. *)
Lemma parseCitation_cases (citation : jstr) :
  (exists s t y,
      parseCitation citation = parseSection s t y statute
      /\ starts_with_digit s /\ year_in_range y /\ (t = None -> y = None))
  \/ (exists msg, parseCitation citation = invalid_citation msg).
Proof.
  unfold parseCitation. destruct (trim citation) as [|c t]; [right; eauto|].
  set (x := c :: t).
  destruct (truthy (grp 1 (re_match SECTION_THEN_TITLE x))
            && truthy (grp 2 (re_match SECTION_THEN_TITLE x))) eqn:E1.
  { apply andb_true_iff in E1 as [E1 _].
    pose proof (splitYear_year (the (grp 2 (re_match SECTION_THEN_TITLE x))))
      as Hy.
    destruct (splitYear _) as [cleanTitle yr]. left.
    exists (the (grp 1 (re_match SECTION_THEN_TITLE x))), (Some cleanTitle), yr.
    split; [reflexivity|]. split; [|split; [exact Hy|discriminate]].
    exact (truthy_grp_digit _ _ _ SECTION_THEN_TITLE_section E1). }
  destruct (truthy (grp 1 (re_match TITLE_THEN_SECTION x))
            && truthy (grp 2 (re_match TITLE_THEN_SECTION x))) eqn:E2.
  { apply andb_true_iff in E2 as [_ E2].
    pose proof (splitYear_year (the (grp 1 (re_match TITLE_THEN_SECTION x))))
      as Hy.
    destruct (splitYear _) as [cleanTitle yr]. left.
    exists (the (grp 2 (re_match TITLE_THEN_SECTION x))), (Some cleanTitle), yr.
    split; [reflexivity|]. split; [|split; [exact Hy|discriminate]].
    exact (truthy_grp_digit _ _ _ TITLE_THEN_SECTION_section E2). }
  destruct (truthy (grp 1 (re_match MACHINE_REF_THEN_TITLE x))
            && truthy (grp 2 (re_match MACHINE_REF_THEN_TITLE x))) eqn:E3.
  { apply andb_true_iff in E3 as [E3 _].
    pose proof (splitYear_year
                  (the (grp 2 (re_match MACHINE_REF_THEN_TITLE x)))) as Hy.
    destruct (splitYear _) as [cleanTitle yr]. left.
    exists (the (grp 1 (re_match MACHINE_REF_THEN_TITLE x))),
           (Some cleanTitle), yr.
    split; [reflexivity|]. split; [|split; [exact Hy|discriminate]].
    exact (truthy_grp_digit _ _ _ MACHINE_REF_THEN_TITLE_section E3). }
  destruct (truthy (grp 1 (re_match LEGACY_ENGLISH x))
            && truthy (grp 2 (re_match LEGACY_ENGLISH x))) eqn:E4.
  { apply andb_true_iff in E4 as [E4 E4']. left. do 3 eexists.
    split; [reflexivity|].
    split; [exact (truthy_grp_digit _ _ _ LEGACY_ENGLISH_section E4)|].
    split; [|intro Ht; rewrite Ht in E4'; discriminate].
    destruct (re_match LEGACY_ENGLISH x) as [r|] eqn:E; [|discriminate].
    cbn [grp]. destruct (get_cap 3 (m_caps r)) as [d|] eqn:Ed;
      [|apply year_in_range_None].
    destruct (truthy (Some d)); [|apply year_in_range_None].
    intros n Hn. injection Hn as <-. cbn [the nullish].
    pose proof (LEGACY_ENGLISH_year _ _ E _ Ed) as Hd.
    rewrite (parseInt10_year _ Hd). now apply year_value_range. }
  destruct (re_test BARE_MACHINE_REF x) eqn:E5.
  { left. do 3 eexists. split; [reflexivity|].
    split; [now apply BARE_MACHINE_REF_digits|].
    split; [apply year_in_range_None|reflexivity]. }
  destruct (re_match BARE_SECTION x) as [r|] eqn:E6.
  { left. do 3 eexists. split; [reflexivity|].
    split; [|split; [apply year_in_range_None|reflexivity]].
    apply BARE_SECTION_section in E6. destruct E6 as (a & w & E6 & Hd).
    rewrite E6. exists a, w. auto. }
  right. eauto.
Qed.

(** X5. The reference of a valid parse has a fixed shape: the section
    begins with a decimal digit, so no marker is left in it; a subsection
    is a non-empty run of digits; a paragraph is a single ASCII letter;
    and there is no error. *)
Theorem parseCitation_reference_shape :
  forall citation : jstr,
    valid (parseCitation citation) = true ->
    let r := parseCitation citation in
    digit_headed (section r)
    /\ (forall v, subsection r = Some v ->
                  v <> [] /\ Forall (fun c => is_digit c = true) v)
    /\ (forall v, paragraph r = Some v ->
                  exists a, v = [a] /\ is_letter a = true)
    /\ error r = None.
Proof.
  intros citation Hv r. subst r.
  destruct (parseCitation_cases citation)
    as [(s & t & y & E & Hs & _)|(msg & E)]; rewrite E in *;
    [|discriminate].
  destruct (parseSection_fields s t y statute Hs) as (F1 & F2 & F3).
  auto.
Qed.

Lemma parseCitation_reference_shape_witness :
  let r := parseCitation (js "§ 3(1)(a), DSG") in
  digit_headed (section r)
  /\ (forall v, subsection r = Some v ->
                v <> [] /\ Forall (fun c => is_digit c = true) v)
  /\ (forall v, paragraph r = Some v ->
                exists a, v = [a] /\ is_letter a = true)
  /\ error r = None.
Proof.
  apply (parseCitation_reference_shape (js "§ 3(1)(a), DSG")).
  vm_compute. reflexivity.
Defined.

(** X6. A year in the result of [parseCitation] is an integer between 0
    and 9999, never [NaN], and comes with a title. *)
Theorem parseCitation_year_range :
  forall (citation : jstr) (y : number),
    year (parseCitation citation) = Some y ->
    exists (z : Z) (t : jstr),
      y = Num z /\ (0 <= z <= 9999)%Z
      /\ title (parseCitation citation) = Some t.
Proof.
  intros citation y Hy.
  destruct (parseCitation_cases citation)
    as [(s & t & y0 & E & _ & Hr & Ht)|(msg & E)]; rewrite E in *;
    [|discriminate].
  cbn [year parseSection] in Hy. subst y0.
  destruct (Hr y eq_refl) as (z & -> & Hz).
  destruct t as [t|]; [|specialize (Ht eq_refl); discriminate].
  exists z, (trim t). auto.
Qed.

Lemma parseCitation_year_range_witness :
  exists (z : Z) (t : jstr),
    Num 2000 = Num z /\ (0 <= z <= 9999)%Z
    /\ title (parseCitation (js "§ 5 Datenschutzgesetz 2000")) = Some t.
Proof.
  apply (parseCitation_year_range (js "§ 5 Datenschutzgesetz 2000")
                                  (Num 2000)).
  vm_compute. reflexivity.
Defined.

(** ** The validator *)

Lemma jstr_eqb_eq (a b : jstr) : jstr_eqb a b = true <-> a = b.
Proof.
  revert b. induction a as [|x a IH]; intros [|y b]; cbn;
    try (split; [discriminate|discriminate]); [tauto|].
  rewrite andb_true_iff, N.eqb_eq, IH. split.
  - intros [-> ->]. reflexivity.
  - intros [= -> ->]. auto.
Qed.

(** X7. [validateCitation] returns no warning exactly when the document
    was found, the provision was found and the status of the document is
    not "repealed". *)
Theorem validateCitation_no_warnings :
  forall (Database : Type)
         (resolveExistingStatuteId : Database -> jstr -> option jstr)
         (select_document : Database -> jstr -> option Document)
         (select_provision : Database -> jstr -> list jstr -> list jstr -> bool)
         (case_variants : jstr -> list jstr)
         (db : Database) (citation : jstr),
    let r := validateCitation resolveExistingStatuteId select_document
                              select_provision case_variants db citation in
    warnings r = []
    <-> (document_exists r = true /\ provision_exists r = true
         /\ status r <> Some (js "repealed")).
Proof.
  intros Database resolve seldoc selprov variants db citation r. subst r.
  assert (Hno : forall parsed w,
             warnings (not_validated parsed w) = []
             <-> (document_exists (not_validated parsed w) = true
                  /\ provision_exists (not_validated parsed w) = true
                  /\ status (not_validated parsed w) <> Some (js "repealed"))).
  { intros parsed w. cbn [not_validated warnings document_exists].
    split; [discriminate|]. intros [H _]. discriminate. }
  unfold validateCitation. cbv zeta.
  destruct (valid (parseCitation citation)); cbn [negb]; [|apply Hno].
  destruct (truthy (lookup_term (parseCitation citation) citation));
    cbn [negb]; [|apply Hno].
  destruct (find_document resolve seldoc db _) as [doc|]; [|apply Hno].
  cbn [warnings document_exists provision_exists status].
  destruct (jstr_eqb (doc_status doc) (js "repealed")) eqn:Er.
  - apply jstr_eqb_eq in Er. split.
    + destruct (truthy (section (parseCitation citation)) && _);
        cbn [app]; discriminate.
    + intros (_ & _ & H). exfalso. apply H. now rewrite Er.
  - assert (Hs : Some (doc_status doc) <> Some (js "repealed")).
    { intro H. injection H as H. apply jstr_eqb_eq in H. congruence. }
    destruct (truthy (section (parseCitation citation))); cbn [andb].
    + destruct (selprov db (doc_id doc) _ _); cbn [negb app].
      * split; auto.
      * split; [discriminate|]. intros (_ & H & _). discriminate.
    + split; auto.
Qed.

(** ** The content cleaner *)

Lemma filter_none (f : jstr -> bool) (l : list jstr) :
  forallb (fun x => negb (f x)) l = true -> filter f l = [].
Proof.
  induction l as [|x l IH]; [reflexivity|]. cbn. intro H.
  apply andb_true_iff in H as [Hx Hl]. apply negb_true_iff in Hx.
  rewrite Hx. auto.
Qed.

(** X8. Content without a content line, that is content whose lines are
    all blank or of a metadata shape, is cleaned to the empty string. *)
Theorem clean_without_content_line :
  forall content : jstr,
    forallb (fun line => negb (is_content_line line))
            (split newline content) = true ->
    cleanProvisionContent content = [].
Proof.
  intros content H. unfold cleanProvisionContent, content_lines.
  cbv zeta. rewrite (filter_none _ _ H). reflexivity.
Qed.

Lemma clean_without_content_line_witness :
  cleanProvisionContent
    (text ["BGBl. Nr. 189/1955"; "§ 1"; "   "; "NOR40217471"; ""]%string)
  = [].
Proof.
  apply (clean_without_content_line
           (text ["BGBl. Nr. 189/1955"; "§ 1"; "   "; "NOR40217471";
                  ""]%string)).
  vm_compute. reflexivity.
Defined.

Lemma pop_keyword_lines_split (l : list jstr) :
  exists dropped,
    l = dropped ++ pop_keyword_lines l
    /\ Forall (fun x => isKeywordLine (trim x) = true) dropped.
Proof.
  induction l as [|x l IH]; [exists []; auto|]. cbn [pop_keyword_lines].
  destruct (isKeywordLine (trim x)) eqn:E.
  - destruct IH as (d & Hd & Hk). exists (x :: d). split.
    + cbn. now rewrite <- Hd.
    + now constructor.
  - exists []. auto.
Qed.

(** X9. Pass 2 removes keyword lines only, and only from the end: the
    lines pass 1 keeps are the lines left after pass 2 followed by lines
    that are all keyword lines, and the last line left is no keyword
    line. *)
Theorem content_lines_trailing_keywords :
  forall content : jstr,
    exists dropped,
      filter is_content_line (split newline content)
      = content_lines content ++ dropped
      /\ Forall (fun line => isKeywordLine (trim line) = true) dropped
      /\ (content_lines content = []
          \/ isKeywordLine (trim (last (content_lines content) [])) = false).
Proof.
  intro content. unfold content_lines. cbv zeta.
  set (kept := filter is_content_line (split newline content)).
  destruct (pop_keyword_lines_split (rev kept)) as (d & Hd & Hk).
  exists (rev d). split; [|split].
  - rewrite <- rev_app_distr, <- Hd. symmetry. apply rev_involutive.
  - apply Forall_rev. exact Hk.
  - destruct (pop_keyword_lines (rev kept)) as [|x l] eqn:E; [left; auto|].
    right. cbn [rev]. rewrite last_last.
    assert (Hf : pop_keyword_lines (x :: l) = x :: l).
    { rewrite <- E. apply pop_keyword_lines_idem. }
    cbn [pop_keyword_lines] in Hf.
    destruct (isKeywordLine (trim x)); [|reflexivity].
    exfalso. pose proof (pop_keyword_lines_split l) as (d' & Hd' & _).
    rewrite Hf in Hd'. apply (f_equal (@length jstr)) in Hd'.
    rewrite length_app in Hd'. cbn in Hd'. lia.
Qed.

(** *** Blank lines *)

Lemma lines_filled_started (s : jstr) :
  forall seen, lines_filled seen s = true -> lines_started seen s = true.
Proof.
  induction s as [|c s IH]; intros seen H; [reflexivity|].
  cbn in *. destruct (c =? newline)%N; [|auto].
  apply andb_true_iff in H as [-> H]. cbn. auto.
Qed.

Lemma lines_started_firstn (k : nat) :
  forall s seen,
    lines_started seen s = true -> lines_started seen (firstn k s) = true.
Proof.
  induction k as [|k IH]; intros [|c s] seen H; try reflexivity.
  cbn in *. destruct (c =? newline)%N; [|auto].
  apply andb_true_iff in H as [-> H]. cbn. auto.
Qed.

Lemma lines_started_trimStart (s : jstr) :
  lines_started false s = true -> lines_started false (trimStart s) = true.
Proof.
  unfold trimStart. induction s as [|c s IH]; intro H; [reflexivity|].
  cbn [drop_while]. destruct (is_space c) eqn:Ec; [|exact H].
  cbn in H. destruct (c =? newline)%N; [discriminate|].
  rewrite Ec in H. auto.
Qed.

Lemma trimEnd_cons_blank (c : cu) (l : jstr) :
  blank l = true -> trimEnd (c :: l) = if is_space c then [] else [c].
Proof.
  intro H. unfold trimEnd. cbn [rev].
  assert (E : drop_while is_space (rev l ++ [c]) = drop_while is_space [c]).
  { apply (trimStart_blank_app (rev l) [c]). now rewrite blank_rev. }
  rewrite E. cbn. now destruct (is_space c).
Qed.

Lemma newline_is_space (c : cu) : (c =? newline)%N = true -> is_space c = true.
Proof. intro H. apply N.eqb_eq in H. subst c. reflexivity. Qed.

Lemma lines_started_trimEnd (s : jstr) :
  forall seen,
    lines_started seen s = true ->
    blank s = true \/ lines_filled seen (trimEnd s) = true.
Proof.
  induction s as [|c s IH]; intros seen H; [left; reflexivity|].
  destruct (blank s) eqn:Eb.
  - rewrite (trimEnd_cons_blank _ _ Eb).
    destruct (is_space c) eqn:Ec.
    + left. cbn. now rewrite Ec.
    + right. cbn. destruct (c =? newline)%N eqn:En.
      * apply newline_is_space in En. congruence.
      * rewrite Ec. apply orb_true_r.
  - rewrite (trimEnd_cons _ _ Eb). right. cbn in *.
    destruct (c =? newline)%N.
    + apply andb_true_iff in H as [-> H]. cbn.
      destruct (IH _ H) as [C|F]; [congruence|exact F].
    + destruct (IH _ H) as [C|F]; [congruence|exact F].
Qed.

Lemma lines_filled_split (s : jstr) :
  forall cur,
    lines_filled (negb (blank cur)) s = true ->
    Forall (fun l => blank l = false) (split_go newline cur s).
Proof.
  induction s as [|c s IH]; intros cur H; cbn in *.
  - constructor; [|constructor]. rewrite blank_rev.
    now apply negb_true_iff in H.
  - destruct (c =? newline)%N.
    + apply andb_true_iff in H as [H1 H2]. constructor.
      * rewrite blank_rev. now apply negb_true_iff in H1.
      * apply IH. exact H2.
    + apply IH. cbn. rewrite negb_andb, orb_comm. exact H.
Qed.

Lemma lines_filled_app (l r : jstr) :
  ~ In newline l ->
  forall seen,
    lines_filled seen (l ++ r) = lines_filled (seen || negb (blank l)) r.
Proof.
  induction l as [|c l IH]; intros Hn seen.
  - cbn. now rewrite orb_false_r.
  - cbn [app lines_filled].
    destruct (c =? newline)%N eqn:E.
    + exfalso. apply Hn. left. apply N.eqb_eq in E. congruence.
    + rewrite IH by (intro Hi; apply Hn; now right).
      f_equal. cbn. now rewrite negb_andb, orb_assoc.
Qed.

Lemma lines_filled_join (lines : list jstr) :
  lines <> [] ->
  Forall (fun l => blank l = false) lines ->
  Forall (fun l => ~ In newline l) lines ->
  lines_filled false (join [newline] lines) = true.
Proof.
  induction lines as [|l [|l2 tl] IH]; intros Hne Hb Hn; [congruence| |].
  - cbn [join]. rewrite <- (app_nil_r l).
    inversion Hb; inversion Hn; subst.
    rewrite lines_filled_app by assumption. cbn.
    apply negb_true_iff. assumption.
  - change (join [newline] (l :: l2 :: tl))
      with (l ++ newline :: join [newline] (l2 :: tl)).
    inversion Hb; inversion Hn; subst.
    rewrite lines_filled_app by assumption. cbn [lines_filled].
    rewrite N.eqb_refl.
    match goal with H : blank l = false |- _ => rewrite H end. cbn.
    apply IH; [discriminate|assumption|assumption].
Qed.

(** The joined content lines, trimmed, have no blank line before the
    last one. *)
Lemma joined_lines_started (content : jstr) :
  lines_started false (trim (join [newline] (content_lines content))) = true.
Proof.
  destruct (content_lines_facts content) as (Hc & Hn & _).
  destruct (content_lines content) as [|l tl] eqn:E; [reflexivity|].
  assert (Hf : lines_filled false (join [newline] (l :: tl)) = true).
  { apply lines_filled_join; [discriminate| |exact Hn].
    eapply Forall_impl; [|exact Hc]. apply is_content_line_not_blank. }
  apply lines_filled_started, lines_started_trimStart in Hf.
  unfold trim. destruct (lines_started_trimEnd _ _ Hf) as [B|F].
  - now rewrite (trimEnd_blank _ B).
  - now apply lines_filled_started.
Qed.

(** The trailing section reference ends the text, so stripping it leaves
    a prefix of the text. *)
Lemma strip_trailing_ref_prefix (s : jstr) :
  exists k, re_replace TRAILING_SECTION_REF [] s = firstn k s.
Proof.
  unfold re_replace.
  destruct (re_match TRAILING_SECTION_REF s) as [r|] eqn:E.
  - exists (m_index r). unfold re_match in E. apply search_from_sound in E.
    destruct E as (pre & s0 & p0 & p' & _ & _ & _ & _ & _ & Hsem).
    cbn [TRAILING_SECTION_REF plain re_body re_ic seqs fold_right] in Hsem.
    do 4 peel Hsem. apply sem_end_inv in Hsem.
    destruct Hsem as (_ & -> & _). cbn [app]. apply app_nil_r.
  - exists (length s). symmetry. apply firstn_all.
Qed.

Lemma BLANK_RUN_newline_pair (s : jstr) (i : nat) (p : option cu)
      (res : mres) :
  search_from false (re_body BLANK_RUN) i p s = Some res ->
  exists pre post, s = pre ++ newline :: newline :: post.
Proof.
  intro H. apply search_from_sound in H.
  destruct H as (pre & s0 & p0 & p' & -> & _ & _ & _ & _ & Hsem).
  cbn [BLANK_RUN plain re_body seqs fold_right at_least] in Hsem.
  apply sem_seq_inv in Hsem. destruct Hsem as (p1 & s1 & cs1 & Hr & _).
  apply sem_rep_pos_inv in Hr. destruct Hr as (p2 & s2 & cs2 & Hc1 & Hr).
  apply sem_chr_inv in Hc1. destruct Hc1 as (a1 & -> & E1 & _ & _).
  apply sem_rep_pos_inv in Hr. destruct Hr as (p3 & s3 & cs3 & Hc2 & Hr).
  apply sem_chr_inv in Hc2. destruct Hc2 as (a2 & -> & E2 & _ & _).
  apply chr_eq_plain in E1, E2. subst a1 a2. eauto.
Qed.

Lemma lines_started_newline_pair (pre post : jstr) :
  forall seen,
    lines_started seen (pre ++ newline :: newline :: post) = false.
Proof.
  induction pre as [|c pre IH]; intro seen; cbn.
  - apply andb_false_r.
  - destruct (c =? newline)%N; [|apply IH].
    rewrite IH. apply andb_false_r.
Qed.

Lemma replace_all_BLANK_RUN_started (s : jstr) :
  lines_started false s = true ->
  replace_all BLANK_RUN [newline; newline] s = s.
Proof.
  intro H. unfold replace_all. cbn [replace_all_go].
  destruct (search_from (re_ic BLANK_RUN) (re_body BLANK_RUN) 0 None s)
    as [res|] eqn:E; [|reflexivity].
  exfalso. apply BLANK_RUN_newline_pair in E. destruct E as (pre & post & ->).
  rewrite lines_started_newline_pair in H. discriminate.
Qed.

(** What the cleaner returns: a prefix of the trimmed join of the content
    lines, trimmed. *)
Lemma cleaned_is_trimmed_prefix (content : jstr) :
  exists k,
    cleanProvisionContent content
    = trim (firstn k (trim (join [newline] (content_lines content)))).
Proof.
  destruct (strip_trailing_ref_prefix
              (trim (join [newline] (content_lines content)))) as [k Hk].
  exists k. unfold cleanProvisionContent, fix_up. cbv zeta. rewrite Hk.
  rewrite replace_all_BLANK_RUN_started; [reflexivity|].
  apply lines_started_firstn, joined_lines_started.
Qed.

(** X10. The collapse of blank runs is never needed: the text it
    receives, the trimmed join of the content lines without its trailing
    section reference, holds no two newlines in a row, so the cleaner
    returns that text trimmed. *)
Theorem clean_collapse_is_identity :
  forall content : jstr,
    let cleaned :=
      re_replace TRAILING_SECTION_REF []
                 (trim (join [newline] (content_lines content))) in
    replace_all BLANK_RUN [newline; newline] cleaned = cleaned
    /\ cleanProvisionContent content = trim cleaned.
Proof.
  intros content cleaned.
  assert (H : replace_all BLANK_RUN [newline; newline] cleaned = cleaned).
  { apply replace_all_BLANK_RUN_started. subst cleaned.
    destruct (strip_trailing_ref_prefix
                (trim (join [newline] (content_lines content)))) as [k ->].
    apply lines_started_firstn, joined_lines_started. }
  split; [exact H|].
  unfold cleanProvisionContent, fix_up. cbv zeta. fold cleaned.
  now rewrite H.
Qed.

(** X11. Cleaned text is trimmed and has no blank line: it is empty, or
    each of its lines holds a character that is no whitespace. *)
Theorem clean_no_blank_line :
  forall content : jstr,
    trim (cleanProvisionContent content) = cleanProvisionContent content
    /\ (cleanProvisionContent content = []
        \/ Forall (fun line => blank line = false)
                  (split newline (cleanProvisionContent content))).
Proof.
  intro content. split.
  { unfold cleanProvisionContent, fix_up. cbv zeta. apply trim_idem. }
  destruct (cleaned_is_trimmed_prefix content) as [k Hk].
  rewrite Hk.
  assert (Hs : lines_started false
                 (firstn k (trim (join [newline] (content_lines content))))
               = true)
    by apply lines_started_firstn, joined_lines_started.
  apply lines_started_trimStart in Hs. unfold trim.
  destruct (lines_started_trimEnd _ _ Hs) as [B|F].
  - left. now apply trimEnd_blank.
  - right. unfold split. now apply lines_filled_split.
Qed.

Lemma pop_keyword_lines_head (x : jstr) (l : list jstr) :
  pop_keyword_lines (x :: l) = x :: l -> isKeywordLine (trim x) = false.
Proof.
  cbn [pop_keyword_lines]. destruct (isKeywordLine (trim x)); [|reflexivity].
  intro Hf. exfalso. pose proof (pop_keyword_lines_split l) as (d & Hd & _).
  rewrite Hf in Hd. apply (f_equal (@length jstr)) in Hd.
  rewrite length_app in Hd. cbn in Hd. lia.
Qed.

(** X12. When the fix-up finds no trailing section reference to strip,
    no metadata survives: every line of the cleaned text is a content
    line, neither blank nor of a metadata shape, and its last line is no
    keyword line. *)
Theorem clean_lines_are_content :
  forall content : jstr,
    content_lines content <> [] ->
    re_test TRAILING_SECTION_REF
            (trim (join [newline] (content_lines content))) = false ->
    Forall (fun line => is_content_line line = true)
           (split newline (cleanProvisionContent content))
    /\ isKeywordLine
         (trim (last (split newline (cleanProvisionContent content)) []))
       = false.
Proof.
  intros content Hne Ht.
  assert (E : cleanProvisionContent content
              = trim (join [newline] (content_lines content))).
  { unfold cleanProvisionContent, fix_up. cbv zeta.
    rewrite (re_replace_no_match _ _ _ Ht).
    rewrite replace_all_BLANK_RUN_started by apply joined_lines_started.
    apply trim_idem. }
  rewrite E.
  destruct (content_lines_facts content) as (Hc & Hn & Hp).
  destruct (cleaned_lines_stable _ Hne Hc Hn Hp) as [Hl Hf].
  split; [exact Hf|].
  destruct (content_lines_facts
              (trim (join [newline] (content_lines content))))
    as (_ & _ & Hp').
  rewrite Hl in Hp'.
  set (lines := split newline (trim (join [newline] (content_lines content))))
    in *.
  destruct (rev lines) as [|x l] eqn:Er.
  - exfalso. apply (f_equal (@rev jstr)) in Er.
    rewrite rev_involutive in Er. cbn in Er.
    exact (split_go_nonempty _ _ _ Er).
  - apply (f_equal (@rev jstr)) in Er. rewrite rev_involutive in Er.
    rewrite Er. cbn [rev]. rewrite last_last.
    exact (pop_keyword_lines_head _ _ Hp').
Qed.

Lemma clean_lines_are_content_witness :
  Forall (fun line => is_content_line line = true)
         (split newline
                (cleanProvisionContent
                   (text ["JGS Nr. 946/1811";
                          "Die Gesetze verpflichten alle.";
                          "";
                          "Sie gelten im ganzen Staat."]%string)))
  /\ isKeywordLine
       (trim (last (split newline
                          (cleanProvisionContent
                             (text ["JGS Nr. 946/1811";
                                    "Die Gesetze verpflichten alle.";
                                    "";
                                    "Sie gelten im ganzen Staat."]%string)))
                   []))
     = false.
Proof.
  apply (clean_lines_are_content
           (text ["JGS Nr. 946/1811"; "Die Gesetze verpflichten alle."; "";
                  "Sie gelten im ganzen Staat."]%string)).
  - vm_compute. discriminate.
  - vm_compute. reflexivity.
Defined.

(** *** Keyword lines *)

Lemma split_go_length_sep (sep : cu) (a b : jstr) :
  forall cur,
    S (length (split_go sep [] b)) <= length (split_go sep cur (a ++ sep :: b)).
Proof.
  induction a as [|c a IH]; intro cur; cbn.
  - rewrite N.eqb_refl. cbn. lia.
  - destruct (c =? sep)%N; [|apply IH].
    cbn. specialize (IH []). lia.
Qed.

Lemma split_go_length_pos (sep : cu) (s : jstr) :
  forall cur, 1 <= length (split_go sep cur s).
Proof.
  induction s as [|c s IH]; intro cur; cbn; [lia|].
  destruct (c =? sep)%N; [cbn; lia|apply IH].
Qed.

(** One round of the repeated part of the keyword pattern reads a term,
    a comma and whitespace. *)
Lemma keyword_round_comma p s cs p' s' cs' :
  sem false (Seq keyword_term (Seq (chr ",") (Seq (star space) Eps)))
      p s cs p' s' cs' ->
  exists a b, s = a ++ comma :: b ++ s'.
Proof.
  intro H. apply sem_seq_inv in H. destruct H as (p1 & s1 & cs1 & Hk & H).
  apply sem_seq_inv in H. destruct H as (p2 & s2 & cs2 & Hc & H).
  apply sem_suffix in Hk. destruct Hk as [a ->].
  apply sem_chr_inv in Hc. destruct Hc as (x & -> & Ex & _ & _).
  apply chr_eq_plain in Ex. subst x.
  apply sem_suffix in H. destruct H as [b ->].
  exists a, b. reflexivity.
Qed.

Lemma KEYWORD_LINE_PATTERN_commas (line : jstr) :
  re_test KEYWORD_LINE_PATTERN line = true ->
  exists a b c, line = a ++ comma :: b ++ comma :: c.
Proof.
  unfold re_test.
  destruct (re_match KEYWORD_LINE_PATTERN line) as [r|] eqn:H;
    [intros _|discriminate].
  unfold re_match, KEYWORD_LINE_PATTERN, plain in H.
  cbn [re_ic re_body seqs fold_right] in H.
  apply search_anchored in H. destruct H as (p' & _ & _ & H).
  apply sem_seq_inv in H. destruct H as (p1 & s1 & cs1 & Hb & H).
  apply sem_bol_inv in Hb. destruct Hb as (_ & -> & -> & ->).
  apply sem_seq_inv in H. destruct H as (p2 & s2 & cs2 & Hr & _).
  unfold at_least in Hr.
  apply sem_rep_pos_inv in Hr. destruct Hr as (p3 & s3 & cs3 & H1 & Hr).
  apply sem_rep_pos_inv in Hr. destruct Hr as (p4 & s4 & cs4 & H2 & _).
  apply keyword_round_comma in H1. destruct H1 as (a1 & b1 & ->).
  apply keyword_round_comma in H2. destruct H2 as (a2 & b2 & ->).
  exists a1, (b1 ++ a2), (b2 ++ s4). now rewrite <- !app_assoc.
Qed.

(** ** The FTS5 query builder *)

Section SanitizeTwice.

Variable uni_L uni_N : N -> bool.
Hypothesis unassigned : surrogates_unassigned uni_L uni_N.

Lemma surrogate_not_kept (c : cu) :
  is_high_surrogate c = true -> kept uni_L uni_N c = false.
Proof.
  intro H. unfold kept. destruct (unassigned c) as [-> ->].
  - unfold is_high_surrogate in H. char_lia.
  - unfold is_high_surrogate in H. cbn [orb]. char_lia.
Qed.

Lemma sanitizeToken_cons_low (c : cu) (tl : jstr) :
  is_high_surrogate c = false ->
  sanitizeToken uni_L uni_N (c :: tl)
  = if kept uni_L uni_N c then c :: sanitizeToken uni_L uni_N tl
    else sanitizeToken uni_L uni_N tl.
Proof. intro H. cbn [sanitizeToken]. now rewrite H. Qed.

Lemma sanitizeToken_pair (c d : cu) (tl : jstr) :
  is_high_surrogate c = true -> is_low_surrogate d = true ->
  sanitizeToken uni_L uni_N (c :: d :: tl)
  = if kept uni_L uni_N (65536 + (c - 55296) * 1024 + (d - 56320))%N
    then c :: d :: sanitizeToken uni_L uni_N tl
    else sanitizeToken uni_L uni_N tl.
Proof. intros H1 H2. cbn [sanitizeToken]. now rewrite H1, H2. Qed.

Lemma sanitizeToken_twice (t : jstr) :
  sanitizeToken uni_L uni_N (sanitizeToken uni_L uni_N t)
  = sanitizeToken uni_L uni_N t
  /\ forall c,
      sanitizeToken uni_L uni_N (sanitizeToken uni_L uni_N (c :: t))
      = sanitizeToken uni_L uni_N (c :: t).
Proof.
  induction t as [|d t [IH1 IH2]].
  - split; [reflexivity|]. intro c.
    destruct (is_high_surrogate c) eqn:Eh.
    + cbn [sanitizeToken]. rewrite Eh, (surrogate_not_kept _ Eh).
      reflexivity.
    + rewrite (sanitizeToken_cons_low _ _ Eh).
      destruct (kept uni_L uni_N c) eqn:Ek; [|reflexivity].
      rewrite (sanitizeToken_cons_low _ _ Eh), Ek. reflexivity.
  - split; [apply IH2|]. intro c.
    destruct (is_high_surrogate c) eqn:Eh.
    + destruct (is_low_surrogate d) eqn:El.
      * rewrite (sanitizeToken_pair _ _ _ Eh El).
        destruct (kept uni_L uni_N _) eqn:Ek; [|exact IH1].
        rewrite (sanitizeToken_pair _ _ _ Eh El), Ek, IH1. reflexivity.
      * cbn [sanitizeToken]. rewrite Eh, El, (surrogate_not_kept _ Eh).
        apply IH2.
    + rewrite (sanitizeToken_cons_low _ _ Eh).
      destruct (kept uni_L uni_N c) eqn:Ek; [|apply IH2].
      rewrite (sanitizeToken_cons_low _ _ Eh), Ek, IH2. reflexivity.
Qed.

End SanitizeTwice.

Lemma ascii_tables_surrogates : surrogates_unassigned ascii_L ascii_N.
Proof.
  intros cp H. unfold ascii_L, ascii_N. split; char_lia.
Qed.

(** X14. Sanitising a token twice gives what sanitising it once gives,
    for tables in which the surrogate code points are neither letters nor
    numbers. *)
Theorem sanitizeToken_idempotent :
  forall (uni_L uni_N : N -> bool) (token : jstr),
    surrogates_unassigned uni_L uni_N ->
    sanitizeToken uni_L uni_N (sanitizeToken uni_L uni_N token)
    = sanitizeToken uni_L uni_N token.
Proof.
  intros uni_L uni_N token H. now apply sanitizeToken_twice.
Qed.

Lemma sanitizeToken_idempotent_witness :
  sanitizeToken ascii_L ascii_N
                (sanitizeToken ascii_L ascii_N (js "Daten(schutz)!"))
  = sanitizeToken ascii_L ascii_N (js "Daten(schutz)!").
Proof.
  apply (sanitizeToken_idempotent ascii_L ascii_N (js "Daten(schutz)!")).
  exact ascii_tables_surrogates.
Defined.

Lemma buildSanitizedFallback_head uni_L uni_N (query f : jstr) :
  buildSanitizedFallback uni_L uni_N query = Some f ->
  exists rest, f = dquote :: rest.
Proof.
  unfold buildSanitizedFallback.
  destruct (filter nonempty _) as [|t ts]; [discriminate|].
  intro H. injection H as <-. cbn [map].
  destruct (map quoted_prefix ts); cbn [join]; unfold quoted_prefix;
    cbn [app]; eauto.
Qed.

(** X15. A fallback built by [buildSanitizedFallback] is well formed: it
    is a non-empty list of tokens joined by " OR ", each token non-empty,
    free of double quotes, set between double quotes and followed by the
    prefix star. *)
Theorem buildSanitizedFallback_quoted :
  forall (uni_L uni_N : N -> bool) (query f : jstr),
    ascii_conform uni_L uni_N ->
    buildSanitizedFallback uni_L uni_N query = Some f ->
    f <> []
    /\ exists tokens,
        tokens <> [] /\ Forall safe_token tokens
        /\ f = join (js " OR ") (map quoted_prefix tokens).
Proof.
  intros uni_L uni_N query f Hc H. split.
  { apply buildSanitizedFallback_head in H. destruct H as [rest ->].
    discriminate. }
  unfold buildSanitizedFallback in H.
  destruct (filter nonempty _) as [|t ts] eqn:E; [discriminate|].
  injection H as <-. exists (t :: ts). split; [discriminate|].
  split; [|reflexivity]. rewrite <- E.
  apply Forall_forall. intros x Hx. apply filter_In in Hx.
  destruct Hx as [Hx Hne]. apply in_map_iff in Hx.
  destruct Hx as (x0 & <- & _). split.
  - intro E0. rewrite E0 in Hne. discriminate.
  - now apply sanitizeToken_no_quote.
Qed.

Lemma buildSanitizedFallback_quoted_witness :
  quoted_prefix (js "AND") <> []
  /\ exists tokens,
      tokens <> [] /\ Forall safe_token tokens
      /\ quoted_prefix (js "AND")
         = join (js " OR ") (map quoted_prefix tokens).
Proof.
  apply (buildSanitizedFallback_quoted ascii_L ascii_N (js "(AND)")).
  - exact ascii_tables_conform.
  - vm_compute. reflexivity.
Defined.

Lemma drop_while_keeps (f : cu -> bool) (c : cu) (l : jstr) :
  In c l -> f c = false -> In c (drop_while f l).
Proof.
  intros Hin Hc. induction l as [|x l IH]; [contradiction|].
  cbn [drop_while]. destruct (f x) eqn:Ex; [|exact Hin].
  destruct Hin as [->|Hin]; [congruence|auto].
Qed.

Lemma trim_keeps (c : cu) (s : jstr) :
  In c s -> is_space c = false -> In c (trim s).
Proof.
  intros Hin Hc. unfold trim, trimEnd, trimStart.
  apply (proj1 (in_rev _ _)). apply drop_while_keeps; [|exact Hc].
  apply (proj1 (in_rev _ _)). now apply drop_while_keeps.
Qed.

(** A search finds a match when the pattern matches at some position,
    whatever the character before that position is. *)
Lemma search_from_finds ic r (s0 : jstr) :
  (forall q, exec_at ic r q s0 <> None) ->
  forall pre i p, search_from ic r i p (pre ++ s0) <> None.
Proof.
  intros Hm. induction pre as [|a pre IH]; intros i p;
    rewrite search_from_eq.
  - cbn [app]. specialize (Hm p).
    destruct (exec_at ic r p s0) as [[s' cs]|]; [discriminate|congruence].
  - destruct (exec_at ic r p ((a :: pre) ++ s0)) as [[s' cs]|];
      [discriminate|]. cbn [app]. apply IH.
Qed.

Lemma EXPLICIT_FTS_SYNTAX_quote (s : jstr) :
  In dquote s -> re_test EXPLICIT_FTS_SYNTAX s = true.
Proof.
  intro Hin. apply in_split in Hin. destruct Hin as (pre & post & ->).
  unfold re_test, re_match.
  destruct (search_from (re_ic EXPLICIT_FTS_SYNTAX)
                        (re_body EXPLICIT_FTS_SYNTAX) 0 None
                        (pre ++ dquote :: post)) eqn:E; [reflexivity|].
  exfalso. revert E. apply search_from_finds. intro q.
  unfold exec_at, EXPLICIT_FTS_SYNTAX, plain, quote_class.
  cbn [re_ic re_body seqs fold_right alts m].
  change (class_mem false false [CRange 34 34; CRange 34 34; CRange 34 34]
                    dquote) with true.
  cbn [orelse]. discriminate.
Qed.

(** X16. A query that holds a double quote is taken for explicit search
    syntax: [primary] is the trimmed query as it stands, and the fallback
    is what [buildSanitizedFallback] makes of the trimmed query. *)
Theorem quoted_query_passes_through :
  forall (uni_L uni_N : N -> bool) (query : jstr),
    In dquote query ->
    let r := buildFtsQueryVariants uni_L uni_N query in
    primary r = trim query
    /\ fallback r = buildSanitizedFallback uni_L uni_N (trim query).
Proof.
  intros uni_L uni_N query Hin r. subst r. unfold buildFtsQueryVariants.
  cbv zeta.
  rewrite (EXPLICIT_FTS_SYNTAX_quote _ (trim_keeps _ _ Hin eq_refl)).
  cbn [primary fallback]. split; [reflexivity|].
  destruct (buildSanitizedFallback uni_L uni_N (trim query)) as [f|] eqn:E;
    [|reflexivity].
  apply buildSanitizedFallback_head in E. destruct E as [rest ->].
  reflexivity.
Qed.

Lemma quoted_query_passes_through_witness :
  let query := js " Daten " ++ dquote :: js "schutz " in
  primary (buildFtsQueryVariants ascii_L ascii_N query) = trim query
  /\ fallback (buildFtsQueryVariants ascii_L ascii_N query)
     = buildSanitizedFallback ascii_L ascii_N (trim query).
Proof.
  apply (quoted_query_passes_through
           ascii_L ascii_N (js " Daten " ++ dquote :: js "schutz ")).
  vm_compute. right. right. right. right. right. right. right. left.
  reflexivity.
Defined.

(** ** The tool handlers *)

(** X17. Without a provision reference, which is the case when
    [provision_ref] is the empty string, whatever [section] holds, and
    when [provision_ref] is absent and [section] is absent or empty,
    [getProvision] returns the first 200 rows of the query, cleaned, and
    sets [_truncated] exactly when the query returned more than 200
    rows. *)
Theorem getProvision_listing :
  forall (Database ResponseMetadata : Type)
         (generateResponseMetadata : Database -> ResponseMetadata)
         (resolveExistingStatuteId : Database -> jstr -> option jstr)
         (select_provisions :
            Database -> jstr -> nat -> list GetProvision.ProvisionRow)
         (select_provision :
            Database -> jstr -> list jstr -> list jstr
            -> option GetProvision.ProvisionRow)
         (case_variants : jstr -> list jstr)
         (db : Database) (input : GetProvision.GetProvisionInput),
    truthy (GetProvision.input_document_id input) = true ->
    GetProvision.input_provision_ref input = Some []
    \/ (GetProvision.input_provision_ref input = None
        /\ truthy (GetProvision.input_section input) = false) ->
    let id := the (GetProvision.input_document_id input) in
    let all := select_provisions
                 db (nullish (resolveExistingStatuteId db id) id)
                 (GetProvision.MAX_PROVISIONS + 1) in
    exists response,
      GetProvision.getProvision generateResponseMetadata
                                resolveExistingStatuteId select_provisions
                                select_provision case_variants db input
      = Returned response
      /\ results response
         = GetProvision.Listing
             (map GetProvision.with_clean_content
                  (firstn GetProvision.MAX_PROVISIONS all))
      /\ _truncated response = (GetProvision.MAX_PROVISIONS <? length all)
      /\ length (firstn GetProvision.MAX_PROVISIONS all)
         <= GetProvision.MAX_PROVISIONS.
Proof.
  intros Database ResponseMetadata meta resolve selall selone variants db
         input Hid Href id all.
  unfold GetProvision.getProvision. rewrite Hid. cbn [negb]. cbv zeta.
  assert (E : truthy match GetProvision.input_provision_ref input with
                     | Some r => Some r
                     | None => GetProvision.input_section input
                     end = false).
  { destruct Href as [->|[-> H]]; [reflexivity|exact H]. }
  rewrite E. cbn [negb]. fold id. fold all.
  destruct (GetProvision.MAX_PROVISIONS <? length all) eqn:Et.
  - eexists. split; [reflexivity|]. cbn [results _truncated].
    repeat split. apply firstn_le_length.
  - eexists. split; [reflexivity|].
    unfold GetProvision.plain_response. cbn [results _truncated].
    apply Nat.ltb_ge in Et. rewrite (firstn_all2 all Et).
    repeat split. exact Et.
Qed.

Lemma getProvision_listing_witness :
  let row :=
    {| GetProvision.document_id := js "gesetz-10001622";
       GetProvision.document_title := js "ABGB";
       GetProvision.document_status := js "in_force";
       GetProvision.provision_ref := js "para1";
       GetProvision.chapter := None;
       GetProvision.section := js "1";
       GetProvision.title := None;
       GetProvision.content := js "JGS Nr. 946/1811" |} in
  let input :=
    {| GetProvision.input_document_id := Some (js "gesetz-10001622");
       GetProvision.input_part := None;
       GetProvision.input_chapter := None;
       GetProvision.input_section := Some (js "1");
       GetProvision.input_provision_ref := Some [] |} in
  let all := repeat row (GetProvision.MAX_PROVISIONS + 1) in
  exists response,
    GetProvision.getProvision
      (fun _ : unit => tt) (fun _ _ => None) (fun _ _ n => repeat row n)
      (fun _ _ _ _ => None) (fun _ => []) tt input
    = Returned response
    /\ results response
       = GetProvision.Listing
           (map GetProvision.with_clean_content
                (firstn GetProvision.MAX_PROVISIONS all))
    /\ _truncated response = (GetProvision.MAX_PROVISIONS <? length all)
    /\ length (firstn GetProvision.MAX_PROVISIONS all)
       <= GetProvision.MAX_PROVISIONS.
Proof.
  intros row input all.
  apply (getProvision_listing
           unit unit (fun _ => tt) (fun _ _ => None)
           (fun _ _ n => repeat row n) (fun _ _ _ _ => None) (fun _ => [])
           tt input).
  - reflexivity.
  - left. reflexivity.
Defined.

(** *** The escaped document id *)

Lemma wildcard_class (c : cu) :
  class_mem false false (one_of "%_") c = is_wildcard c.
Proof.
  change (one_of "%_") with [CRange 37 37; CRange 95 95].
  unfold class_mem, items_mem, is_wildcard. cbn [existsb item_mem xorb].
  rewrite orb_false_r. unfold in_range.
  destruct (c =? 37)%N eqn:E1; destruct (c =? 95)%N eqn:E2;
    bool_to_prop; subst; try reflexivity.
  destruct ((37 <=? c)%N && (c <=? 37)%N) eqn:E3;
    destruct ((95 <=? c)%N && (c <=? 95)%N) eqn:E4;
    bool_to_prop; try reflexivity; lia.
Qed.

Lemma LIKE_WILDCARD_exec (p : option cu) (s : jstr) :
  exec_at false (re_body CheckCurrency.LIKE_WILDCARD) p s
  = match s with
    | c :: tl => if is_wildcard c then Some (tl, []) else None
    | [] => None
    end.
Proof.
  unfold exec_at, CheckCurrency.LIKE_WILDCARD, plain.
  cbn [re_body seqs fold_right m]. destruct s as [|c tl]; [reflexivity|].
  now rewrite wildcard_class.
Qed.

Lemma LIKE_WILDCARD_search (pre : jstr) :
  forall i p,
    Forall (fun c => is_wildcard c = false) pre ->
    (forall c post,
        is_wildcard c = true ->
        search_from false (re_body CheckCurrency.LIKE_WILDCARD) i p
                    (pre ++ c :: post)
        = Some {| m_index := i + length pre; m_text := [c];
                  m_after := post; m_caps := [] |})
    /\ search_from false (re_body CheckCurrency.LIKE_WILDCARD) i p pre = None.
Proof.
  induction pre as [|a pre IH]; intros i p Hpre.
  - split.
    + intros c post Hc. rewrite search_from_eq, LIKE_WILDCARD_exec.
      cbn [app]. rewrite Hc. cbn [length]. rewrite Nat.add_0_r. f_equal.
      f_equal. replace (S (length post) - length post) with 1 by lia.
      reflexivity.
    + rewrite search_from_eq, LIKE_WILDCARD_exec. reflexivity.
  - inversion Hpre as [|? ? Ha Hpre']; subst.
    destruct (IH (S i) (Some a) Hpre') as [IH1 IH2]. split.
    + intros c post Hc. rewrite search_from_eq, LIKE_WILDCARD_exec.
      cbn [app]. rewrite Ha, (IH1 _ _ Hc). cbn [length].
      now rewrite Nat.add_succ_r.
    + rewrite search_from_eq, LIKE_WILDCARD_exec. now rewrite Ha.
Qed.

Lemma first_wildcard (s : jstr) :
  Forall (fun c => is_wildcard c = false) s
  \/ exists pre c post,
      s = pre ++ c :: post
      /\ Forall (fun c => is_wildcard c = false) pre
      /\ is_wildcard c = true.
Proof.
  induction s as [|a s IH]; [left; constructor|].
  destruct (is_wildcard a) eqn:Ea.
  - right. exists [], a, s. auto.
  - destruct IH as [IH|(pre & c & post & -> & Hpre & Hc)].
    + left. now constructor.
    + right. exists (a :: pre), c, post. auto.
Qed.

Lemma escape_wildcards_none (s : jstr) :
  Forall (fun c => is_wildcard c = false) s -> escape_wildcards s = s.
Proof.
  unfold escape_wildcards.
  induction 1 as [|c s Hc _ IH]; [reflexivity|]. cbn [flat_map].
  now rewrite Hc, IH.
Qed.

(** The replacement on the pattern of the wildcards sets a backslash
    before every wildcard. *)
Lemma escapedId_escape_wildcards (s : jstr) :
  CheckCurrency.escapedId s = escape_wildcards s.
Proof.
  unfold CheckCurrency.escapedId, replace_all_fn.
  change (re_ic CheckCurrency.LIKE_WILDCARD) with false.
  generalize (@None cu) as p.
  assert (H : forall fuel s p,
             length s < fuel ->
             replace_all_fn_go false (re_body CheckCurrency.LIKE_WILDCARD)
                               (fun matched => CheckCurrency.backslash
                                                 :: matched) fuel p s
             = escape_wildcards s).
  { induction fuel as [|fuel IH]; intros s0 p Hl; [lia|].
    cbn [replace_all_fn_go].
    destruct (first_wildcard s0) as [Hn|(pre & c & post & -> & Hpre & Hc)].
    - destruct (LIKE_WILDCARD_search s0 0 p Hn) as [_ ->].
      symmetry. now apply escape_wildcards_none.
    - destruct (LIKE_WILDCARD_search pre 0 p Hpre) as [Hs _].
      rewrite (Hs c post Hc).
      cbv beta iota zeta delta [m_index m_text m_after last].
      change (0 + length pre) with (length pre).
      rewrite firstn_app, firstn_all, Nat.sub_diag. cbn [firstn app].
      rewrite app_nil_r, IH by (rewrite length_app in Hl; cbn in Hl; lia).
      unfold escape_wildcards. rewrite flat_map_app. cbn [flat_map].
      rewrite Hc. fold (escape_wildcards pre).
      rewrite (escape_wildcards_none _ Hpre). reflexivity. }
  intro p. apply H. lia.
Qed.

Lemma escape_wildcards_cons (c : cu) (s : jstr) :
  escape_wildcards (c :: s)
  = if is_wildcard c then CheckCurrency.backslash :: c :: escape_wildcards s
    else c :: escape_wildcards s.
Proof. unfold escape_wildcards. cbn [flat_map]. now destruct (is_wildcard c). Qed.

Lemma like_literal_escaped (s : jstr) :
  ~ In CheckCurrency.backslash s ->
  like_literal (escape_wildcards s) = Some s.
Proof.
  intros Hs. induction s as [|c s IH]; [reflexivity|].
  assert (Hc : (c =? CheckCurrency.backslash)%N = false).
  { apply N.eqb_neq. intros ->. apply Hs. now left. }
  assert (IH' := IH (fun H => Hs (or_intror H))).
  rewrite escape_wildcards_cons. destruct (is_wildcard c) eqn:Ew.
  - cbn [like_literal]. rewrite N.eqb_refl, IH'. reflexivity.
  - cbn [like_literal]. rewrite Hc, Ew, IH'. reflexivity.
Qed.

(** What the pattern of an escaped text denotes is no longer than the
    text, and shorter when the text holds a backslash. *)
Lemma like_literal_length (n : nat) :
  forall s t,
    length s <= n ->
    like_literal (escape_wildcards s) = Some t ->
    length t <= length s
    /\ (In CheckCurrency.backslash s -> length t < length s).
Proof.
  induction n as [|n IH]; intros s t Hn H.
  { destruct s; [|cbn in Hn; lia]. cbn in H. injection H as <-.
    split; [lia|]. intros []. }
  destruct s as [|c s]; [cbn in H; injection H as <-; split; [lia|intros []]|].
  cbn [length] in Hn. rewrite escape_wildcards_cons in H.
  destruct (c =? CheckCurrency.backslash)%N eqn:Ec.
  - apply N.eqb_eq in Ec. subst c.
    change (is_wildcard CheckCurrency.backslash) with false in H.
    cbn [like_literal] in H. rewrite N.eqb_refl in H.
    destruct s as [|c2 s]; [discriminate|].
    rewrite escape_wildcards_cons in H.
    destruct (is_wildcard c2) eqn:E2.
    + cbn [like_literal] in H.
      destruct (c2 =? CheckCurrency.backslash)%N eqn:E3.
      * apply N.eqb_eq in E3. subst c2. discriminate.
      * rewrite E2 in H. discriminate.
    + destruct (like_literal (escape_wildcards s)) as [t'|] eqn:Et;
        [|discriminate].
      injection H as <-. cbn [length] in *.
      destruct (IH s t' ltac:(lia) Et) as [Hle _]. split; intros; lia.
  - assert (Hin : In CheckCurrency.backslash (c :: s)
                  -> In CheckCurrency.backslash s).
    { intros [E|Hi]; [|exact Hi]. apply N.eqb_neq in Ec. congruence. }
    assert (Ht : exists t', like_literal (escape_wildcards s) = Some t'
                            /\ t = c :: t').
    { destruct (is_wildcard c) eqn:Ew; cbn [like_literal] in H.
      - rewrite N.eqb_refl in H.
        destruct (like_literal (escape_wildcards s)) as [t'|];
          [|discriminate].
        injection H as <-. eauto.
      - rewrite Ec, Ew in H.
        destruct (like_literal (escape_wildcards s)) as [t'|];
          [|discriminate].
        injection H as <-. eauto. }
    destruct Ht as (t' & Et & ->). cbn [length].
    destruct (IH s t' ltac:(lia) Et) as [Hle Hlt]. split; [lia|].
    intro Hi. specialize (Hlt (Hin Hi)). lia.
Qed.

(** X18. The escaped document id, read as a [LIKE] pattern with the
    backslash as escape character, holds no wildcard and denotes the id
    itself exactly when the id holds no backslash: the replacement escapes
    the two wildcards and leaves the escape character as it is. *)
Theorem escapedId_literal :
  forall document_id : jstr,
    like_literal (CheckCurrency.escapedId document_id) = Some document_id
    <-> ~ In CheckCurrency.backslash document_id.
Proof.
  intros s. rewrite escapedId_escape_wildcards. split.
  - intros H Hin.
    destruct (like_literal_length (length s) s s (le_n _) H) as [_ Hlt].
    specialize (Hlt Hin). lia.
  - apply like_literal_escaped.
Qed.

Lemma provision_warning_not_repealed (x : jstr) :
  js "Provision " ++ x <> js "This statute has been repealed".
Proof. intro H. vm_compute in H. discriminate. Qed.

(** X19. In a result of [checkCurrency]: a statute reported current
    carries no repealed warning; [provision_exists] is undefined exactly
    when no provision reference was given (an empty one counts as none);
    and there is no warning exactly when the status is not "repealed" and
    no provision was looked up and missed. *)
Theorem checkCurrency_warnings :
  forall (Database ResponseMetadata : Type)
         (generateResponseMetadata : Database -> ResponseMetadata)
         (resolveExistingStatuteId : Database -> jstr -> option jstr)
         (normalizeAsOfDate : jstr -> outcome jstr)
         (select_document :
            Database -> jstr -> jstr -> option CheckCurrency.DocumentRow)
         (select_provision :
            Database -> jstr -> list jstr -> list jstr -> bool)
         (case_variants : jstr -> list jstr)
         (db : Database) (input : CheckCurrency.CheckCurrencyInput)
         (response : ToolResponse (option CheckCurrency.CurrencyResult)
                                  ResponseMetadata)
         (result : CheckCurrency.CurrencyResult),
    CheckCurrency.checkCurrency generateResponseMetadata
                                resolveExistingStatuteId normalizeAsOfDate
                                select_document select_provision
                                case_variants db input
    = Returned response ->
    results response = Some result ->
    (CheckCurrency.is_current result = true ->
     ~ In (js "This statute has been repealed")
          (CheckCurrency.warnings result))
    /\ (CheckCurrency.provision_exists result = None
        <-> truthy (CheckCurrency.input_provision_ref input) = false)
    /\ (CheckCurrency.warnings result = []
        <-> CheckCurrency.status result <> js "repealed"
            /\ CheckCurrency.provision_exists result <> Some false).
Proof.
  intros Database ResponseMetadata meta resolve normalize seldoc selprov
         variants db input response result Hr Hres.
  unfold CheckCurrency.checkCurrency in Hr.
  destruct (truthy (CheckCurrency.input_document_id input)); [|discriminate].
  cbn [negb] in Hr.
  destruct (if truthy (CheckCurrency.input_as_of_date input)
            then normalize (the (CheckCurrency.input_as_of_date input))
            else Returned []); [discriminate|].
  injection Hr as <-. unfold CheckCurrency.lookup in Hres. cbv zeta in Hres.
  destruct (seldoc db _ _) as [doc|]; [|discriminate].
  unfold CheckCurrency.response in Hres. cbn [results] in Hres.
  injection Hres as <-.
  cbn [CheckCurrency.is_current CheckCurrency.warnings
       CheckCurrency.provision_exists CheckCurrency.status].
  set (ref := CheckCurrency.input_provision_ref input).
  destruct (jstr_eqb (CheckCurrency.row_status doc) (js "repealed")) eqn:Er.
  - apply jstr_eqb_eq in Er. split; [|split].
    + intro Hc. apply jstr_eqb_eq in Hc. rewrite Hc in Er.
      vm_compute in Er. discriminate.
    + destruct (truthy ref); split; congruence.
    + split.
      * destruct (truthy ref); [destruct (selprov db _ _ _)|];
          cbn [app]; discriminate.
      * intros [H _]. congruence.
  - assert (Hs : CheckCurrency.row_status doc <> js "repealed").
    { intro H. apply jstr_eqb_eq in H. congruence. }
    split; [|split].
    + intros _. destruct (truthy ref); [destruct (selprov db _ _ _)|];
        cbn [app In]; try tauto.
      intros [H|[]]. exact (provision_warning_not_repealed _ H).
    + destruct (truthy ref); split; congruence.
    + destruct (truthy ref); [destruct (selprov db _ _ _)|]; cbn [app].
      * split; [intros _; split; [exact Hs|discriminate]|reflexivity].
      * split; [discriminate|]. intros [_ H]. congruence.
      * split; [intros _; split; [exact Hs|discriminate]|reflexivity].
Qed.

Lemma checkCurrency_warnings_witness :
  let doc :=
    {| CheckCurrency.row_id := js "gesetz-10001597";
       CheckCurrency.row_title := js "Datenschutzgesetz";
       CheckCurrency.row_status := js "in_force";
       CheckCurrency.row_document_type := js "statute";
       CheckCurrency.row_issued_date := None;
       CheckCurrency.row_in_force_date := None |} in
  let input :=
    {| CheckCurrency.input_document_id := Some (js "Datenschutzgesetz");
       CheckCurrency.input_provision_ref := Some (js "99");
       CheckCurrency.input_as_of_date := None |} in
  let result :=
    {| CheckCurrency.document_id := js "gesetz-10001597";
       CheckCurrency.title := js "Datenschutzgesetz";
       CheckCurrency.status := js "in_force";
       CheckCurrency.type := js "statute";
       CheckCurrency.issued_date := None;
       CheckCurrency.in_force_date := None;
       CheckCurrency.is_current := true;
       CheckCurrency.provision_exists := Some false;
       CheckCurrency.warnings :=
         [js "Provision " ++ dquote :: js "99"
             ++ dquote :: js " not found in this document"] |} in
  (CheckCurrency.is_current result = true ->
   ~ In (js "This statute has been repealed")
        (CheckCurrency.warnings result))
  /\ (CheckCurrency.provision_exists result = None
      <-> truthy (CheckCurrency.input_provision_ref input) = false)
  /\ (CheckCurrency.warnings result = []
      <-> CheckCurrency.status result <> js "repealed"
          /\ CheckCurrency.provision_exists result <> Some false).
Proof.
  intros doc input result.
  apply (checkCurrency_warnings
           unit unit (fun _ => tt) (fun _ _ => None) (fun d => Returned d)
           (fun _ _ _ => Some doc) (fun _ _ _ _ => false) (fun _ => [])
           tt input
           {| results := Some result; _truncated := false;
              _total_hint := None; _metadata := tt |} result).
  - vm_compute. reflexivity.
  - reflexivity.
Defined.

Lemma when_truthy_nonempty (v : option jstr) :
  absent_or_nonempty (GetProvisionEUBasis.when_truthy v).
Proof.
  unfold absent_or_nonempty, GetProvisionEUBasis.when_truthy.
  destruct v as [[|c w]|]; cbn; discriminate.
Qed.

(** X20. [getProvisionEUBasis] returns only for a document id and a
    provision reference that are present and not blank; the content it
    returns is the cleaned content of the provision, trimmed; and in
    every reference an optional field is absent or non-empty, and the
    full citation is empty only if the id of the EU document is. *)
Theorem getProvisionEUBasis_result :
  forall (Database ResponseMetadata : Type)
         (generateResponseMetadata : Database -> ResponseMetadata)
         (resolveExistingStatuteId : Database -> jstr -> option jstr)
         (select_provision :
            Database -> jstr -> list jstr -> list jstr -> option (N * jstr))
         (select_references : Database -> N -> list GetProvisionEUBasis.Row)
         (case_variants : jstr -> list jstr)
         (db : Database)
         (input : GetProvisionEUBasis.GetProvisionEUBasisInput)
         (response : ToolResponse
                       GetProvisionEUBasis.GetProvisionEUBasisResult
                       ResponseMetadata),
    GetProvisionEUBasis.getProvisionEUBasis
      generateResponseMetadata resolveExistingStatuteId select_provision
      select_references case_variants db input
    = Returned response ->
    let result := results response in
    truthy (GetProvisionEUBasis.input_document_id input) = true
    /\ (exists ref,
           GetProvisionEUBasis.input_provision_ref input = Some ref
           /\ blank ref = false
           /\ GetProvisionEUBasis.provision_ref result = ref)
    /\ trim (GetProvisionEUBasis.provision_content result)
       = GetProvisionEUBasis.provision_content result
    /\ Forall
         (fun ref =>
            absent_or_nonempty (GetProvisionEUBasis.title ref)
            /\ absent_or_nonempty (GetProvisionEUBasis.short_name ref)
            /\ absent_or_nonempty (GetProvisionEUBasis.article ref)
            /\ absent_or_nonempty (GetProvisionEUBasis.context ref)
            /\ (GetProvisionEUBasis.full_citation ref = []
                -> GetProvisionEUBasis.id ref = []))
         (GetProvisionEUBasis.eu_references result).
Proof.
  intros Database ResponseMetadata meta resolve selprov selrefs variants db
         input response Hr result. subst result.
  unfold GetProvisionEUBasis.getProvisionEUBasis in Hr.
  destruct (truthy (GetProvisionEUBasis.input_document_id input));
    [|discriminate].
  cbn [negb] in Hr.
  destruct (GetProvisionEUBasis.input_provision_ref input) as [ref|] eqn:Ep;
    [|discriminate].
  cbn [option_map] in Hr.
  destruct (truthy (Some (trim ref))) eqn:Et; [|discriminate].
  cbn [negb] in Hr. cbv zeta in Hr.
  destruct (truthy (resolve db _)); [|discriminate]. cbn [negb] in Hr.
  destruct (selprov db _ _ _) as [[pid pcontent]|]; [|discriminate].
  injection Hr as <-.
  cbn [results GetProvisionEUBasis.provision_ref
       GetProvisionEUBasis.provision_content
       GetProvisionEUBasis.eu_references].
  split; [reflexivity|]. split; [|split].
  - exists ref. split; [reflexivity|]. split; [|reflexivity].
    destruct (blank ref) eqn:Eb; [|reflexivity].
    rewrite (trim_blank _ Eb) in Et. discriminate.
  - unfold cleanProvisionContent, fix_up. cbv zeta. apply trim_idem.
  - apply Forall_forall. intros r Hin. apply in_map_iff in Hin.
    destruct Hin as (row & <- & _).
    unfold GetProvisionEUBasis.reference_of.
    cbn [GetProvisionEUBasis.title GetProvisionEUBasis.short_name
         GetProvisionEUBasis.article GetProvisionEUBasis.context
         GetProvisionEUBasis.full_citation GetProvisionEUBasis.id].
    repeat (split; [apply when_truthy_nonempty|]).
    destruct (GetProvisionEUBasis.row_full_citation row) as [[|c w]|];
      cbn; auto; discriminate.
Qed.

Lemma getProvisionEUBasis_result_witness :
  let row :=
    {| GetProvisionEUBasis.row_id := js "regulation:2016/679";
       GetProvisionEUBasis.row_type := GetProvisionEUBasis.regulation;
       GetProvisionEUBasis.row_title := Some [];
       GetProvisionEUBasis.row_short_name := Some (js "DSGVO");
       GetProvisionEUBasis.row_eu_article := None;
       GetProvisionEUBasis.row_reference_type := js "implements";
       GetProvisionEUBasis.row_full_citation := None;
       GetProvisionEUBasis.row_reference_context := None |} in
  let input :=
    {| GetProvisionEUBasis.input_document_id := Some (js "DSG");
       GetProvisionEUBasis.input_provision_ref := Some (js "§ 1") |} in
  let result :=
    {| GetProvisionEUBasis.document_id := js "gesetz-10001597";
       GetProvisionEUBasis.provision_ref := js "§ 1";
       GetProvisionEUBasis.provision_content :=
         cleanProvisionContent (js "Jedermann hat Anspruch auf Geheimhaltung. § 1.");
       GetProvisionEUBasis.eu_references :=
         [GetProvisionEUBasis.reference_of row] |} in
  truthy (GetProvisionEUBasis.input_document_id input) = true
  /\ (exists ref,
         GetProvisionEUBasis.input_provision_ref input = Some ref
         /\ blank ref = false
         /\ GetProvisionEUBasis.provision_ref result = ref)
  /\ trim (GetProvisionEUBasis.provision_content result)
     = GetProvisionEUBasis.provision_content result
  /\ Forall
       (fun ref =>
          absent_or_nonempty (GetProvisionEUBasis.title ref)
          /\ absent_or_nonempty (GetProvisionEUBasis.short_name ref)
          /\ absent_or_nonempty (GetProvisionEUBasis.article ref)
          /\ absent_or_nonempty (GetProvisionEUBasis.context ref)
          /\ (GetProvisionEUBasis.full_citation ref = []
              -> GetProvisionEUBasis.id ref = []))
       (GetProvisionEUBasis.eu_references result).
Proof.
  intros row input result.
  apply (getProvisionEUBasis_result
           unit unit (fun _ => tt)
           (fun _ _ => Some (js "gesetz-10001597"))
           (fun _ _ _ _ =>
              Some (7%N, js "Jedermann hat Anspruch auf Geheimhaltung. § 1."))
           (fun _ _ => [row]) (fun _ => []) tt input
           {| results := result; _truncated := false; _total_hint := None;
              _metadata := tt |}).
  reflexivity.
Defined.

(** ** Reading a citation forwards *)

Section Forward.

Variable ic : bool.
Variable A : Type.

Lemma m_seq_eq r1 r2 p s cs (k : cont A) :
  m ic (Seq r1 r2) p s cs k
  = m ic r1 p s cs (fun p' s' cs' => m ic r2 p' s' cs' k).
Proof. reflexivity. Qed.

Lemma m_bol_eq s cs (k : cont A) : m ic Bol None s cs k = k None s cs.
Proof. reflexivity. Qed.

Lemma m_eps_eq p s cs (k : cont A) : m ic Eps p s cs k = k p s cs.
Proof. reflexivity. Qed.

Lemma m_end_eq p cs (k : cont A) :
  m ic (Seq Eol Eps) p [] cs k = k p [] cs.
Proof. reflexivity. Qed.

Lemma m_grp_eq i r p s cs (k : cont A) :
  m ic (Grp i r) p s cs k
  = m ic r p s cs
      (fun p' s' cs' =>
         k p' s' (set_cap i (firstn (length s - length s') s) cs')).
Proof. reflexivity. Qed.

(** A greedy repetition of a class reads the whole run of the class. *)
Lemma m_class_run (mn : nat) neg items (run rest : jstr) p cs (k : cont A)
      (res : A) :
  Forall (fun a => class_mem ic neg items a = true) run ->
  stops (class_mem ic neg items) rest ->
  mn <= length run ->
  k (prev_after p run) rest cs = Some res ->
  m ic (Rep true mn None (Cls neg items)) p (run ++ rest) cs k = Some res.
Proof.
  intros Hrun Hstop Hmn Hk. cbn [m groups].
  apply (rep_greedy_run (class_mem ic neg items) A (m ic (Cls neg items))
                        (cls_step ic A neg items)); auto.
  rewrite length_app. lia.
Qed.

Lemma m_dot_run (mn : nat) (run rest : jstr) p cs (k : cont A) (res : A) :
  Forall (fun a => not_terminator a = true) run ->
  stops not_terminator rest ->
  mn <= length run ->
  k (prev_after p run) rest cs = Some res ->
  m ic (Rep true mn None Dot) p (run ++ rest) cs k = Some res.
Proof.
  intros Hrun Hstop Hmn Hk. cbn [m groups].
  apply (rep_greedy_run not_terminator A (m ic Dot) (dot_step ic A)); auto.
  rewrite length_app. lia.
Qed.

(** A greedy repetition without minimum whose body fails is skipped. *)
Lemma m_rep_skip mx r p s cs (k : cont A) :
  (forall k' : cont A, m ic r p s (clear_caps (groups r) cs) k' = None) ->
  m ic (Rep true 0 mx r) p s cs k = k p s cs.
Proof.
  intro H. cbn [m rep Nat.add Nat.eqb negb].
  destruct mx as [[|n]|]; [reflexivity| |]; rewrite H; reflexivity.
Qed.

(** An optional class reads a character of the class. *)
Lemma m_opt_cls neg items (a : cu) (s : jstr) p cs (k : cont A) (res : A) :
  class_mem ic neg items a = true ->
  k (Some a) s cs = Some res ->
  m ic (opt (Cls neg items)) p (a :: s) cs k = Some res.
Proof.
  intros Ha Hk. unfold opt.
  cbn [m rep groups Nat.add length Nat.eqb negb andb option_map pred].
  rewrite clear_caps_nil, Ha.
  assert (E : Nat.eqb (length s) (S (length s)) = false)
    by (apply Nat.eqb_neq; lia).
  rewrite E, Hk. reflexivity.
Qed.

Lemma m_opt_chr (c a : cu) (s : jstr) p cs (k : cont A) (res : A) :
  chr_eq ic c a = true ->
  k (Some a) s cs = Some res ->
  m ic (opt (Chr c)) p (a :: s) cs k = Some res.
Proof.
  intros Ha Hk. unfold opt.
  cbn [m rep groups Nat.add length Nat.eqb negb andb option_map pred].
  rewrite clear_caps_nil, Ha.
  assert (E : Nat.eqb (length s) (S (length s)) = false)
    by (apply Nat.eqb_neq; lia).
  rewrite E, Hk. reflexivity.
Qed.

End Forward.

Lemma letter_az_class (a : cu) :
  is_letter a = true -> class_mem true false [CRange 97 122] a = true.
Proof.
  unfold class_mem, items_mem, is_letter. cbn [existsb item_mem xorb].
  rewrite !orb_false_r. unfold canon. intro H.
  destruct (is_lower a) eqn:E1.
  - unfold uncanon.
    assert (E3 : is_upper (a - 32) = true) by char_lia.
    rewrite E3. apply orb_true_iff. right.
    replace (a - 32 + 32)%N with a; [exact E1|].
    clear H E3. unfold is_lower, in_range in E1. bool_to_prop; lia.
  - cbn [orb] in H.
    assert (E2 : in_range 224 254 a && negb (a =? 247)%N = false)
      by char_lia.
    rewrite E2. unfold uncanon. rewrite H. apply orb_true_iff. right.
    char_lia.
Qed.

Lemma letter_not_digit_class (ic : bool) (a : cu) :
  is_letter a = true -> class_mem ic false [CDigit] a = false.
Proof.
  intro H. destruct (class_mem ic false [CDigit] a) eqn:E; [|reflexivity].
  apply digit_class_is_digit in E. unfold is_letter in H. char_lia.
Qed.

Lemma prev_after_snoc (p : option cu) (w : jstr) (a : cu) :
  prev_after p (w ++ [a]) = Some a.
Proof.
  unfold prev_after. destruct (w ++ [a]) eqn:E.
  - destruct w; discriminate.
  - rewrite <- E. now rewrite last_last.
Qed.

(** [[\d]+[a-z]?] reads a section number that is not followed by a
    digit or a letter, and the rest [R] of the pattern goes on from
    there. *)
Lemma machine_token_forward (A : Type) (R : regex) (d l rest : jstr) p cs
      (k : cont A) (res : A) :
  d <> [] -> Forall (fun c => is_digit c = true) d ->
  Forall (fun c => is_letter c = true) l -> length l <= 1 ->
  stops (class_mem true false [CDigit]) rest ->
  stops (class_mem true false [CRange 97 122]) rest ->
  m true R (prev_after p (d ++ l)) rest cs k = Some res ->
  m true (Seq (plus digit) (Seq (opt a_z) R)) p ((d ++ l) ++ rest) cs k
  = Some res.
Proof.
  intros Hd Hdig Hl Hlen Hs1 Hs2 Hk. rewrite m_seq_eq, <- app_assoc.
  unfold plus, digit. apply m_class_run.
  - eapply Forall_impl; [|exact Hdig]. intro a. apply digit_class.
  - destruct l as [|a l]; [exact Hs1|]. unfold stops. cbn [app].
    inversion Hl; subst. now apply letter_not_digit_class.
  - destruct d; [congruence|cbn; lia].
  - rewrite m_seq_eq. destruct l as [|a [|b l]]; [| |cbn in Hlen; lia].
    + cbn [app]. unfold opt, a_z. rewrite m_rep_skip.
      * now rewrite app_nil_r in Hk.
      * intro k'. rewrite cls_step. destruct rest as [|b rest];
          [reflexivity|]. unfold stops in Hs2. now rewrite Hs2.
    + inversion Hl; subst. cbn [app]. unfold a_z.
      apply m_opt_cls; [now apply letter_az_class|].
      now rewrite prev_after_snoc in Hk.
Qed.

Lemma bracket_fails (A : Type) (r : regex) p (s : jstr) cs (k : cont A) :
  stops (chr_eq true 40) s ->
  m true (Seq (chr "(") r) p s cs k = None.
Proof.
  intro H. rewrite m_seq_eq. unfold chr. cbn [m].
  destruct s as [|a s]; [reflexivity|]. unfold stops in H.
  change (N_of_ascii "(") with 40%N. now rewrite H.
Qed.

(** The pattern of [parseSection] reads a section number as group 1 and
    leaves the two other groups unset. *)
Lemma SECTION_REF_forward (d l : jstr) :
  d <> [] -> Forall (fun c => is_digit c = true) d ->
  Forall (fun c => is_letter c = true) l -> length l <= 1 ->
  re_match SECTION_REF (d ++ l)
  = Some {| m_index := 0; m_text := d ++ l; m_after := [];
            m_caps := [(1, d ++ l)] |}.
Proof.
  intros Hd Hdig Hl Hlen.
  assert (E : exec_at true (re_body SECTION_REF) None (d ++ l)
              = Some ([], [(1, d ++ l)])).
  { unfold exec_at, SECTION_REF, machine_token.
    cbn [re_body seqs fold_right]. rewrite m_seq_eq, m_bol_eq.
    rewrite m_seq_eq, m_grp_eq. rewrite <- (app_nil_r (d ++ l)) at 1.
    apply machine_token_forward; auto; try exact I.
    rewrite m_eps_eq. cbn [length]. rewrite Nat.sub_0_r, firstn_all.
    unfold opt.
    rewrite m_seq_eq, m_rep_skip
      by (intro k'; apply bracket_fails; exact I).
    rewrite m_seq_eq, m_rep_skip
      by (intro k'; apply bracket_fails; exact I).
    reflexivity. }
  unfold re_match. rewrite search_from_eq.
  change (re_ic SECTION_REF) with true. rewrite E.
  cbn [length]. now rewrite Nat.sub_0_r, firstn_all.
Qed.

Lemma m_chr_eq (ic : bool) (A : Type) c a p s cs (k : cont A) :
  chr_eq ic c a = true -> m ic (Chr c) p (a :: s) cs k = k (Some a) s cs.
Proof. intro H. cbn [m]. now rewrite H. Qed.

Lemma m_alt_left (ic : bool) (A : Type) r1 r2 p s cs (k : cont A) (res : A) :
  m ic r1 p s cs k = Some res -> m ic (Alt r1 r2) p s cs k = Some res.
Proof. intro H. cbn [m]. now rewrite H. Qed.

Lemma not_space_stops (ic : bool) (a : cu) (s : jstr) :
  is_space a = false -> stops (class_mem ic false [CSpace]) (a :: s).
Proof.
  intro H. unfold stops.
  destruct (class_mem ic false [CSpace] a) eqn:E; [|reflexivity].
  apply space_class_inv in E. congruence.
Qed.

(** The section-first form reads the section sign, a section number, a
    comma and a single-line title that begins with no whitespace. *)
Lemma SECTION_THEN_TITLE_forward (d l T : jstr) :
  d <> [] -> Forall (fun c => is_digit c = true) d ->
  Forall (fun c => is_letter c = true) l -> length l <= 1 ->
  T <> [] -> is_space (hd 0%N T) = false ->
  Forall (fun c => not_terminator c = true) T ->
  let x := js "§ " ++ (d ++ l) ++ js ", " ++ T in
  re_match SECTION_THEN_TITLE x
  = Some {| m_index := 0; m_text := x; m_after := [];
            m_caps := [(2, T); (1, d ++ l)] |}.
Proof.
  intros Hd Hdig Hl Hlen HT Hhd Hline x.
  assert (E : exec_at true (re_body SECTION_THEN_TITLE) None x
              = Some ([], [(2, T); (1, d ++ l)])).
  { subst x. unfold exec_at, SECTION_THEN_TITLE, section_keyword.
    cbn [re_body seqs fold_right alts].
    change (js "§ ") with [167%N; 32%N]. change (js ", ") with [44%N; 32%N].
    cbn [app]. rewrite m_seq_eq, m_bol_eq. cbv beta. rewrite m_seq_eq.
    apply m_alt_left. change (lit "§") with (Seq (Chr 167) Eps).
    rewrite m_seq_eq, m_chr_eq by reflexivity. cbv beta.
    rewrite m_eps_eq, m_seq_eq.
    change (32%N :: (d ++ l) ++ 44%N :: 32%N :: T)
      with ([32%N] ++ (d ++ l) ++ 44%N :: 32%N :: T).
    unfold star, space. apply m_class_run.
    { repeat constructor. }
    { destruct d as [|a d]; [congruence|]. inversion Hdig; subst.
      apply not_space_stops. now apply digit_not_space. }
    { cbn. lia. }
    rewrite m_seq_eq, m_grp_eq. unfold section_token.
    cbn [seqs fold_right].
    apply machine_token_forward; auto; try reflexivity.
    unfold star, opt.
    rewrite m_seq_eq, m_rep_skip
      by (intro k'; apply bracket_fails; reflexivity).
    rewrite m_seq_eq, m_rep_skip
      by (intro k'; apply bracket_fails; reflexivity).
    rewrite m_eps_eq. cbv beta. rewrite firstn_app_length, m_seq_eq.
    change (44%N :: 32%N :: T) with ([] ++ 44%N :: 32%N :: T).
    apply m_class_run; [constructor|reflexivity|cbn; lia|].
    cbn [app]. rewrite m_seq_eq. unfold chr.
    change (N_of_ascii ",") with 44%N.
    apply m_opt_chr; [reflexivity|]. rewrite m_seq_eq.
    change (32%N :: T) with ([32%N] ++ T).
    unfold plus. apply m_class_run.
    { repeat constructor. }
    { destruct T as [|t0 T']; [congruence|]. now apply not_space_stops. }
    { cbn. lia. }
    rewrite m_seq_eq, m_grp_eq. rewrite <- (app_nil_r T) at 1.
    apply m_dot_run; [exact Hline|exact I| |].
    { destruct T; [congruence|cbn; lia]. }
    rewrite m_end_eq. cbn [length]. now rewrite Nat.sub_0_r, firstn_all. }
  unfold re_match. rewrite search_from_eq.
  change (re_ic SECTION_THEN_TITLE) with true. rewrite E.
  cbn [length]. now rewrite Nat.sub_0_r, firstn_all.
Qed.

(** *** Trimmed strings *)

Lemma trimEnd_snoc_keep (w : jstr) (c : cu) :
  is_space c = false -> trimEnd (w ++ [c]) = w ++ [c].
Proof.
  intro H. unfold trimEnd. rewrite rev_app_distr. cbn [rev app drop_while].
  rewrite H. cbn [rev]. now rewrite rev_involutive.
Qed.

Lemma trim_ends_keep (a c : cu) (w : jstr) :
  is_space a = false -> is_space c = false ->
  trim (a :: w ++ [c]) = a :: w ++ [c].
Proof.
  intros Ha Hc. rewrite trim_cons_keep by assumption. f_equal.
  now apply trimEnd_snoc_keep.
Qed.

Lemma drop_while_length (f : cu -> bool) (l : jstr) :
  length (drop_while f l) <= length l.
Proof.
  induction l as [|x l IH]; [cbn; lia|]. cbn [drop_while].
  destruct (f x); cbn; lia.
Qed.

Lemma trimStart_fixed_head (t : jstr) :
  trimStart t = t -> t <> [] -> is_space (hd 0%N t) = false.
Proof.
  unfold trimStart. destruct t as [|a w]; [congruence|]. intros H _.
  cbn [hd]. cbn [drop_while] in H.
  destruct (is_space a); [|reflexivity].
  pose proof (drop_while_length is_space w) as Hl. rewrite H in Hl.
  cbn in Hl. lia.
Qed.

Lemma trim_fixed (t : jstr) :
  trim t = t -> trimStart t = t /\ trimEnd t = t.
Proof.
  intro H. split.
  - rewrite <- H at 1. unfold trim. rewrite trim_comm, trimStart_idem.
    exact H.
  - rewrite <- H at 1. unfold trim. rewrite trimEnd_idem. exact H.
Qed.

(** A non-empty trimmed string begins and ends with a character that is
    no whitespace. *)
Lemma trimmed_ends (t : jstr) :
  trim t = t -> t <> [] ->
  is_space (hd 0%N t) = false
  /\ exists t0 c, t = t0 ++ [c] /\ is_space c = false.
Proof.
  intros H Hne. destruct (trim_fixed t H) as [Hs He]. split.
  - now apply trimStart_fixed_head.
  - unfold trimEnd in He. apply (f_equal (@rev cu)) in He.
    rewrite rev_involutive in He.
    assert (Hr : rev t <> []).
    { intro E. apply (f_equal (@rev cu)) in E.
      rewrite rev_involutive in E. exact (Hne E). }
    pose proof (trimStart_fixed_head (rev t) He Hr) as Hh.
    destruct (rev t) as [|c r] eqn:Er; [congruence|].
    exists (rev r), c. split; [|exact Hh].
    apply (f_equal (@rev cu)) in Er. rewrite rev_involutive in Er.
    exact Er.
Qed.

(** *** Years *)

Lemma years_print :
  forallb (fun n => prints_as_year (1000 + Z.of_nat n)) (seq 0 (90 * 100))
  = true.
Proof. vm_compute. reflexivity. Qed.

Lemma year_prints (z : Z) :
  (1000 <= z <= 9999)%Z ->
  year_token (String_of_number (Num z))
  /\ year_value (String_of_number (Num z)) = Num z.
Proof.
  intro Hz. pose proof years_print as H.
  rewrite forallb_forall in H.
  specialize (H (Z.to_nat (z - 1000))).
  replace (1000 + Z.of_nat (Z.to_nat (z - 1000)))%Z with z in H by lia.
  assert (Hin : In (Z.to_nat (z - 1000)) (seq 0 (90 * 100)))
    by (apply in_seq; lia).
  specialize (H Hin). unfold prints_as_year in H. cbv zeta in H.
  apply andb_true_iff in H as [H H3]. apply andb_true_iff in H as [H1 H2].
  apply Nat.eqb_eq in H1. apply Z.eqb_eq in H3.
  rewrite forallb_forall in H2. split.
  - split; [exact H1|]. apply Forall_forall. exact H2.
  - unfold year_value. now rewrite H3.
Qed.

(** *** The round trip *)

Lemma section_number_trim (s : jstr) :
  section_number s ->
  starts_with_digit s /\ trim s = s.
Proof.
  intros (d & l & -> & Hd & Hdig & Hl & Hlen).
  destruct d as [|a d]; [congruence|]. inversion Hdig as [|? ? Ha Hdig'].
  subst. split; [exists a, (d ++ l); auto|].
  assert (Hns : Forall (fun c => is_space c = false) (d ++ l)).
  { apply Forall_app. split.
    - eapply Forall_impl; [|exact Hdig']. intro c. apply digit_not_space.
    - eapply Forall_impl; [|exact Hl]. intros c Hc. unfold is_letter in Hc.
      char_lia. }
  cbn [app]. rewrite trim_cons_keep by now apply digit_not_space.
  f_equal. destruct (rev (d ++ l)) as [|c r] eqn:Er.
  - apply (f_equal (@rev cu)) in Er. rewrite rev_involutive in Er.
    now rewrite Er.
  - apply (f_equal (@rev cu)) in Er. rewrite rev_involutive in Er.
    cbn [rev] in Er. rewrite Er. apply trimEnd_snoc_keep.
    rewrite Er in Hns. apply Forall_app in Hns. destruct Hns as [_ Hc].
    now inversion Hc.
Qed.

(** [parseSection] on a section number. *)
Lemma parseSection_number (s t : jstr) (y : option number) :
  section_number s -> trim t = t ->
  parseSection s (Some t) y statute = plain_citation s t y.
Proof.
  intros Hs Ht. destruct (section_number_trim s Hs) as [(a & w & E & Ha) Hts].
  unfold parseSection, plain_citation. cbn [option_map]. rewrite Ht.
  rewrite E, (PARA_PREFIX_digit _ _ Ha), <- E, Hts.
  destruct Hs as (d & l & -> & Hd & Hdig & Hl & Hlen).
  rewrite (SECTION_REF_forward d l Hd Hdig Hl Hlen).
  reflexivity.
Qed.

(** What the full style prints for a section number and a title. *)
Lemma formatCitation_plain (s t : jstr) (y : option number) :
  s <> [] -> t <> [] ->
  formatCitation (plain_citation s t y) full
  = js "§ " ++ s ++ js ", "
       ++ (if number_truthy y
           then t ++ js " " ++ String_of_number (nullish y NaN) else t).
Proof.
  intros Hs Ht. destruct s as [|a s]; [congruence|].
  destruct t as [|b t]; [congruence|].
  unfold formatCitation, plain_citation, buildPinpoint.
  cbn [valid section subsection paragraph title year truthy negb orb the
       nullish].
  destruct (number_truthy y); cbn [app join]; reflexivity.
Qed.

(** The citation string of a section number and a title parses to the
    number and what [splitYear] makes of the title. *)
Lemma parseCitation_number_title (s T : jstr) :
  section_number s ->
  T <> [] -> trim T = T -> Forall (fun c => not_terminator c = true) T ->
  parseCitation (js "§ " ++ s ++ js ", " ++ T)
  = parseSection s (Some (fst (splitYear T))) (snd (splitYear T)) statute.
Proof.
  intros Hs HT Htrim Hline.
  destruct (trimmed_ends T Htrim HT) as (Hhd & T0 & c & ET & Hc).
  destruct Hs as (d & l & -> & Hd & Hdig & Hl & Hlen).
  pose proof (SECTION_THEN_TITLE_forward d l T Hd Hdig Hl Hlen HT Hhd Hline)
    as Hm. cbv zeta in Hm.
  assert (Hx : trim (js "§ " ++ (d ++ l) ++ js ", " ++ T)
               = js "§ " ++ (d ++ l) ++ js ", " ++ T).
  { rewrite ET. change (js "§ ") with [167%N; 32%N]. cbn [app].
    assert (E : forall (b : cu) (X Y Z : jstr),
               b :: X ++ Y ++ Z ++ [c] = (b :: X ++ Y ++ Z) ++ [c])
      by (intros; cbn [app]; now rewrite !app_assoc).
    rewrite E. apply trim_ends_keep; [reflexivity|exact Hc]. }
  rewrite parseCitation_form1; rewrite Hx.
  - rewrite Hm. reflexivity.
  - unfold form_matches. rewrite Hm. cbn [grp m_caps get_cap Nat.eqb].
    destruct d; [congruence|]. destruct T; [congruence|]. reflexivity.
Qed.

Lemma splitYear_without_year (t : jstr) :
  trim t = t -> re_test YEAR_SUFFIX t = false -> splitYear t = (t, None).
Proof.
  intros Ht Hy. unfold splitYear. rewrite Ht. unfold re_test in Hy.
  destruct (re_match YEAR_SUFFIX t); [discriminate|]. reflexivity.
Qed.

Lemma digit_not_terminator (c : cu) :
  is_digit c = true -> not_terminator c = true.
Proof. intro H. unfold not_terminator. char_lia. Qed.

(** A trimmed single-line title followed by a space and a year token is
    a trimmed single-line title, which [splitYear] takes apart again. *)
Lemma title_with_year (t yyyy : jstr) :
  t <> [] -> trim t = t -> Forall (fun c => not_terminator c = true) t ->
  year_token yyyy ->
  let T := t ++ js " " ++ yyyy in
  T <> [] /\ trim T = T /\ Forall (fun c => not_terminator c = true) T
  /\ splitYear T = (t, Some (year_value yyyy)).
Proof.
  intros Hne Ht Hline Hy T.
  destruct (trimmed_ends t Ht Hne) as (Hhd & t0 & c & Et & Hc).
  assert (HT : trim T = T).
  { subst T. destruct Hy as [Hl Hd].
    destruct yyyy as [|y1 [|y2 [|y3 [|y4 [|? ?]]]]]; try discriminate.
    destruct t as [|a w]; [congruence|]. cbn [hd] in Hhd.
    change (js " ") with (@cons cu 32%N (@nil cu)).
    assert (E : forall b : cu,
               (a :: w) ++ [b] ++ [y1; y2; y3; y4]
               = a :: (w ++ [b; y1; y2; y3]) ++ [y4])
      by (intro b; cbn [app]; now rewrite <- app_assoc).
    rewrite E. apply trim_ends_keep; [exact Hhd|].
    apply digit_not_space.
    inversion Hd as [|? ? _ Q1]; inversion Q1 as [|? ? _ Q2];
      inversion Q2 as [|? ? _ Q3]; now inversion Q3. }
  split; [|split; [exact HT|split]].
  - subst T. destruct t; [congruence|discriminate].
  - subst T. apply Forall_app. split; [exact Hline|].
    apply Forall_app. split; [repeat constructor|].
    destruct Hy as [_ Hd]. eapply Forall_impl; [|exact Hd].
    intro a. apply digit_not_terminator.
  - rewrite (splitYear_ends_in_year T t (js " ") yyyy); [now rewrite Ht|].
    rewrite HT. split; [reflexivity|]. split; [eauto|].
    split; [discriminate|]. split; [repeat constructor|exact Hy].
Qed.

(** X21. Parsing undoes formatting: for a section number (digits and at
    most one letter), a non-empty trimmed single-line title and either no
    year, with a title that does not itself end in a year token, or a
    year of four digits, the full style prints a citation string that
    [parseCitation] reads back as the same citation. *)
Theorem format_parse_round_trip :
  forall (number_ title_ : jstr) (year_ : option number),
    section_number number_ ->
    title_ <> [] -> trim title_ = title_ ->
    Forall (fun c => not_terminator c = true) title_ ->
    (year_ = None /\ re_test YEAR_SUFFIX title_ = false)
    \/ (exists z, year_ = Some (Num z) /\ (1000 <= z <= 9999)%Z) ->
    parseCitation (formatCitation (plain_citation number_ title_ year_) full)
    = plain_citation number_ title_ year_.
Proof.
  intros s t y Hs Hne Ht Hline Hy.
  assert (Hsne : s <> []).
  { destruct Hs as (d & l & -> & Hd & _). destruct d; [congruence|discriminate]. }
  rewrite (formatCitation_plain s t y Hsne Hne).
  destruct Hy as [[-> Hy]|(z & -> & Hz)].
  - cbn [number_truthy].
    rewrite (parseCitation_number_title s t Hs Hne Ht Hline).
    rewrite (splitYear_without_year t Ht Hy). cbn [fst snd].
    now apply parseSection_number.
  - assert (Hz0 : (z =? 0)%Z = false) by (apply Z.eqb_neq; lia).
    cbn [number_truthy nullish]. rewrite Hz0. cbn [negb].
    destruct (year_prints z Hz) as [Hyt Hyv].
    destruct (title_with_year t _ Hne Ht Hline Hyt) as (H1 & H2 & H3 & H4).
    rewrite (parseCitation_number_title s _ Hs H1 H2 H3).
    rewrite H4, Hyv. cbn [fst snd]. now apply parseSection_number.
Qed.

Lemma format_parse_round_trip_witness :
  parseCitation
    (formatCitation
       (plain_citation (js "4a") (js "Datenschutzgesetz") (Some (Num 2000)))
       full)
  = plain_citation (js "4a") (js "Datenschutzgesetz") (Some (Num 2000)).
Proof.
  apply (format_parse_round_trip (js "4a") (js "Datenschutzgesetz")
                                 (Some (Num 2000))).
  - exists (js "4"), (js "a"). repeat split; try discriminate.
    + repeat constructor.
    + repeat constructor.
    + cbn. lia.
  - discriminate.
  - vm_compute. reflexivity.
  - vm_compute. repeat constructor.
  - right. exists 2000%Z. split; [reflexivity|lia].
Defined.

(** ** Citations without a title *)

(** Split the head off a sequence and record what the head reads. *)
Ltac peel_word H :=
  let Hh := fresh "Hh" in
  apply sem_seq_inv in H; destruct H as (? & ? & ? & Hh & H);
  apply sem_suffix in Hh; destruct Hh as [? ->].

Lemma no_space_plus_space ic R p (pre s : jstr) cs p' s' cs' :
  no_space (pre ++ s) ->
  ~ sem ic (Seq (plus space) R) p s cs p' s' cs'.
Proof.
  intros Hn H. apply sem_plus_head in H.
  destruct H as (b & w & -> & Hb). apply space_class_inv in Hb.
  apply Forall_app in Hn. destruct Hn as [_ Hn].
  inversion Hn; subst. congruence.
Qed.

(** The four forms with a title need whitespace: a string without
    whitespace matches none of them. *)
Lemma no_space_no_title (x : jstr) :
  no_space x ->
  re_match SECTION_THEN_TITLE x = None
  /\ re_match TITLE_THEN_SECTION x = None
  /\ re_match MACHINE_REF_THEN_TITLE x = None
  /\ re_match LEGACY_ENGLISH x = None.
Proof.
  intro Hn. repeat split.
  - destruct (re_match SECTION_THEN_TITLE x) as [r|] eqn:H; [|reflexivity].
    exfalso. open_match H SECTION_THEN_TITLE. revert Hn.
    do 6 peel_word H. rewrite !app_assoc. intro Hn.
    exact (no_space_plus_space _ _ _ _ _ _ _ _ _ Hn H).
  - destruct (re_match TITLE_THEN_SECTION x) as [r|] eqn:H; [|reflexivity].
    exfalso. open_match H TITLE_THEN_SECTION. revert Hn.
    do 2 peel_word H. rewrite !app_assoc. intro Hn.
    exact (no_space_plus_space _ _ _ _ _ _ _ _ _ Hn H).
  - destruct (re_match MACHINE_REF_THEN_TITLE x) as [r|] eqn:H;
      [|reflexivity].
    exfalso. open_match H MACHINE_REF_THEN_TITLE. revert Hn.
    do 5 peel_word H. rewrite !app_assoc. intro Hn.
    exact (no_space_plus_space _ _ _ _ _ _ _ _ _ Hn H).
  - destruct (re_match LEGACY_ENGLISH x) as [r|] eqn:H; [|reflexivity].
    exfalso. open_match H LEGACY_ENGLISH. revert Hn.
    do 2 peel_word H. rewrite !app_assoc. intro Hn.
    exact (no_space_plus_space _ _ _ _ _ _ _ _ _ Hn H).
Qed.

Lemma no_space_trim (x : jstr) : no_space x -> no_space (trim x).
Proof.
  intro H. apply Forall_forall. intros c Hc.
  unfold trim in Hc. apply trimEnd_In, trimStart_In in Hc.
  unfold no_space in H. rewrite Forall_forall in H. auto.
Qed.

(** X22. A citation written without any whitespace is never read with a
    title or a year: only the two bare forms can match it. *)
Theorem parseCitation_without_whitespace :
  forall citation : jstr,
    no_space citation ->
    title (parseCitation citation) = None
    /\ year (parseCitation citation) = None.
Proof.
  intros citation Hn. apply no_space_trim in Hn.
  destruct (no_space_no_title _ Hn) as (H1 & H2 & H3 & H4).
  unfold parseCitation. destruct (trim citation) as [|c t]; [auto|].
  rewrite H1, H2, H3, H4. cbn [grp truthy andb].
  destruct (re_test BARE_MACHINE_REF (c :: t)); [auto|].
  destruct (re_match BARE_SECTION (c :: t)); auto.
Qed.

Lemma parseCitation_without_whitespace_witness :
  title (parseCitation (js "§4a")) = None
  /\ year (parseCitation (js "§4a")) = None.
Proof.
  apply (parseCitation_without_whitespace (js "§4a")).
  vm_compute. repeat constructor.
Defined.

Lemma section_number_no_space (s : jstr) : section_number s -> no_space s.
Proof.
  intros (d & l & -> & _ & Hdig & Hl & _). apply Forall_app. split.
  - eapply Forall_impl; [|exact Hdig]. intro c. apply digit_not_space.
  - eapply Forall_impl; [|exact Hl]. intros c Hc. unfold is_letter in Hc.
    char_lia.
Qed.

(** The bare machine reference reads [para] and a section number. *)
Lemma BARE_MACHINE_REF_forward (d l : jstr) :
  d <> [] -> Forall (fun c => is_digit c = true) d ->
  Forall (fun c => is_letter c = true) l -> length l <= 1 ->
  re_test BARE_MACHINE_REF (js "para" ++ d ++ l) = true.
Proof.
  intros Hd Hdig Hl Hlen.
  assert (E : exec_at true (re_body BARE_MACHINE_REF) None
                      (js "para" ++ d ++ l)
              = Some ([], [])).
  { unfold exec_at, BARE_MACHINE_REF, machine_token.
    cbn [re_body seqs fold_right].
    change (js "para") with [112%N; 97%N; 114%N; 97%N]. cbn [app].
    change (lit "para")
      with (Seq (Chr 112) (Seq (Chr 97) (Seq (Chr 114) (Seq (Chr 97) Eps)))).
    rewrite m_seq_eq, m_bol_eq. cbv beta.
    rewrite m_seq_eq, m_seq_eq, m_chr_eq by reflexivity. cbv beta.
    rewrite m_seq_eq, m_chr_eq by reflexivity. cbv beta.
    rewrite m_seq_eq, m_chr_eq by reflexivity. cbv beta.
    rewrite m_seq_eq, m_chr_eq by reflexivity. cbv beta.
    rewrite m_eps_eq. rewrite <- (app_nil_r (d ++ l)).
    rewrite m_seq_eq.
    apply machine_token_forward; auto; try exact I. }
  unfold re_test, re_match. rewrite search_from_eq.
  change (re_ic BARE_MACHINE_REF) with true. now rewrite E.
Qed.

(** X23. A bare machine reference, [para] and a section number, is read
    as the citation of that section, without title and year. *)
Theorem parseCitation_machine_reference :
  forall number_ : jstr,
    section_number number_ ->
    parseCitation (js "para" ++ number_) = bare_citation number_.
Proof.
  intros s Hs.
  assert (Hn : no_space (js "para" ++ s)).
  { apply Forall_app. split; [repeat constructor|].
    now apply section_number_no_space. }
  assert (Ht : trim (js "para" ++ s) = js "para" ++ s).
  { destruct (section_number_trim s Hs) as [_ Hts].
    pose proof (section_number_no_space s Hs) as Hss.
    change (js "para") with [112%N; 97%N; 114%N; 97%N]. cbn [app].
    rewrite trim_cons_keep by reflexivity. f_equal.
    rewrite !trimEnd_cons_keep by reflexivity. do 3 f_equal.
    destruct (trim_fixed s Hts) as [_ He]. exact He. }
  destruct (no_space_no_title _ Hn) as (H1 & H2 & H3 & H4).
  unfold parseCitation. rewrite Ht.
  change (js "para") with [112%N; 97%N; 114%N; 97%N] at 1. cbn [app].
  change (112%N :: 97%N :: 114%N :: 97%N :: s) with (js "para" ++ s).
  rewrite H1, H2, H3, H4. cbn [grp truthy andb].
  pose proof Hs as (d & l & E & Hd & Hdig & Hl & Hlen).
  rewrite E at 1. rewrite (BARE_MACHINE_REF_forward d l Hd Hdig Hl Hlen).
  change (skipn 4 (js "para" ++ s)) with s.
  unfold parseSection, bare_citation. cbn [option_map].
  destruct (section_number_trim s Hs) as [(a & w & Es & Ha) Hts].
  rewrite Es, (PARA_PREFIX_digit _ _ Ha), <- Es, Hts.
  rewrite E, (SECTION_REF_forward d l Hd Hdig Hl Hlen).
  reflexivity.
Qed.

Lemma parseCitation_machine_reference_witness :
  parseCitation (js "para" ++ js "4a") = bare_citation (js "4a").
Proof.
  apply (parseCitation_machine_reference (js "4a")).
  exists (js "4"), (js "a"). repeat split; try discriminate.
  - repeat constructor.
  - repeat constructor.
  - cbn. lia.
Defined.

Lemma sem_chr_head ic c R p s cs p' s' cs' :
  sem ic (Seq (Chr c) R) p s cs p' s' cs' ->
  exists a w, s = a :: w /\ chr_eq ic c a = true.
Proof.
  intro H. apply sem_seq_inv in H. destruct H as (p1 & s1 & cs1 & Hc & _).
  apply sem_chr_inv in Hc. destruct Hc as (a & -> & Ha & _ & _). eauto.
Qed.

(** The keyword of a section begins with the section sign or with the
    letter P. *)
Lemma section_keyword_head p s cs p' s' cs' :
  sem true section_keyword p s cs p' s' cs' ->
  exists a w, s = a :: w
              /\ (chr_eq true 167 a = true \/ chr_eq true 80 a = true).
Proof.
  unfold section_keyword. cbn [alts]. intro H.
  apply sem_alt_inv in H. destruct H as [H|H].
  - change (lit "§") with (Seq (Chr 167) Eps) in H.
    apply sem_chr_head in H. destruct H as (a & w & -> & Ha). eauto.
  - apply sem_alt_inv in H. destruct H as [H|H].
    + change (lit "Paragraph") with (Seq (Chr 80) (lit "aragraph")) in H.
      apply sem_chr_head in H. destruct H as (a & w & -> & Ha). eauto.
    + change (lit "Paragraf") with (Seq (Chr 80) (lit "aragraf")) in H.
      apply sem_chr_head in H. destruct H as (a & w & -> & Ha). eauto.
Qed.

Lemma digit_chr_eq (pat a : cu) :
  is_digit a = true -> is_digit (canon pat) = false ->
  chr_eq true pat a = false.
Proof.
  intros Ha Hp. unfold chr_eq. rewrite (canon_digit_id a Ha).
  apply N.eqb_neq. intros E. rewrite E in Hp. congruence.
Qed.

Lemma after_section_sign (pre rest s : jstr) (a : cu) :
  pre ++ a :: rest = 167%N :: 32%N :: s -> is_digit a = true ->
  exists s1, s = s1 ++ a :: rest.
Proof.
  intros E Ha. destruct pre as [|p0 [|p1 pre]]; cbn in E.
  - injection E as -> _. discriminate.
  - injection E as _ -> _. discriminate.
  - injection E as _ _ <-. eauto.
Qed.

(** After the section sign, a space and a section number there is no
    room for a title. *)
Lemma bare_section_no_title (s : jstr) :
  section_number s ->
  re_match SECTION_THEN_TITLE (js "§ " ++ s) = None
  /\ re_match TITLE_THEN_SECTION (js "§ " ++ s) = None
  /\ re_match MACHINE_REF_THEN_TITLE (js "§ " ++ s) = None
  /\ re_match LEGACY_ENGLISH (js "§ " ++ s) = None
  /\ re_test BARE_MACHINE_REF (js "§ " ++ s) = false.
Proof.
  intro Hs. pose proof (section_number_no_space s Hs) as Hn.
  destruct (section_number_trim s Hs) as [(d0 & s' & Es & Hd0) _].
  change (js "§ ") with [167%N; 32%N]. cbn [app].
  match goal with
  | |- context [re_match SECTION_THEN_TITLE ?t] => remember t as x eqn:Ex
  end.
  split; [|split; [|split; [|split]]].
  - destruct (re_match SECTION_THEN_TITLE x) as [r|] eqn:H; [|reflexivity].
    exfalso. open_match H SECTION_THEN_TITLE. do 3 peel_word H.
    apply sem_seq_inv in H. destruct H as (p4 & s4 & cs4 & Hg & H).
    apply sem_grp_inv in Hg. destruct Hg as (cs5 & Hg & _).
    unfold section_token, seqs, plus, digit in Hg. cbn [fold_right] in Hg.
    apply sem_plus_head in Hg. destruct Hg as (a & w & -> & Ha).
    apply digit_class_is_digit in Ha.
    do 2 peel_word H. apply sem_plus_head in H.
    destruct H as (b & w' & -> & Hb). apply space_class_inv in Hb.
    rewrite !app_assoc in Ex.
    apply after_section_sign in Ex; [|exact Ha]. destruct Ex as [s1 Ex].
    rewrite Ex in Hn. unfold no_space in Hn. rewrite Forall_forall in Hn.
    rewrite (Hn b) in Hb; [discriminate|].
    apply in_or_app. right. right. apply in_or_app. right. now left.
  - destruct (re_match TITLE_THEN_SECTION x) as [r|] eqn:H; [|reflexivity].
    exfalso. open_match H TITLE_THEN_SECTION.
    apply sem_seq_inv in H. destruct H as (p1 & s1 & cs1 & Hb & H).
    apply sem_bol_inv in Hb. destruct Hb as (_ & -> & -> & ->).
    apply sem_seq_inv in H. destruct H as (p2 & s2 & cs2 & Hg & H).
    apply sem_grp_inv in Hg. destruct Hg as (cs3 & Hg & _).
    apply sem_rep_pos_inv in Hg. destruct Hg as (p3 & s3 & cs4 & Hdot & Hg).
    apply sem_dot_inv in Hdot. destruct Hdot as (t0 & Et & _).
    apply sem_suffix in Hg. destruct Hg as [T' ->].
    apply sem_seq_inv in H. destruct H as (p5 & s5 & cs5 & Hsp & H).
    apply (sem_rep_atom true space (class_mem true false [CSpace]) eq_refl
                        (cls_sem true false [CSpace])) in Hsp.
    destruct Hsp as (run & -> & Hrun & Hmin & _ & _).
    specialize (Hmin eq_refl).
    apply sem_seq_inv in H. destruct H as (p6 & s6 & cs6 & Hkw & _).
    apply section_keyword_head in Hkw.
    destruct Hkw as (c & rest & -> & Hc).
    assert (Hd0' : chr_eq true 167 d0 = false /\ chr_eq true 80 d0 = false)
      by (split; apply digit_chr_eq; auto).
    assert (Hsp : forall b, In b run -> In b s -> False).
    { intros b Hb1 Hb2. rewrite Forall_forall in Hrun.
      apply Hrun, space_class_inv in Hb1.
      unfold no_space in Hn. rewrite Forall_forall in Hn.
      rewrite (Hn b Hb2) in Hb1. discriminate. }
    rewrite Ex in Et. injection Et as _ Et.
    destruct run as [|r0 run]; [cbn in Hmin; lia|].
    destruct T' as [|t1 T'']; cbn [app] in Et; injection Et as E1 E2.
    + destruct run as [|r1 run]; cbn [app] in E2.
      * rewrite Es in E2. injection E2 as -> _.
        destruct Hd0' as [Q1 Q2]. destruct Hc; congruence.
      * apply (Hsp r1); [right; now left|]. rewrite E2. now left.
    + apply (Hsp r0); [now left|]. rewrite E2.
      apply in_or_app. right. now left.
  - destruct (re_match MACHINE_REF_THEN_TITLE x) as [r|] eqn:H;
      [|reflexivity].
    exfalso. open_match H MACHINE_REF_THEN_TITLE.
    apply sem_seq_inv in H. destruct H as (p1 & s1 & cs1 & Hb & H).
    apply sem_bol_inv in Hb. destruct Hb as (_ & -> & -> & ->).
    apply sem_seq_inv in H. destruct H as (p2 & s2 & cs2 & Hl & _).
    change (lit "para") with (Seq (Chr 112) (lit "ara")) in Hl.
    apply sem_chr_head in Hl. destruct Hl as (a & w & Ea & Ha).
    rewrite Ex in Ea. injection Ea as <- _. discriminate.
  - destruct (re_match LEGACY_ENGLISH x) as [r|] eqn:H; [|reflexivity].
    exfalso. open_match H LEGACY_ENGLISH.
    apply sem_seq_inv in H. destruct H as (p1 & s1 & cs1 & Hb & H).
    apply sem_bol_inv in Hb. destruct Hb as (_ & -> & -> & ->).
    apply sem_seq_inv in H. destruct H as (p2 & s2 & cs2 & Hl & _).
    cbn [alts] in Hl. apply sem_alt_inv in Hl. destruct Hl as [Hl|Hl].
    + change (lit "Section") with (Seq (Chr 83) (lit "ection")) in Hl.
      apply sem_chr_head in Hl. destruct Hl as (a & w & Ea & Ha).
      rewrite Ex in Ea. injection Ea as <- _. discriminate.
    + unfold chr in Hl. apply sem_chr_head in Hl.
      destruct Hl as (a & w & Ea & Ha).
      rewrite Ex in Ea. injection Ea as <- _. discriminate.
  - unfold re_test.
    destruct (re_match BARE_MACHINE_REF x) as [r|] eqn:H; [|reflexivity].
    exfalso. open_match H BARE_MACHINE_REF.
    apply sem_seq_inv in H. destruct H as (p1 & s1 & cs1 & Hb & H).
    apply sem_bol_inv in Hb. destruct Hb as (_ & -> & -> & ->).
    apply sem_seq_inv in H. destruct H as (p2 & s2 & cs2 & Hl & _).
    change (lit "para") with (Seq (Chr 112) (lit "ara")) in Hl.
    apply sem_chr_head in Hl. destruct Hl as (a & w & Ea & Ha).
    rewrite Ex in Ea. injection Ea as <- _. discriminate.
Qed.

(** The bare section form reads the section sign, a space and a section
    number. *)
Lemma BARE_SECTION_forward (d l : jstr) :
  d <> [] -> Forall (fun c => is_digit c = true) d ->
  Forall (fun c => is_letter c = true) l -> length l <= 1 ->
  re_match BARE_SECTION (js "§ " ++ d ++ l)
  = Some {| m_index := 0; m_text := js "§ " ++ d ++ l; m_after := [];
            m_caps := [(1, d ++ l)] |}.
Proof.
  intros Hd Hdig Hl Hlen.
  assert (E : exec_at true (re_body BARE_SECTION) None (js "§ " ++ d ++ l)
              = Some ([], [(1, d ++ l)])).
  { unfold exec_at, BARE_SECTION, section_keyword.
    cbn [re_body seqs fold_right alts].
    change (js "§ ") with [167%N; 32%N]. cbn [app].
    rewrite m_seq_eq, m_bol_eq. cbv beta. rewrite m_seq_eq.
    apply m_alt_left. change (lit "§") with (Seq (Chr 167) Eps).
    rewrite m_seq_eq, m_chr_eq by reflexivity. cbv beta.
    rewrite m_eps_eq, m_seq_eq.
    change (32%N :: d ++ l) with ([32%N] ++ d ++ l).
    unfold star, space. apply m_class_run.
    { repeat constructor. }
    { destruct d as [|a d]; [congruence|]. inversion Hdig; subst.
      apply not_space_stops. now apply digit_not_space. }
    { cbn. lia. }
    rewrite m_seq_eq, m_grp_eq. unfold section_token.
    cbn [seqs fold_right]. rewrite <- (app_nil_r (d ++ l)) at 1.
    apply machine_token_forward; auto; try exact I.
    unfold star, opt.
    rewrite m_seq_eq, m_rep_skip by (intro k'; apply bracket_fails; exact I).
    rewrite m_seq_eq, m_rep_skip by (intro k'; apply bracket_fails; exact I).
    rewrite m_eps_eq. cbv beta. cbn [length].
    rewrite Nat.sub_0_r, firstn_all. reflexivity. }
  unfold re_match. rewrite search_from_eq.
  change (re_ic BARE_SECTION) with true. rewrite E.
  cbn [length]. now rewrite Nat.sub_0_r, firstn_all.
Qed.

(** X24. A citation without title survives the round trip: every style
    prints the section sign, a space and the section number, and
    [parseCitation] reads that string back as the same citation. *)
Theorem bare_citation_round_trip :
  forall (number_ : jstr) (style : CitationFormat),
    section_number number_ ->
    formatCitation (bare_citation number_) style = js "§ " ++ number_
    /\ parseCitation (formatCitation (bare_citation number_) style)
       = bare_citation number_.
Proof.
  intros s style Hs.
  assert (Hf : formatCitation (bare_citation s) style = js "§ " ++ s).
  { destruct (section_number_trim s Hs) as [(a & w & -> & _) _].
    unfold formatCitation, bare_citation, buildPinpoint.
    cbn [valid section subsection paragraph title year truthy negb orb the
         nullish number_truthy app join].
    destruct style; reflexivity. }
  split; [exact Hf|]. rewrite Hf.
  destruct (bare_section_no_title s Hs) as (H1 & H2 & H3 & H4 & H5).
  destruct (section_number_trim s Hs) as [(a & w & Es & Ha) Hts].
  assert (Ht : trim (js "§ " ++ s) = js "§ " ++ s).
  { change (js "§ ") with [167%N; 32%N]. cbn [app].
    rewrite trim_cons_keep by reflexivity. f_equal.
    rewrite Es. rewrite trimEnd_cons by (cbn; now rewrite (digit_not_space a)).
    f_equal. rewrite <- Es. destruct (trim_fixed s Hts) as [_ He]. exact He. }
  unfold parseCitation. rewrite Ht.
  change (js "§ ") with [167%N; 32%N] at 1. cbn [app].
  change (167%N :: 32%N :: s) with (js "§ " ++ s).
  rewrite H1, H2, H3, H4, H5. cbn [grp truthy andb].
  pose proof Hs as (d & l & E & Hd & Hdig & Hl & Hlen).
  rewrite E at 1. rewrite (BARE_SECTION_forward d l Hd Hdig Hl Hlen).
  cbn [m_caps get_cap Nat.eqb the nullish]. rewrite <- E.
  unfold parseSection, bare_citation. cbn [option_map].
  rewrite Es, (PARA_PREFIX_digit _ _ Ha), <- Es, Hts.
  rewrite E, (SECTION_REF_forward d l Hd Hdig Hl Hlen).
  reflexivity.
Qed.

Lemma bare_citation_round_trip_witness :
  formatCitation (bare_citation (js "12")) short = js "§ " ++ js "12"
  /\ parseCitation (formatCitation (bare_citation (js "12")) short)
     = bare_citation (js "12").
Proof.
  apply (bare_citation_round_trip (js "12") short).
  exists (js "12"), []. repeat split; try discriminate.
  - repeat constructor.
  - constructor.
  - cbn. lia.
Defined.

(** ** Validation without title *)

Lemma chr_eq_hyphen (a : cu) : chr_eq true 45 a = true -> a = hyphen.
Proof.
  unfold chr_eq, hyphen. change (canon 45) with 45%N. unfold canon.
  destruct (is_lower a) eqn:E1;
    [|destruct (in_range 224 254 a && negb (a =? 247)%N) eqn:E2];
    intro H; apply N.eqb_eq in H.
  - exfalso. unfold is_lower, in_range in E1. bool_to_prop; lia.
  - exfalso. unfold in_range in E2. bool_to_prop; lia.
  - auto.
Qed.

Ltac chr_inv H :=
  let Hc := fresh "Hc" in
  apply sem_seq_inv in H; destruct H as (? & ? & ? & Hc & H);
  apply sem_chr_inv in Hc; destruct Hc as (?a & -> & ?Ha & _ & _).

(** A statute id holds a hyphen. *)
Lemma EXPLICIT_ID_hyphen (x : jstr) :
  ~ In hyphen x -> re_match EXPLICIT_ID x = None.
Proof.
  intro Hn. destruct (re_match EXPLICIT_ID x) as [r|] eqn:H; [|reflexivity].
  exfalso. apply Hn. unfold re_match in H. apply search_from_sound in H.
  destruct H as (pre & s0 & p0 & p' & -> & _ & _ & _ & _ & H).
  cbn [EXPLICIT_ID re_body seqs fold_right] in H.
  apply sem_seq_inv in H. destruct H as (p1 & s1 & cs1 & Hw & H).
  inv Hw. apply sem_seq_inv in H. destruct H as (p2 & s2 & cs2 & Hl & _).
  change (lit "gesetz-")
    with (Seq (Chr 103) (Seq (Chr 101) (Seq (Chr 115) (Seq (Chr 101)
           (Seq (Chr 116) (Seq (Chr 122) (Seq (Chr 45) Eps))))))) in Hl.
  do 6 chr_inv Hl. apply sem_chr_head in Hl.
  destruct Hl as (c & w & -> & Hc). apply chr_eq_hyphen in Hc. subst c.
  apply in_or_app. right. do 6 right. now left.
Qed.

(** X25. A citation that is read without a title and holds no hyphen,
    so that no statute id can stand in it, is never looked up: the result
    has no document and no provision, and for a valid parse the only
    warning asks for a title or a statute id. *)
Theorem validateCitation_needs_title_or_id :
  forall (Database : Type)
         (resolveExistingStatuteId : Database -> jstr -> option jstr)
         (select_document : Database -> jstr -> option Document)
         (select_provision : Database -> jstr -> list jstr -> list jstr -> bool)
         (case_variants : jstr -> list jstr)
         (db : Database) (citation : jstr),
    title (parseCitation citation) = None ->
    ~ In hyphen citation ->
    let r := validateCitation resolveExistingStatuteId select_document
                              select_provision case_variants db citation in
    document_exists r = false /\ provision_exists r = false
    /\ document_title r = None
    /\ (valid (parseCitation citation) = true ->
        warnings r
        = [js "Citation must include either a statute title or statute ID (e.g. gesetz-10001622)."]).
Proof.
  intros Database resolve seldoc selprov variants db citation Ht Hn r.
  subst r. unfold validateCitation. cbv zeta.
  destruct (valid (parseCitation citation)); cbn [negb].
  - unfold lookup_term. cbv zeta.
    rewrite Ht, (EXPLICIT_ID_hyphen _ Hn). cbn [option_map truthy negb].
    cbn [not_validated document_exists provision_exists document_title
         warnings]. auto.
  - cbn [not_validated document_exists provision_exists document_title
         warnings]. repeat split. discriminate.
Qed.

Lemma validateCitation_needs_title_or_id_witness :
  let r := validateCitation (fun (_ : unit) (t : jstr) => Some t)
                            (fun _ _ => None) (fun _ _ _ _ => true)
                            (fun _ => []) tt (js "§ 5") in
  document_exists r = false /\ provision_exists r = false
  /\ document_title r = None
  /\ (valid (parseCitation (js "§ 5")) = true ->
      warnings r
      = [js "Citation must include either a statute title or statute ID (e.g. gesetz-10001622)."]).
Proof.
  apply (validateCitation_needs_title_or_id
           unit (fun _ t => Some t) (fun _ _ => None) (fun _ _ _ _ => true)
           (fun _ => []) tt (js "§ 5")).
  - vm_compute. reflexivity.
  - vm_compute. intuition discriminate.
Defined.

(** ** The title-first form *)

(** What a pattern reads is made of characters that its atoms read. *)
Lemma sem_reads_only ic (f : cu -> bool) r p s cs p' s' cs' :
  sem ic r p s cs p' s' cs' ->
  reads_only ic f r ->
  exists w, s = w ++ s' /\ Forall (fun a => f a = true) w.
Proof.
  induction 1; cbn [reads_only]; intro Hr;
    try (exists []; split; [reflexivity|constructor]).
  - exists [a]. split; [reflexivity|]. repeat constructor. auto.
  - exists [a]. split; [reflexivity|]. repeat constructor. auto.
  - exists [a]. split; [reflexivity|]. repeat constructor. auto.
  - destruct Hr as [H1 H2].
    destruct (IHsem1 H1) as (w1 & -> & F1).
    destruct (IHsem2 H2) as (w2 & -> & F2).
    exists (w1 ++ w2). split; [now rewrite app_assoc|].
    apply Forall_app. auto.
  - destruct Hr as [H1 _]. auto.
  - destruct Hr as [_ H2]. auto.
  - destruct (IHsem1 Hr) as (w1 & -> & F1).
    destruct (IHsem2 Hr) as (w2 & -> & F2).
    exists (w1 ++ w2). split; [now rewrite app_assoc|].
    apply Forall_app. auto.
  - auto.
Qed.

Lemma chr_eq_not_space (c a : cu) :
  is_space c = false -> chr_eq true c a = true -> is_space a = false.
Proof.
  intros Hc H. unfold chr_eq in H. apply N.eqb_eq in H.
  destruct (is_space a) eqn:Ea; [|reflexivity].
  rewrite (canon_space a Ea) in H. rewrite <- H in Ea.
  apply canon_space_inv in Ea. congruence.
Qed.

Lemma chr_eq_mark (c a : cu) :
  is_space c = false -> is_digit (canon c) = false ->
  chr_eq true c a = true -> is_mark a = true.
Proof.
  intros Hs Hd H. unfold is_mark.
  rewrite (chr_eq_not_space c a Hs H). cbn [negb andb].
  destruct (is_digit a) eqn:Ea; [|reflexivity].
  rewrite (digit_chr_eq c a Ea Hd) in H. discriminate.
Qed.

Lemma lit_reads_marks (l : jstr) :
  Forall (fun c => is_space c = false /\ is_digit (canon c) = false) l ->
  reads_only true is_mark (fold_right (fun c r => Seq (Chr c) r) Eps l).
Proof.
  induction 1 as [|c l [Hs Hd] _ IH]; cbn [fold_right reads_only]; [exact I|].
  split; [|exact IH]. intro a. now apply chr_eq_mark.
Qed.

(** The keyword of a section is made of marks. *)
Lemma section_keyword_marks : reads_only true is_mark section_keyword.
Proof.
  unfold section_keyword. cbn [alts]. split; [|split]; unfold lit;
    apply lit_reads_marks; vm_compute; repeat constructor.
Qed.

Lemma letter_not_space (a : cu) : is_letter a = true -> is_space a = false.
Proof. intro H. unfold is_letter in H. char_lia. Qed.

(** The section token holds no whitespace. *)
Lemma section_token_no_space :
  reads_only true (fun a => negb (is_space a)) section_token.
Proof.
  assert (Hd : forall a, class_mem true false [CDigit] a = true
                         -> negb (is_space a) = true).
  { intros a H. apply digit_class_is_digit, digit_not_space in H.
    now rewrite H. }
  assert (Hl : forall a, class_mem true false [CRange 97 122] a = true
                         -> negb (is_space a) = true).
  { intros a H. apply az_class_letter, letter_not_space in H.
    now rewrite H. }
  assert (Hc : forall c a, is_space c = false -> chr_eq true c a = true
                           -> negb (is_space a) = true).
  { intros c a Hs H. now rewrite (chr_eq_not_space c a Hs H). }
  unfold section_token, seqs, plus, opt, star, digit, a_z, chr.
  cbn [fold_right reads_only].
  repeat split; auto; intro a; apply Hc; reflexivity.
Qed.

Lemma mark_not_space (a : cu) : is_mark a = true -> is_space a = false.
Proof.
  unfold is_mark. intro H. apply andb_true_iff in H as [H _].
  now apply negb_true_iff in H.
Qed.

Lemma mark_not_digit (a : cu) : is_mark a = true -> is_digit a = false.
Proof.
  unfold is_mark. intro H. apply andb_true_iff in H as [_ H].
  now apply negb_true_iff in H.
Qed.

Lemma Forall_mid (P : cu -> Prop) (l1 l2 : jstr) (a : cu) :
  Forall P (l1 ++ a :: l2) -> P a.
Proof.
  intro H. apply Forall_app in H. destruct H as [_ H]. now inversion H.
Qed.

(** After a title that ends with a character that is no whitespace, the
    text [b g b s], a space, the section sign, a space and a section
    number, cannot be split into whitespace, a keyword, whitespace and a
    token that begins with a digit in any way that starts inside the
    title. *)
Lemma title_first_clash (q c b g : cu) (q2 d l run K sp tok : jstr) (a : cu) :
  is_space c = false -> is_space b = true -> is_space g = false ->
  Forall (fun x => is_digit x = true) d ->
  Forall (fun x => is_letter x = true) l ->
  Forall (fun x => is_space x = true) run ->
  K <> [] -> Forall (fun x => is_mark x = true) K ->
  Forall (fun x => is_space x = true) sp ->
  no_space (a :: tok) -> is_digit a = true ->
  (q2 ++ [c]) ++ [b; g; b] ++ d ++ l = run ++ K ++ sp ++ a :: tok ->
  False.
Proof.
  intros Hc Hb Hg Hd Hl Hrun HK HKm Hsp Htok Ha E.
  assert (Hclash : run ++ K ++ sp = (q2 ++ [c]) ++ [b; g; b] -> False).
  { intro E1. apply app_eq_app in E1.
    destruct E1 as (l2 & [[E1 _]|[E1 E2]]).
    - rewrite E1 in Hrun. rewrite <- app_assoc in Hrun.
      apply Forall_mid in Hrun. congruence.
    - change [b; g; b] with ([b] ++ [g; b]) in E2.
      rewrite app_assoc in E2. apply app_eq_app in E2.
      destruct E2 as (l3 & [[E2 _]|[_ E3]]).
      + rewrite E2 in HKm. rewrite <- !app_assoc in HKm.
        apply Forall_mid, mark_not_space in HKm. congruence.
      + rewrite E3 in Hsp. apply Forall_mid in Hsp. congruence. }
  assert (E' : (run ++ K ++ sp) ++ a :: tok
               = ((q2 ++ [c]) ++ [b; g; b]) ++ d ++ l)
    by (rewrite <- !app_assoc; rewrite <- !app_assoc in E; now symmetry).
  apply app_eq_app in E'. destruct E' as (l1 & [[E1 E2]|[E1 E2]]).
  - destruct l1 as [|z l1 _] using rev_ind.
    { rewrite app_nil_r in E1. exact (Hclash E1). }
    assert (Hz : is_digit z = true).
    { apply app_eq_app in E2.
      destruct E2 as (l4 & [[E2 _]|[_ E3]]).
      - rewrite E2 in Hd. rewrite <- app_assoc in Hd.
        now apply Forall_mid in Hd.
      - exfalso. cbn [app] in E3. rewrite E3 in Hl.
        apply Forall_mid in Hl. unfold is_letter in Hl. char_lia. }
    destruct sp as [|y sp _] using rev_ind.
    + rewrite app_nil_r in E1.
      destruct K as [|k K _] using rev_ind; [congruence|].
      rewrite !app_assoc in E1. apply app_inj_tail in E1.
      destruct E1 as [_ ->]. apply Forall_mid, mark_not_digit in HKm.
      congruence.
    + rewrite !app_assoc in E1. apply app_inj_tail in E1.
      destruct E1 as [_ ->]. apply Forall_mid in Hsp.
      rewrite (digit_not_space z Hz) in Hsp. discriminate.
  - destruct l1 as [|z l1 _] using rev_ind.
    { rewrite app_nil_r in E1. symmetry in E1. exact (Hclash E1). }
    change [b; g; b] with ([b; g] ++ [b]) in E1.
    rewrite !app_assoc in E1. apply app_inj_tail in E1.
    destruct E1 as [_ ->]. rewrite <- app_assoc in E2.
    unfold no_space in Htok. rewrite E2 in Htok.
    apply Forall_mid in Htok. congruence.
Qed.

Lemma sem_chr_reads ic c R p s cs p' s' cs' :
  sem ic (Seq (Chr c) R) p s cs p' s' cs' -> exists a w, s = a :: w ++ s'.
Proof.
  intro H. apply sem_seq_inv in H. destruct H as (p1 & s1 & cs1 & Hc & Hr).
  apply sem_chr_inv in Hc. destruct Hc as (a & -> & _).
  apply sem_suffix in Hr. destruct Hr as [w ->]. eauto.
Qed.

(** The keyword of a section reads at least one character, and neither
    whitespace nor a digit. *)
Lemma section_keyword_reads p s cs p' s' cs' :
  sem true section_keyword p s cs p' s' cs' ->
  exists K, s = K ++ s' /\ K <> [] /\ Forall (fun a => is_mark a = true) K.
Proof.
  intro H.
  destruct (sem_reads_only _ _ _ _ _ _ _ _ _ H section_keyword_marks)
    as (K & E & HK).
  exists K. split; [exact E|]. split; [|exact HK].
  assert (Hne : exists a w, s = a :: w ++ s').
  { unfold section_keyword in H. cbn [alts] in H.
    apply sem_alt_inv in H. destruct H as [H|H].
    - change (lit "§") with (Seq (Chr 167) Eps) in H.
      now apply sem_chr_reads in H.
    - apply sem_alt_inv in H. destruct H as [H|H].
      + change (lit "Paragraph") with (Seq (Chr 80) (lit "aragraph")) in H.
        now apply sem_chr_reads in H.
      + change (lit "Paragraf") with (Seq (Chr 80) (lit "aragraf")) in H.
        now apply sem_chr_reads in H. }
  destruct Hne as (a & w & E'). intros ->. cbn [app] in E.
  rewrite E in E'. apply (f_equal (@length cu)) in E'.
  cbn [length] in E'. rewrite length_app in E'. lia.
Qed.

(** What the tail of the title-first form reads: whitespace, a keyword,
    whitespace and a token that begins with a digit and holds no
    whitespace, up to the end of the string. *)
Lemma section_tail_split p (x : jstr) cs p' s' cs' :
  sem true section_tail p x cs p' s' cs' ->
  exists run K sp a tok,
    x = run ++ K ++ sp ++ a :: tok
    /\ Forall (fun c => is_space c = true) run
    /\ K <> [] /\ Forall (fun c => is_mark c = true) K
    /\ Forall (fun c => is_space c = true) sp
    /\ no_space (a :: tok) /\ is_digit a = true.
Proof.
  unfold section_tail. intro H.
  apply sem_seq_inv in H. destruct H as (p1 & s1 & cs1 & Hrun & H).
  apply (sem_rep_atom true space (class_mem true false [CSpace]) eq_refl
                      (cls_sem true false [CSpace])) in Hrun.
  destruct Hrun as (run & -> & Hrun & _).
  apply sem_seq_inv in H. destruct H as (p2 & s2 & cs2 & Hkw & H).
  apply section_keyword_reads in Hkw. destruct Hkw as (K & -> & HK & HKm).
  apply sem_seq_inv in H. destruct H as (p3 & s3 & cs3 & Hsp & H).
  apply (sem_rep_atom true space (class_mem true false [CSpace]) eq_refl
                      (cls_sem true false [CSpace])) in Hsp.
  destruct Hsp as (sp & -> & Hsp & _).
  apply sem_seq_inv in H. destruct H as (p4 & s4 & cs4 & Hg & He).
  apply sem_end_inv in He. destruct He as (-> & _).
  apply sem_grp_inv in Hg. destruct Hg as (cs5 & Hg & _).
  destruct (sem_reads_only _ _ _ _ _ _ _ _ _ Hg section_token_no_space)
    as (tok & -> & Htok).
  unfold section_token in Hg. cbn [seqs fold_right] in Hg.
  apply sem_plus_head in Hg. destruct Hg as (a & w & E & Ha).
  rewrite !app_nil_r in E. subst tok.
  exists run, K, sp, a, w. split; [now rewrite app_nil_r|].
  split. { eapply Forall_impl; [|exact Hrun]. apply space_class_inv. }
  split; [exact HK|]. split; [exact HKm|].
  split. { eapply Forall_impl; [|exact Hsp]. apply space_class_inv. }
  split.
  - unfold no_space. eapply Forall_impl; [|exact Htok].
    intros b Hb. now apply negb_true_iff in Hb.
  - now apply digit_class_is_digit in Ha.
Qed.

(** The tail of the title-first form does not match from inside the
    title: between a character that is no whitespace and the section
    sign before a section number there is nowhere to begin. *)
Lemma section_tail_fails (A : Type) (q2 : jstr) (c : cu) (s : jstr) p cs
      (k : cont A) :
  is_space c = false -> section_number s ->
  m true section_tail p ((q2 ++ [c]) ++ js " § " ++ s) cs k = None.
Proof.
  intros Hc (d & l & -> & _ & Hd & Hl & _).
  destruct (m true section_tail p _ cs k) as [r|] eqn:H; [|reflexivity].
  exfalso. apply m_sound in H. destruct H as (p' & s' & cs' & H & _).
  apply section_tail_split in H.
  destruct H as (run & K & sp & a & tok & E & Hrun & HK & HKm & Hsp
                 & Htok & Ha).
  change (js " § ") with (@cons cu 32%N [167%N; 32%N]) in E.
  exact (title_first_clash c c 32%N 167%N q2 d l run K sp tok a Hc eq_refl
           eq_refl Hd Hl Hrun HK HKm Hsp Htok Ha E).
Qed.

(** A lazy repetition of [.] stops at the first length at which the
    rest of the pattern matches. *)
Lemma m_lazy_dot (A : Type) (mn : nat) (q rest : jstr) p cs (k : cont A)
      (res : A) :
  Forall (fun a => not_terminator a = true) q ->
  mn <= length q ->
  (forall q1 q2, q = q1 ++ q2 -> q2 <> [] -> mn <= length q1 ->
                 k (prev_after p q1) (q2 ++ rest) cs = None) ->
  k (prev_after p q) rest cs = Some res ->
  m true (Rep false mn None Dot) p (q ++ rest) cs k = Some res.
Proof.
  intros Hq Hmn Hfail Hk. cbn [m groups].
  apply (rep_lazy_run not_terminator A (m true Dot) (dot_step true A)); auto.
  rewrite length_app. lia.
Qed.

(** The tail of the title-first form reads a space, the section sign, a
    space and a section number, which it captures as group 2. *)
Lemma section_tail_forward (d l : jstr) p cs :
  d <> [] -> Forall (fun c => is_digit c = true) d ->
  Forall (fun c => is_letter c = true) l -> length l <= 1 ->
  m true section_tail p (js " § " ++ (d ++ l)) cs accept
  = Some ([], (2, d ++ l) :: cs).
Proof.
  intros Hd Hdig Hl Hlen. unfold section_tail, section_keyword.
  cbn [alts]. change (js " § ") with [32%N; 167%N; 32%N]. cbn [app].
  rewrite m_seq_eq.
  change (32%N :: 167%N :: 32%N :: d ++ l)
    with ([32%N] ++ 167%N :: 32%N :: d ++ l).
  unfold plus, space. apply m_class_run.
  { repeat constructor. }
  { now apply not_space_stops. }
  { cbn. lia. }
  rewrite m_seq_eq. apply m_alt_left.
  change (lit "§") with (Seq (Chr 167) Eps).
  rewrite m_seq_eq, m_chr_eq by reflexivity. cbv beta.
  rewrite m_eps_eq, m_seq_eq.
  change (32%N :: d ++ l) with ([32%N] ++ d ++ l).
  unfold star, space. apply m_class_run.
  { repeat constructor. }
  { destruct d as [|a d]; [congruence|]. inversion Hdig; subst.
    apply not_space_stops. now apply digit_not_space. }
  { cbn. lia. }
  rewrite m_seq_eq, m_grp_eq. unfold section_token.
  cbn [seqs fold_right]. rewrite <- (app_nil_r (d ++ l)) at 1.
  apply machine_token_forward; auto; try exact I.
  unfold star, opt.
  rewrite m_seq_eq, m_rep_skip by (intro k'; apply bracket_fails; exact I).
  rewrite m_seq_eq, m_rep_skip by (intro k'; apply bracket_fails; exact I).
  rewrite m_eps_eq. cbv beta. rewrite m_end_eq. cbn [length].
  now rewrite Nat.sub_0_r, firstn_all.
Qed.

(** The title-first form reads a single-line title that ends with no
    whitespace, a space, the section sign, a space and a section number:
    the title is group 1 and the number group 2. *)
Lemma TITLE_THEN_SECTION_forward (T0 : jstr) (c : cu) (s : jstr) :
  section_number s -> is_space c = false ->
  Forall (fun a => not_terminator a = true) (T0 ++ [c]) ->
  let x := (T0 ++ [c]) ++ js " § " ++ s in
  re_match TITLE_THEN_SECTION x
  = Some {| m_index := 0; m_text := x; m_after := [];
            m_caps := [(2, s); (1, T0 ++ [c])] |}.
Proof.
  intros Hs Hc Hline x.
  assert (E : exec_at true (re_body TITLE_THEN_SECTION) None x
              = Some ([], [(2, s); (1, T0 ++ [c])])).
  { subst x. unfold exec_at, TITLE_THEN_SECTION.
    cbn [re_body seqs fold_right].
    change (Seq (plus space)
              (Seq section_keyword
                 (Seq (star space) (Seq (Grp 2 section_token) (Seq Eol Eps)))))
      with section_tail.
    rewrite m_seq_eq, m_bol_eq. cbv beta. rewrite m_seq_eq, m_grp_eq.
    unfold lazy_plus. apply m_lazy_dot.
    - exact Hline.
    - rewrite length_app. cbn. lia.
    - intros q1 q2 Eq Hq2 _. cbv beta.
      destruct q2 as [|z q2 _] using rev_ind; [congruence|].
      rewrite app_assoc in Eq. apply app_inj_tail in Eq.
      destruct Eq as [_ <-]. now apply section_tail_fails.
    - cbv beta. rewrite firstn_app_length.
      destruct Hs as (d & l & -> & Hd & Hdig & Hl & Hlen).
      now apply section_tail_forward. }
  unfold re_match. rewrite search_from_eq.
  change (re_ic TITLE_THEN_SECTION) with true. rewrite E.
  cbn [length]. now rewrite Nat.sub_0_r, firstn_all.
Qed.

(** A citation written title first, [T § s], hands the section number
    [s] and the title [T] to [splitYear] and [parseSection], unless the
    section-first form reads it. *)
Lemma parseCitation_title_number (s T : jstr) :
  section_number s ->
  T <> [] -> trim T = T ->
  Forall (fun c => not_terminator c = true) T ->
  form_matches SECTION_THEN_TITLE (T ++ js " § " ++ s) = false ->
  parseCitation (T ++ js " § " ++ s)
  = parseSection s (Some (fst (splitYear T))) (snd (splitYear T)) statute.
Proof.
  intros Hs HT Htrim Hline Hform.
  destruct (trimmed_ends T Htrim HT) as (Hhd & T0 & c & ET & Hc).
  assert (Hx : trim (T ++ js " § " ++ s) = T ++ js " § " ++ s).
  { pose proof (section_number_no_space s Hs) as Hn.
    assert (Hsne : s <> []).
    { destruct Hs as (d & l & -> & Hd & _).
      destruct d; [congruence|discriminate]. }
    destruct (exists_last Hsne) as (s0 & z & Es).
    rewrite Es in Hn. apply Forall_mid in Hn.
    destruct T as [|t0 T']; [congruence|]. cbn [hd] in Hhd.
    rewrite Es. cbn [app].
    assert (E : forall (X Y Z : jstr) (b : cu),
               X ++ Y ++ Z ++ [b] = (X ++ Y ++ Z) ++ [b])
      by (intros; now rewrite !app_assoc).
    rewrite E. now apply trim_ends_keep. }
  subst T.
  pose proof (TITLE_THEN_SECTION_forward T0 c s Hs Hc Hline) as Hm.
  cbv zeta in Hm.
  rewrite parseCitation_form2; rewrite Hx.
  - rewrite Hm. reflexivity.
  - exact Hform.
  - unfold form_matches. rewrite Hm. cbn [grp m_caps get_cap Nat.eqb].
    destruct Hs as (d & l & -> & Hd & _).
    destruct d; [congruence|]. destruct T0; reflexivity.
Qed.

(** X26: a citation written title first, [T § s] with a section number
    [s] and a non-empty, trimmed, single-line title [T], parses to the
    same result as the section-first citation [§ s, T], provided the
    text is not itself read by the section-first form (which
    [parseCitation] tries before the title-first one). *)
Theorem title_first_form :
  forall s T : jstr,
    section_number s ->
    T <> [] -> trim T = T ->
    Forall (fun c => not_terminator c = true) T ->
    form_matches SECTION_THEN_TITLE (T ++ js " § " ++ s) = false ->
    parseCitation (T ++ js " § " ++ s)
    = parseCitation (js "§ " ++ s ++ js ", " ++ T).
Proof.
  intros s T Hs HT Htrim Hline Hform.
  rewrite (parseCitation_number_title s T Hs HT Htrim Hline).
  now apply parseCitation_title_number.
Qed.

Lemma title_first_form_witness :
  parseCitation (js "DSG" ++ js " § " ++ js "4a")
  = parseCitation (js "§ " ++ js "4a" ++ js ", " ++ js "DSG").
Proof.
  apply (title_first_form (js "4a") (js "DSG")).
  - exists (js "4"), (js "a"). repeat split; try discriminate.
    + repeat constructor.
    + repeat constructor.
    + cbn. lia.
  - discriminate.
  - vm_compute. reflexivity.
  - vm_compute. repeat constructor.
  - vm_compute. reflexivity.
Defined.

(* ================================================================= *)
(** * Function words and keyword lines *)


Lemma canon_lower (a : cu) : canon (lower a) = canon a.
Proof.
  unfold canon, lower.
  destruct (is_upper a) eqn:E1;
    [|destruct (in_range 192 222 a && negb (a =? 215)%N) eqn:E2].
  - destruct (is_lower (a + 32)) eqn:E3; [|exfalso; char_lia].
    destruct (is_lower a) eqn:E4; [exfalso; char_lia|].
    destruct (in_range 224 254 a && negb (a =? 247)%N) eqn:E5;
      [exfalso; char_lia|]. lia.
  - destruct (is_lower (a + 32)) eqn:E3; [exfalso; char_lia|].
    destruct (in_range 224 254 (a + 32) && negb (a + 32 =? 247)%N) eqn:E4;
      [|exfalso; char_lia].
    destruct (is_lower a) eqn:E5; [exfalso; char_lia|].
    destruct (in_range 224 254 a && negb (a =? 247)%N) eqn:E6;
      [exfalso; char_lia|]. lia.
  - reflexivity.
Qed.

Lemma lower_word_char (a : cu) : is_lower (lower a) = true -> is_word a = true.
Proof.
  unfold lower.
  destruct (is_upper a) eqn:E1;
    [|destruct (in_range 192 222 a && negb (a =? 215)%N) eqn:E2];
    intro H; unfold is_word; rewrite ?E1, ?H, ?orb_true_r; try reflexivity.
  exfalso. char_lia.
Qed.

(** A search finds a match when the pattern matches at some position,
    after the character that stands before that position. *)
Lemma search_from_finds_at ic r (s0 : jstr) :
  forall pre i p,
    exec_at ic r (prev_after p pre) s0 <> None ->
    search_from ic r i p (pre ++ s0) <> None.
Proof.
  induction pre as [|a pre IH]; intros i p Hm; rewrite search_from_eq.
  - cbn [app]. cbn [prev_after] in Hm.
    destruct (exec_at ic r p s0) as [[s' cs]|]; [discriminate|congruence].
  - destruct (exec_at ic r p ((a :: pre) ++ s0)) as [[s' cs]|];
      [discriminate|]. cbn [app]. apply IH.
    destruct pre as [|b pre]; exact Hm.
Qed.

(** An alternation matches when one of its branches does. *)
Lemma m_alts_finds ic (A : Type) (r : regex) p s cs (k : cont A) :
  forall rs,
    In r rs -> m ic r p s cs k <> None -> m ic (alts rs) p s cs k <> None.
Proof.
  induction rs as [|r0 rs IH]; intros Hin Hm; [contradiction|].
  destruct rs as [|r1 rs].
  - destruct Hin as [->|[]]. exact Hm.
  - change (alts (r0 :: r1 :: rs)) with (Alt r0 (alts (r1 :: rs))).
    cbn [m]. destruct (m ic r0 p s cs k) eqn:E0; [discriminate|].
    cbn [orelse]. destruct Hin as [->|Hin]; [congruence|]. now apply IH.
Qed.

Lemma m_wordb_eq ic (A : Type) p s cs (k : cont A) :
  xorb (is_word_opt p) (is_word_opt (hd_error s)) = true ->
  m ic WordB p s cs k = k p s cs.
Proof. intro H. cbn [m]. now rewrite H. Qed.

(** Under the [i] flag a literal in lower case reads a text of the same
    letters in any case. *)
Lemma m_lit_lower (A : Type) (post : jstr) cs (k : cont A) :
  forall (v : jstr) p,
    m true (fold_right (fun c r => Seq (Chr c) r) Eps (map lower v)) p
      (v ++ post) cs k
    = k (prev_after p v) post cs.
Proof.
  induction v as [|a v IH]; intro p; [reflexivity|].
  cbn [map fold_right app]. rewrite m_seq_eq, m_chr_eq.
  - cbv beta. rewrite IH. destruct v; reflexivity.
  - unfold chr_eq. rewrite canon_lower. apply N.eqb_refl.
Qed.

Lemma stops_before (pre : jstr) :
  stops is_word (rev pre) -> is_word_opt (prev_after None pre) = false.
Proof.
  destruct pre as [|c pre _] using rev_ind; [reflexivity|].
  rewrite rev_unit, prev_after_snoc. exact (fun H => H).
Qed.

Lemma stops_after (post : jstr) :
  stops is_word post -> is_word_opt (hd_error post) = false.
Proof. destruct post; [reflexivity|exact (fun H => H)]. Qed.

(** A text that reads, in lower case, as a word with ASCII letters at
    both ends begins and ends with a word character. *)
Lemma ascii_ended_word (v : jstr) :
  ascii_ended (map lower v) = true ->
  exists a v', v = a :: v' /\ is_word a = true
               /\ forall p, is_word_opt (prev_after p v) = true.
Proof.
  destruct v as [|a v']; [discriminate|]. cbn [map ascii_ended].
  intro H. apply andb_true_iff in H as [H1 H2].
  exists a, v'. split; [reflexivity|]. split; [now apply lower_word_char|].
  intro p. change (lower a :: map lower v') with (map lower (a :: v')) in H2.
  destruct (exists_last (l := a :: v')) as (v0 & z & E); [discriminate|].
  rewrite E in *. rewrite prev_after_snoc. cbn [is_word_opt].
  rewrite map_app in H2. cbn [map] in H2. rewrite last_last in H2.
  now apply lower_word_char.
Qed.

(** The guard of [isKeywordLine] sees every recognised function word
    that stands in the line as a word of its own. *)
Lemma FUNCTION_WORD_forward (line : jstr) :
  contains_function_word line -> re_test FUNCTION_WORD line = true.
Proof.
  intros (w & Hin & pre & v & post & -> & Hv & Hpre & Hpost).
  unfold recognised_function_words in Hin. apply filter_In in Hin.
  destruct Hin as [Hin Hends]. rewrite <- Hv in Hends.
  destruct (ascii_ended_word v Hends) as (a & v' & Ev & Ha & Hlast).
  unfold re_test, re_match.
  pose proof (search_from_finds_at (re_ic FUNCTION_WORD)
                (re_body FUNCTION_WORD) (v ++ post) pre 0 None) as H.
  destruct (search_from _ _ _ _ _); [reflexivity|].
  exfalso. apply H; [|reflexivity]. clear H.
  unfold exec_at.
  change (re_ic FUNCTION_WORD) with true.
  change (re_body FUNCTION_WORD)
    with (Seq WordB (Seq (alts (map lit function_words)) (Seq WordB Eps))).
  rewrite m_seq_eq, m_wordb_eq.
  - rewrite m_seq_eq. apply (m_alts_finds true _ (lit w)).
    + now apply in_map.
    + unfold lit. rewrite <- Hv, m_lit_lower, m_seq_eq, m_wordb_eq.
      * discriminate.
      * now rewrite Hlast, (stops_after post Hpost).
  - rewrite (stops_before pre Hpre), Ev. cbn [app hd_error is_word_opt].
    now rewrite Ha.
Qed.

(** *** Function words and trimming *)



Lemma not_blank_nonempty (l : jstr) : blank l = false -> l <> [].
Proof. intros H ->. discriminate H. Qed.








(** X13. A keyword line is a list of at least three comma-separated
    terms, none longer than 40 code units once trimmed, in which no
    recognised function word (any of the list but [gemäß] and [über])
    stands as a word of its own. *)
Theorem isKeywordLine_terms :
  forall line : jstr,
    isKeywordLine line = true ->
    3 <= length (split comma line)
    /\ Forall (fun term => length (trim term) <= 40) (split comma line)
    /\ ~ contains_function_word line.
Proof.
  intros line. unfold isKeywordLine.
  destruct (re_test KEYWORD_LINE_PATTERN line) eqn:Ek; cbn [negb];
    [|discriminate].
  destruct (existsb _ _) eqn:El; [discriminate|].
  destruct (re_test FUNCTION_WORD line) eqn:Ef; [discriminate|].
  intros _. split; [|split].
  - apply KEYWORD_LINE_PATTERN_commas in Ek. destruct Ek as (a & b & c & ->).
    unfold split.
    pose proof (split_go_length_sep comma a (b ++ comma :: c) []) as H1.
    pose proof (split_go_length_sep comma b c []) as H2.
    pose proof (split_go_length_pos comma c []) as H3. lia.
  - apply Forall_forall. intros term Hin.
    destruct (Nat.leb_spec (length (trim term)) 40) as [Hle|Hgt];
      [exact Hle|exfalso].
    assert (Hex : existsb (fun t => 40 <? length t)
                          (map trim (split comma line)) = true).
    { apply existsb_exists. exists (trim term). split.
      - now apply in_map.
      - now apply Nat.ltb_lt. }
    congruence.
  - intro Hw. apply FUNCTION_WORD_forward in Hw. congruence.
Qed.

Lemma isKeywordLine_terms_witness :
  3 <= length (split comma (js "Staatsform, Demokratie, Grundprinzip"))
  /\ Forall (fun term => length (trim term) <= 40)
            (split comma (js "Staatsform, Demokratie, Grundprinzip"))
  /\ ~ contains_function_word (js "Staatsform, Demokratie, Grundprinzip").
Proof.
  apply (isKeywordLine_terms (js "Staatsform, Demokratie, Grundprinzip")).
  vm_compute. reflexivity.
Defined.

(* ================================================================= *)
(** * Title and year in the four forms with a title *)

(** A literal reads its own text. *)
Lemma m_lit_same ic (A : Type) (post : jstr) cs (k : cont A) :
  forall (v : jstr) p,
    m ic (fold_right (fun c r => Seq (Chr c) r) Eps v) p (v ++ post) cs k
    = k (prev_after p v) post cs.
Proof.
  induction v as [|a v IH]; intro p; [reflexivity|].
  cbn [fold_right app]. rewrite m_seq_eq, m_chr_eq.
  - cbv beta. rewrite IH. destruct v; reflexivity.
  - unfold chr_eq. destruct ic; apply N.eqb_refl.
Qed.

Lemma m_chr_fail ic (A : Type) c a p s cs (k : cont A) :
  chr_eq ic c a = false -> m ic (Chr c) p (a :: s) cs k = None.
Proof. intro H. cbn [m]. now rewrite H. Qed.

Lemma m_alt_eq ic (A : Type) r1 r2 p s cs (k : cont A) :
  m ic (Alt r1 r2) p s cs k = orelse (m ic r1 p s cs k) (m ic r2 p s cs k).
Proof. reflexivity. Qed.

(** A pattern that begins with [^] matches at the start or nowhere. *)
Lemma anchored_fails ic r (s : jstr) :
  exec_at ic (Seq Bol r) None s = None ->
  search_from ic (Seq Bol r) 0 None s = None.
Proof.
  intro H. rewrite search_from_eq, H. destruct s; [reflexivity|].
  apply search_bol_later.
Qed.

Lemma no_match_no_form (re : jsregex) (x : jstr) :
  re_match re x = None -> form_matches re x = false.
Proof. intro H. unfold form_matches. now rewrite H. Qed.

(** A text whose first and last characters are no whitespace is
    trimmed. *)
Lemma trim_fixed_ends (x : jstr) :
  x <> [] -> is_space (hd 0%N x) = false -> is_space (last x 0%N) = false ->
  trim x = x.
Proof.
  intros Hne Hh Hl. destruct x as [|a w]; [congruence|]. cbn [hd] in Hh.
  destruct w as [|b w _] using rev_ind.
  - unfold trim, trimStart. cbn [drop_while]. rewrite Hh.
    unfold trimEnd. cbn [rev app drop_while]. now rewrite Hh.
  - rewrite app_comm_cons, last_last in Hl. now apply trim_ends_keep.
Qed.

Lemma year_token_last (d : jstr) :
  year_token d -> d <> [] /\ is_space (last d 0%N) = false.
Proof.
  intros [Hl Hd]. assert (Hne : d <> []) by (intros ->; discriminate Hl).
  split; [exact Hne|]. apply digit_not_space.
  exact (Forall_last _ d 0%N Hd Hne).
Qed.

Lemma section_number_last (s : jstr) :
  section_number s -> s <> [] /\ is_space (last s 0%N) = false.
Proof.
  intro Hs. pose proof (section_number_no_space s Hs) as Hn.
  assert (Hne : s <> []).
  { destruct Hs as (d & l & -> & Hd & _).
    destruct d; [congruence|discriminate]. }
  split; [exact Hne|]. exact (Forall_last _ s 0%N Hn Hne).
Qed.

(** ** Citations that the earlier forms do not read *)

(** The section-first form needs the section sign or the letter P at the
    start. *)
Lemma SECTION_THEN_TITLE_head (a : cu) (rest : jstr) :
  chr_eq true 167 a = false -> chr_eq true 80 a = false ->
  re_match SECTION_THEN_TITLE (a :: rest) = None.
Proof.
  intros H1 H2. unfold re_match, SECTION_THEN_TITLE.
  cbn [re_ic re_body seqs fold_right]. apply anchored_fails.
  unfold exec_at. rewrite m_seq_eq, m_bol_eq. cbv beta. rewrite m_seq_eq.
  unfold section_keyword. cbn [alts]. rewrite !m_alt_eq.
  change (lit "§") with (Seq (Chr 167) Eps).
  change (lit "Paragraph") with (Seq (Chr 80) (lit "aragraph")).
  change (lit "Paragraf") with (Seq (Chr 80) (lit "aragraf")).
  rewrite !m_seq_eq, !m_chr_fail by assumption. reflexivity.
Qed.

(** After [para] the keyword [Paragraph] goes on with a letter, a
    machine reference with a digit. *)
Lemma SECTION_THEN_TITLE_para (a : cu) (rest : jstr) :
  is_digit a = true ->
  re_match SECTION_THEN_TITLE (js "para" ++ a :: rest) = None.
Proof.
  intro Ha. unfold re_match, SECTION_THEN_TITLE.
  cbn [re_ic re_body seqs fold_right]. apply anchored_fails.
  unfold exec_at. rewrite m_seq_eq, m_bol_eq. cbv beta. rewrite m_seq_eq.
  unfold section_keyword. cbn [alts]. rewrite !m_alt_eq.
  change (js "para") with [112%N; 97%N; 114%N; 97%N]. cbn [app].
  change (lit "§") with (Seq (Chr 167) Eps).
  change (lit "Paragraph")
    with (Seq (Chr 80) (Seq (Chr 97) (Seq (Chr 114) (Seq (Chr 97)
            (Seq (Chr 103) (lit "raph")))))).
  change (lit "Paragraf")
    with (Seq (Chr 80) (Seq (Chr 97) (Seq (Chr 114) (Seq (Chr 97)
            (Seq (Chr 103) (lit "raf")))))).
  assert (Hg : chr_eq true 103 a = false)
    by (apply digit_chr_eq; [exact Ha|reflexivity]).
  rewrite (m_seq_eq true _ (Chr 167)), m_chr_fail by reflexivity.
  cbn [orelse].
  do 4 (rewrite !m_seq_eq, !m_chr_eq by reflexivity; cbv beta).
  rewrite !m_seq_eq, !m_chr_fail by exact Hg. reflexivity.
Qed.

(** The machine-reference form needs the letter P at the start. *)
Lemma MACHINE_REF_THEN_TITLE_head (a : cu) (rest : jstr) :
  chr_eq true 112 a = false ->
  re_match MACHINE_REF_THEN_TITLE (a :: rest) = None.
Proof.
  intro H. unfold re_match, MACHINE_REF_THEN_TITLE.
  cbn [re_ic re_body seqs fold_right]. apply anchored_fails.
  unfold exec_at. rewrite m_seq_eq, m_bol_eq. cbv beta. rewrite m_seq_eq.
  change (lit "para") with (Seq (Chr 112) (lit "ara")).
  rewrite m_seq_eq, m_chr_fail by exact H. reflexivity.
Qed.

(** ** The machine-reference and the legacy form, forwards *)

(** What follows the section token in three of the forms,
    [\s*,?\s+], reads a comma and a space before a title. *)
Lemma separator_forward (A : Type) (R : regex) (T : jstr) p cs (k : cont A)
      (res : A) :
  T <> [] -> is_space (hd 0%N T) = false ->
  m true R (Some 32%N) T cs k = Some res ->
  m true (Seq (star space) (Seq (opt (chr ",")) (Seq (plus space) R))) p
    (44%N :: 32%N :: T) cs k = Some res.
Proof.
  intros HT Hhd Hk. rewrite m_seq_eq.
  change (44%N :: 32%N :: T) with ([] ++ 44%N :: 32%N :: T).
  unfold star, space. apply m_class_run; [constructor|reflexivity|cbn; lia|].
  cbn [app]. rewrite m_seq_eq. unfold chr.
  change (N_of_ascii ",") with 44%N.
  apply m_opt_chr; [reflexivity|]. rewrite m_seq_eq.
  change (32%N :: T) with ([32%N] ++ T).
  unfold plus. apply m_class_run.
  - repeat constructor.
  - destruct T as [|t0 T']; [congruence|]. now apply not_space_stops.
  - cbn. lia.
  - exact Hk.
Qed.

(** The machine-reference form reads [para], a section number, a comma
    and a single-line title that begins with no whitespace. *)
Lemma MACHINE_REF_THEN_TITLE_forward (d l T : jstr) :
  d <> [] -> Forall (fun c => is_digit c = true) d ->
  Forall (fun c => is_letter c = true) l -> length l <= 1 ->
  T <> [] -> is_space (hd 0%N T) = false ->
  Forall (fun c => not_terminator c = true) T ->
  let x := js "para" ++ (d ++ l) ++ js ", " ++ T in
  re_match MACHINE_REF_THEN_TITLE x
  = Some {| m_index := 0; m_text := x; m_after := [];
            m_caps := [(2, T); (1, d ++ l)] |}.
Proof.
  intros Hd Hdig Hl Hlen HT Hhd Hline x.
  assert (E : exec_at true (re_body MACHINE_REF_THEN_TITLE) None x
              = Some ([], [(2, T); (1, d ++ l)])).
  { subst x. unfold exec_at, MACHINE_REF_THEN_TITLE.
    cbn [re_body seqs fold_right].
    change (js ", ") with [44%N; 32%N]. cbn [app].
    rewrite m_seq_eq, m_bol_eq. cbv beta. rewrite m_seq_eq.
    unfold lit. rewrite m_lit_same, m_seq_eq, m_grp_eq.
    apply machine_token_forward; auto; try reflexivity.
    rewrite m_eps_eq. cbv beta. rewrite firstn_app_length.
    apply separator_forward; [exact HT|exact Hhd|].
    rewrite m_seq_eq, m_grp_eq. rewrite <- (app_nil_r T) at 1.
    apply m_dot_run; [exact Hline|exact I| |].
    { destruct T; [congruence|cbn; lia]. }
    rewrite m_end_eq. cbn [length]. now rewrite Nat.sub_0_r, firstn_all. }
  unfold re_match. rewrite search_from_eq.
  change (re_ic MACHINE_REF_THEN_TITLE) with true. rewrite E.
  cbn [length]. now rewrite Nat.sub_0_r, firstn_all.
Qed.

(** The legacy form reads [Section], a section number, a comma, a
    single-line text and a year token after whitespace: the text is
    group 2 and the year token group 3. *)
Lemma LEGACY_ENGLISH_forward (d l p0 : jstr) (c : cu) (ws dd : jstr) :
  d <> [] -> Forall (fun a => is_digit a = true) d ->
  Forall (fun a => is_letter a = true) l -> length l <= 1 ->
  is_space (hd 0%N (p0 ++ [c])) = false -> is_space c = false ->
  Forall (fun a => not_terminator a = true) (p0 ++ [c]) ->
  ws <> [] -> Forall (fun a => is_space a = true) ws -> year_token dd ->
  let x := js "Section " ++ (d ++ l) ++ js ", " ++ (p0 ++ [c]) ++ ws ++ dd in
  re_match LEGACY_ENGLISH x
  = Some {| m_index := 0; m_text := x; m_after := [];
            m_caps := [(3, dd); (2, p0 ++ [c]); (1, d ++ l)] |}.
Proof.
  intros Hd Hdig Hl Hlen Hhd Hc Hline Hne Hws Hy x.
  assert (E : exec_at true (re_body LEGACY_ENGLISH) None x
              = Some ([], [(3, dd); (2, p0 ++ [c]); (1, d ++ l)])).
  { subst x. unfold exec_at, LEGACY_ENGLISH.
    cbn [re_body seqs fold_right alts].
    change (js "Section ") with (js "Section" ++ [32%N]).
    change (js ", ") with [44%N; 32%N]. rewrite <- app_assoc.
    rewrite m_seq_eq, m_bol_eq. cbv beta. rewrite m_seq_eq.
    apply m_alt_left. unfold lit. rewrite m_lit_same, m_seq_eq.
    unfold plus, space. apply m_class_run.
    { repeat constructor. }
    { destruct d as [|a d]; [congruence|]. inversion Hdig; subst.
      apply not_space_stops. now apply digit_not_space. }
    { cbn. lia. }
    rewrite m_seq_eq, m_grp_eq. unfold section_token.
    cbn [seqs fold_right app].
    apply machine_token_forward; auto; try reflexivity.
    unfold star, opt.
    rewrite m_seq_eq, m_rep_skip
      by (intro k'; apply bracket_fails; reflexivity).
    rewrite m_seq_eq, m_rep_skip
      by (intro k'; apply bracket_fails; reflexivity).
    rewrite m_eps_eq. cbv beta. rewrite firstn_app_length.
    apply separator_forward.
    { destruct p0; discriminate. }
    { destruct p0 as [|b p0]; cbn [app hd] in *; exact Hhd. }
    exact (legacy_tail_forward (p0 ++ [c]) ws dd c p0 eq_refl Hc Hne Hws Hy
                               (Some 32%N) [(1, d ++ l)] Hline). }
  unfold re_match. rewrite search_from_eq.
  change (re_ic LEGACY_ENGLISH) with true. rewrite E.
  cbn [length]. now rewrite Nat.sub_0_r, firstn_all.
Qed.

Lemma trimmed_last (t : jstr) :
  trim t = t -> t <> [] -> is_space (last t 0%N) = false.
Proof.
  intros Ht Hne. destruct (trimmed_ends t Ht Hne) as (_ & t0 & c & -> & Hc).
  now rewrite last_last.
Qed.

(** A machine reference or the legacy keyword before a section number, a
    comma and a trimmed title is a trimmed citation. *)
Lemma keyword_citation_trimmed (a : cu) (K s T : jstr) :
  is_space a = false -> T <> [] -> trim T = T ->
  trim ((a :: K) ++ s ++ js ", " ++ T) = (a :: K) ++ s ++ js ", " ++ T.
Proof.
  intros Ha HT Ht. apply trim_fixed_ends.
  - discriminate.
  - exact Ha.
  - rewrite !app_assoc, last_app_nonempty by exact HT.
    now apply trimmed_last.
Qed.

(** The machine-reference form hands section number and title to
    [splitYear] and [parseSection], unless the title-first form reads the
    citation. *)
Lemma parseCitation_machine_title (s T : jstr) :
  section_number s ->
  T <> [] -> trim T = T -> Forall (fun c => not_terminator c = true) T ->
  form_matches TITLE_THEN_SECTION (js "para" ++ s ++ js ", " ++ T) = false ->
  parseCitation (js "para" ++ s ++ js ", " ++ T)
  = parseSection s (Some (fst (splitYear T))) (snd (splitYear T)) statute.
Proof.
  intros Hs HT Htrim Hline H2.
  destruct (trimmed_ends T Htrim HT) as (Hhd & _).
  pose proof (keyword_citation_trimmed 112%N [97%N; 114%N; 97%N] s T
                eq_refl HT Htrim) as Hx.
  change (112%N :: [97%N; 114%N; 97%N]) with (js "para") in Hx.
  destruct Hs as (d & l & -> & Hd & Hdig & Hl & Hlen).
  pose proof (MACHINE_REF_THEN_TITLE_forward d l T Hd Hdig Hl Hlen HT Hhd
                Hline) as Hm. cbv zeta in Hm.
  rewrite parseCitation_form3; rewrite Hx.
  - rewrite Hm. reflexivity.
  - apply no_match_no_form. destruct d as [|a d]; [congruence|].
    inversion Hdig; subst. now apply SECTION_THEN_TITLE_para.
  - exact H2.
  - unfold form_matches. rewrite Hm. cbn [grp m_caps get_cap Nat.eqb].
    destruct d; [congruence|]. destruct T; [congruence|]. reflexivity.
Qed.

(** The legacy form takes the text before the year token as the title
    and the token as the year, unless the title-first form reads the
    citation. *)
Lemma parseCitation_legacy_year (s p ws d : jstr) :
  section_number s ->
  p <> [] -> trim p = p -> Forall (fun c => not_terminator c = true) p ->
  ws <> [] -> Forall (fun c => is_space c = true) ws -> year_token d ->
  form_matches TITLE_THEN_SECTION
               (js "Section " ++ s ++ js ", " ++ p ++ ws ++ d) = false ->
  year_extracted (parseCitation (js "Section " ++ s ++ js ", " ++ p ++ ws ++ d))
                 p d.
Proof.
  intros Hs Hp Htrim Hline Hne Hws Hy H2.
  destruct (trimmed_ends p Htrim Hp) as (Hhd & p0 & c & Ep & Hc).
  destruct (year_token_last d Hy) as [Hdne Hdl].
  assert (Hx : trim (js "Section " ++ s ++ js ", " ++ p ++ ws ++ d)
               = js "Section " ++ s ++ js ", " ++ p ++ ws ++ d).
  { apply trim_fixed_ends.
    - discriminate.
    - reflexivity.
    - rewrite !app_assoc, last_app_nonempty by exact Hdne. exact Hdl. }
  destruct Hs as (d0 & l & -> & Hd & Hdig & Hl & Hlen).
  subst p.
  pose proof (LEGACY_ENGLISH_forward d0 l p0 c ws d Hd Hdig Hl Hlen Hhd Hc
                Hline Hne Hws Hy) as Hm. cbv zeta in Hm.
  rewrite parseCitation_form4; rewrite Hx.
  - rewrite Hm. cbn [grp m_caps get_cap Nat.eqb truthy the nullish].
    destruct d as [|y0 d']; [congruence|]. cbn [truthy].
    split; [reflexivity|]. cbn [year parseSection].
    now rewrite (parseInt10_year _ Hy).
  - apply no_match_no_form. now apply SECTION_THEN_TITLE_head.
  - exact H2.
  - apply no_match_no_form. now apply MACHINE_REF_THEN_TITLE_head.
  - unfold form_matches. rewrite Hm. cbn [grp m_caps get_cap Nat.eqb].
    destruct d0; [congruence|]. destruct p0; reflexivity.
Qed.

(** A trimmed single-line text, whitespace without line break and a year
    token make a trimmed single-line title that ends in a year. *)
Lemma title_ends_in_year (p ws d : jstr) :
  p <> [] -> trim p = p -> Forall (fun c => not_terminator c = true) p ->
  ws <> [] -> Forall (fun c => is_space c = true) ws ->
  Forall (fun c => not_terminator c = true) ws -> year_token d ->
  let T := p ++ ws ++ d in
  T <> [] /\ trim T = T /\ Forall (fun c => not_terminator c = true) T
  /\ ends_in_year (trim T) p ws d.
Proof.
  intros Hp Htrim Hline Hne Hws Hwl Hy T.
  destruct (trimmed_ends p Htrim Hp) as (Hhd & p0 & c & Ep & Hc).
  destruct (year_token_last d Hy) as [Hdne Hdl].
  assert (HT : T <> []).
  { subst T. destruct p; [congruence|discriminate]. }
  assert (HTt : trim T = T).
  { apply trim_fixed_ends; [exact HT| |].
    - subst T. destruct p; [congruence|exact Hhd].
    - subst T. rewrite !app_assoc, last_app_nonempty by exact Hdne.
      exact Hdl. }
  split; [exact HT|]. split; [exact HTt|]. split.
  - subst T. apply Forall_app. split; [exact Hline|].
    apply Forall_app. split; [exact Hwl|].
    destruct Hy as [_ Hd]. eapply Forall_impl; [|exact Hd].
    intro a. apply digit_not_terminator.
  - rewrite HTt. split; [reflexivity|]. split; [eauto|]. auto.
Qed.

(** C6 (as amended). ["Section 3, Data Protection Act 2018"] parses to
    section 3, title "Data Protection Act" and year 2018. In each of the
    four grammar forms that carry a title, a title string made of a text,
    whitespace and a bare 4-digit token gives the token as the year and
    the text, trimmed, as the title: for the first three forms the title
    string is the title capture, for the legacy English form it is the
    input after keyword, section token and separator. And each form does
    read such citations: for a section number [s], a trimmed single-line
    text [p], whitespace [ws] without line break and a year token [d],
    the citations [§ s, p ws d], [p ws d § s], [para s, p ws d] and
    [Section s, p ws d] parse to the title [p] and the year of [d], the
    second unless the section-first form reads it, the last two unless
    the title-first form reads them. *)
Theorem title_year_separation :
  parseCitation (js "Section 3, Data Protection Act 2018")
  = {| valid := true; type := statute;
       title := Some (js "Data Protection Act"); year := Some (Num 2018);
       section := Some (js "3"); subsection := None; paragraph := None;
       error := None |}
  /\ (forall citation : jstr,
      let x := trim citation in
      let r := parseCitation citation in
      (form_matches SECTION_THEN_TITLE x = true ->
       forall p ws d,
         ends_in_year (trim (the (grp 2 (re_match SECTION_THEN_TITLE x))))
                      p ws d ->
         year_extracted r p d)
      /\ (form_matches SECTION_THEN_TITLE x = false ->
          form_matches TITLE_THEN_SECTION x = true ->
          forall p ws d,
            ends_in_year (trim (the (grp 1 (re_match TITLE_THEN_SECTION x))))
                         p ws d ->
            year_extracted r p d)
      /\ (form_matches SECTION_THEN_TITLE x = false ->
          form_matches TITLE_THEN_SECTION x = false ->
          form_matches MACHINE_REF_THEN_TITLE x = true ->
          forall p ws d,
            ends_in_year
              (trim (the (grp 2 (re_match MACHINE_REF_THEN_TITLE x))))
              p ws d ->
            year_extracted r p d)
      /\ (form_matches SECTION_THEN_TITLE x = false ->
          form_matches TITLE_THEN_SECTION x = false ->
          form_matches MACHINE_REF_THEN_TITLE x = false ->
          form_matches LEGACY_ENGLISH x = true ->
          exists T p1 cs1,
            sem true legacy_head None x [] p1 T cs1
            /\ forall p ws d,
                ends_in_year T p ws d -> year_extracted r p d))
  /\ (forall s p ws d : jstr,
      section_number s ->
      p <> [] -> trim p = p -> Forall (fun c => not_terminator c = true) p ->
      ws <> [] -> Forall (fun c => is_space c = true) ws ->
      Forall (fun c => not_terminator c = true) ws ->
      year_token d ->
      let T := p ++ ws ++ d in
      year_extracted (parseCitation (js "§ " ++ s ++ js ", " ++ T)) p d
      /\ (form_matches SECTION_THEN_TITLE (T ++ js " § " ++ s) = false ->
          year_extracted (parseCitation (T ++ js " § " ++ s)) p d)
      /\ (form_matches TITLE_THEN_SECTION (js "para" ++ s ++ js ", " ++ T)
          = false ->
          year_extracted (parseCitation (js "para" ++ s ++ js ", " ++ T)) p d)
      /\ (form_matches TITLE_THEN_SECTION (js "Section " ++ s ++ js ", " ++ T)
          = false ->
          year_extracted (parseCitation (js "Section " ++ s ++ js ", " ++ T))
                         p d)).
Proof.
  split; [exact parse_data_protection_act|].
  split; [exact title_year_by_form|].
  intros s p ws d Hs Hp Htrim Hline Hne Hws Hwl Hy T.
  destruct (title_ends_in_year p ws d Hp Htrim Hline Hne Hws Hwl Hy)
    as (HT & HTt & HTl & He).
  fold T in HT, HTt, HTl, He.
  split; [|split; [|split]].
  - rewrite (parseCitation_number_title s T Hs HT HTt HTl).
    exact (splitYear_extracted _ _ p ws d He).
  - intro H1. rewrite (parseCitation_title_number s T Hs HT HTt HTl H1).
    exact (splitYear_extracted _ _ p ws d He).
  - intro H2. rewrite (parseCitation_machine_title s T Hs HT HTt HTl H2).
    exact (splitYear_extracted _ _ p ws d He).
  - intro H2.
    exact (parseCitation_legacy_year s p ws d Hs Hp Htrim Hline Hne Hws Hy
                                     H2).
Qed.

(** C6 (as amended) on "Data Protection Act 2018" in the four forms. *)
Lemma title_year_separation_witness :
  let p := js "Data Protection Act" in
  let d := js "2018" in
  year_extracted (parseCitation (js "§ 3, Data Protection Act 2018")) p d
  /\ year_extracted (parseCitation (js "Data Protection Act 2018 § 3")) p d
  /\ year_extracted (parseCitation (js "para3, Data Protection Act 2018")) p d
  /\ year_extracted (parseCitation (js "Section 3, Data Protection Act 2018"))
                    p d.
Proof.
  cbv zeta.
  destruct (proj2 (proj2 title_year_separation)
                  (js "3") (js "Data Protection Act") (js " ") (js "2018"))
    as (F1 & F2 & F3 & F4).
  - exists (js "3"), []. repeat split; try discriminate.
    + repeat constructor.
    + constructor.
    + cbn. lia.
  - discriminate.
  - vm_compute. reflexivity.
  - vm_compute. repeat constructor.
  - discriminate.
  - repeat constructor.
  - repeat constructor.
  - split; [reflexivity|repeat constructor].
  - split; [exact F1|]. split; [apply F2; vm_compute; reflexivity|].
    split; [apply F3; vm_compute; reflexivity|].
    apply F4. vm_compute. reflexivity.
Defined.

(** C6 (as stated) fails for a title string that is nothing but a
    4-digit token: no whitespace stands before the token, so it stays the
    title and no year is set, in the section-first as in the legacy
    form. *)
Lemma title_year_counterexample :
  parseCitation (js "§ 1 2018")
  = {| valid := true; type := statute;
       title := Some (js "2018"); year := None;
       section := Some (js "1"); subsection := None; paragraph := None;
       error := None |}
  /\ parseCitation (js "Section 3, 2018")
     = {| valid := true; type := statute;
          title := Some (js "2018"); year := None;
          section := Some (js "3"); subsection := None; paragraph := None;
          error := None |}.
Proof. split; vm_compute; reflexivity. Qed.

(* ================================================================= *)
(** * The content cleaner: when cleaning twice changes nothing *)

(** ** Lengths *)

Lemma trim_length (s : jstr) : length (trim s) <= length s.
Proof.
  unfold trim, trimEnd, trimStart. rewrite length_rev.
  pose proof (drop_while_length is_space (rev (drop_while is_space s))) as H1.
  pose proof (drop_while_length is_space s) as H2.
  rewrite length_rev in H1. lia.
Qed.

(** Cleaned text is never longer than the joined content lines. *)
Lemma cleaned_length (content : jstr) :
  length (cleanProvisionContent content)
  <= length (join [newline] (content_lines content)).
Proof.
  destruct (cleaned_is_trimmed_prefix content) as [k ->].
  pose proof (trim_length
                (firstn k (trim (join [newline] (content_lines content)))))
    as H1.
  pose proof (trim_length (join [newline] (content_lines content))) as H2.
  pose proof (length_firstn
                k (trim (join [newline] (content_lines content)))) as H3.
  lia.
Qed.

(** Lines that are added to a text make it longer. *)
Lemma join_app_length (K D : list jstr) :
  D <> [] -> Forall (fun x => x <> []) D ->
  length (join [newline] K) < length (join [newline] (K ++ D)).
Proof.
  intros HD HF. induction K as [|k0 K IH].
  - destruct D as [|d D]; [congruence|]. inversion HF; subst.
    cbn [app join length]. destruct d as [|c d]; [congruence|].
    destruct D; cbn [app length]; lia.
  - destruct K as [|k1 K].
    + destruct D as [|d D]; [congruence|].
      cbn [app join]. rewrite !length_app. cbn [length]. lia.
    + change (join [newline] ((k0 :: k1 :: K) ++ D))
        with (k0 ++ [newline] ++ join [newline] ((k1 :: K) ++ D)).
      change (join [newline] (k0 :: k1 :: K))
        with (k0 ++ [newline] ++ join [newline] (k1 :: K)).
      rewrite !length_app. lia.
Qed.

(** ** The lines of a prefix *)

(** The lines of a prefix of a text, but for the last one, are lines of
    the text. *)
Lemma split_go_prefix (P : jstr -> Prop) (sep : cu) :
  forall (u v cur : jstr),
    Forall P (split_go sep cur (u ++ v)) ->
    Forall P (removelast (split_go sep cur u)).
Proof.
  induction u as [|c u IH]; intros v cur H; [constructor|].
  cbn [app split_go] in *. destruct (c =? sep)%N.
  - inversion H as [|? ? Hx Hr]; subst.
    pose proof (split_go_nonempty sep u []) as Hne.
    specialize (IH v [] Hr).
    destruct (split_go sep [] u) as [|x l]; [congruence|].
    now constructor.
  - eapply IH. exact H.
Qed.

Lemma drop_while_suffix (f : cu -> bool) (l : jstr) :
  exists ws, l = ws ++ drop_while f l.
Proof.
  induction l as [|c l [ws IH]]; [now exists []|]. cbn [drop_while].
  destruct (f c).
  - exists (c :: ws). cbn [app]. now rewrite <- IH.
  - now exists [].
Qed.

Lemma trimEnd_prefix (s : jstr) : exists ws, s = trimEnd s ++ ws.
Proof.
  unfold trimEnd. destruct (drop_while_suffix is_space (rev s)) as [ws E].
  exists (rev ws). rewrite <- rev_app_distr, <- E. symmetry.
  apply rev_involutive.
Qed.

(** A prefix of a trimmed text has nothing to trim at its start. *)
Lemma trimStart_firstn (k : nat) (s : jstr) :
  trim s = s -> trimStart (firstn k s) = firstn k s.
Proof.
  intro H. destruct s as [|a s]; [now rewrite firstn_nil|].
  destruct k as [|k]; [reflexivity|].
  assert (Ha : is_space a = false).
  { destruct (trim_fixed _ H) as [Hs _].
    exact (trimStart_fixed_head _ Hs ltac:(discriminate)). }
  cbn [firstn]. unfold trimStart. cbn [drop_while]. now rewrite Ha.
Qed.

(** Cleaned text is a prefix of the trimmed join of the content lines. *)
Lemma cleaned_is_prefix (content : jstr) :
  exists v,
    trim (join [newline] (content_lines content))
    = cleanProvisionContent content ++ v.
Proof.
  destruct (cleaned_is_trimmed_prefix content) as [k ->].
  set (c0 := trim (join [newline] (content_lines content))).
  unfold trim at 1. rewrite (trimStart_firstn k c0) by apply trim_idem.
  destruct (trimEnd_prefix (firstn k c0)) as [ws E].
  exists (ws ++ skipn k c0).
  rewrite app_assoc, <- E. symmetry. apply firstn_skipn.
Qed.

(** ** The lines of cleaned text *)

Lemma cleaned_lines_started (content : jstr) :
  lines_started false (cleanProvisionContent content) = true.
Proof.
  destruct (cleaned_is_trimmed_prefix content) as [k ->].
  assert (Hs : lines_started false
                 (firstn k (trim (join [newline] (content_lines content))))
               = true)
    by apply lines_started_firstn, joined_lines_started.
  apply lines_started_trimStart in Hs. unfold trim at 1.
  destruct (lines_started_trimEnd _ _ Hs) as [B|F].
  - now rewrite (trimEnd_blank _ B).
  - now apply lines_filled_started.
Qed.

(** The lines of cleaned text, but for the last one, are content lines:
    only the last line can have lost its end to the fix-up. *)
Lemma cleaned_front_lines (content : jstr) :
  Forall (fun l => is_content_line l = true)
         (removelast (split newline (cleanProvisionContent content))).
Proof.
  destruct (content_lines_facts content) as (Hc & Hn & Hp).
  destruct (cleaned_is_prefix content) as [v Ev].
  destruct (content_lines content) as [|l ls] eqn:El.
  - change (trim (join [newline] [])) with (@nil cu) in Ev.
    symmetry in Ev. apply app_eq_nil in Ev. destruct Ev as [-> _].
    constructor.
  - assert (Hne : l :: ls <> []) by discriminate.
    destruct (cleaned_lines_stable (l :: ls) Hne Hc Hn Hp) as [_ Hcl].
    rewrite Ev in Hcl. unfold split in *.
    exact (split_go_prefix _ newline _ v [] Hcl).
Qed.

(** Text whose lines are all content lines, the last of them no keyword
    line, goes through passes 1 and 2 unchanged. *)
Lemma content_lines_all_kept (y : jstr) :
  Forall (fun l => is_content_line l = true) (split newline y) ->
  isKeywordLine (trim (last (split newline y) [])) = false ->
  content_lines y = split newline y.
Proof.
  intros Hc Hk. unfold content_lines. cbv zeta.
  rewrite (filter_all _ _ Hc).
  pose proof (split_go_nonempty newline y []) as Hne. fold (split newline y) in Hne.
  destruct (exists_last Hne) as (R & L & E). rewrite E in *.
  rewrite last_last in Hk. rewrite rev_unit. cbn [pop_keyword_lines].
  rewrite Hk. rewrite <- rev_unit. apply rev_involutive.
Qed.

(** When pass 1 or pass 2 takes the last line of a text, the lines left
    are a proper part of its lines. *)
Lemma content_lines_last_lost (y : jstr) :
  Forall (fun l => is_content_line l = true)
         (removelast (split newline y)) ->
  is_content_line (last (split newline y) []) = false
  \/ isKeywordLine (trim (last (split newline y) [])) = true ->
  exists D, D <> [] /\ split newline y = content_lines y ++ D.
Proof.
  intros Hc Hlost. unfold content_lines. cbv zeta.
  pose proof (split_go_nonempty newline y []) as Hne. fold (split newline y) in Hne.
  destruct (exists_last Hne) as (R & L & E). rewrite E in *.
  rewrite removelast_last in Hc. rewrite last_last in Hlost.
  destruct (pop_keyword_lines_split (rev R)) as (dropped & Ed & _).
  assert (ER : R = rev (pop_keyword_lines (rev R)) ++ rev dropped).
  { rewrite <- rev_app_distr, <- Ed. symmetry. apply rev_involutive. }
  assert (Hpop : pop_keyword_lines
                   (rev (filter is_content_line (R ++ [L])))
                 = pop_keyword_lines (rev R)).
  { rewrite filter_app, (filter_all _ _ Hc). cbn [filter].
    destruct (is_content_line L) eqn:EL.
    - destruct Hlost as [Hl|Hl]; [discriminate|].
      rewrite rev_unit. cbn [pop_keyword_lines]. now rewrite Hl.
    - now rewrite app_nil_r. }
  rewrite Hpop. exists (rev dropped ++ [L]). split.
  - destruct (rev dropped); discriminate.
  - rewrite app_assoc, <- ER. reflexivity.
Qed.

Lemma cleaned_lines_filled (content : jstr) :
  cleanProvisionContent content = []
  \/ Forall (fun line => blank line = false)
            (split newline (cleanProvisionContent content)).
Proof.
  destruct (cleaned_is_trimmed_prefix content) as [k ->].
  assert (Hs : lines_started false
                 (firstn k (trim (join [newline] (content_lines content))))
               = true)
    by apply lines_started_firstn, joined_lines_started.
  apply lines_started_trimStart in Hs. unfold trim at 1 3.
  destruct (lines_started_trimEnd _ _ Hs) as [B|F].
  - left. now apply trimEnd_blank.
  - right. unfold split. now apply lines_filled_split.
Qed.

(** A trailing section reference that the fix-up finds is not empty:
    stripping it makes the text shorter. *)
Lemma strip_trailing_ref_shorter (s : jstr) :
  re_test TRAILING_SECTION_REF s = true ->
  exists k, k < length s /\ re_replace TRAILING_SECTION_REF [] s = firstn k s.
Proof.
  unfold re_test, re_replace.
  destruct (re_match TRAILING_SECTION_REF s) as [r|] eqn:E; [|discriminate].
  intros _. exists (m_index r). unfold re_match in E.
  apply search_from_sound in E.
  destruct E as (pre & s0 & p0 & p' & Es & _ & _ & Hi & Es0 & Hsem).
  cbn [TRAILING_SECTION_REF plain re_body re_ic seqs fold_right] in Hsem.
  pose proof Hsem as Hhead. unfold plus, space in Hhead.
  apply sem_plus_head in Hhead. destruct Hhead as (a & w & Ea & _).
  do 4 peel Hsem. apply sem_end_inv in Hsem. destruct Hsem as (_ & Hafter & _).
  rewrite Hafter. cbn [app]. rewrite app_nil_r. split; [|reflexivity].
  rewrite Hi, Es, Ea, length_app. cbn [length Nat.add]. lia.
Qed.

(** C2 (as amended). Cleaning cleaned text changes nothing exactly when
    the cleaned text is settled: it is empty, or its last line (the only
    one the fix-up can have shortened) is still a content line, neither
    blank nor of a metadata shape, is no keyword line, and no trailing
    section reference is left in the text. *)
Theorem clean_twice_iff :
  forall content : jstr,
    let cleaned := cleanProvisionContent content in
    let last_line := last (split newline cleaned) [] in
    cleanProvisionContent cleaned = cleaned
    <-> (cleaned = []
         \/ (is_content_line last_line = true
             /\ isKeywordLine (trim last_line) = false
             /\ re_test TRAILING_SECTION_REF cleaned = false)).
Proof.
  intro content. cbv zeta.
  pose proof (cleaned_front_lines content) as Hfront.
  pose proof (cleaned_lines_filled content) as Hfilled.
  pose proof (cleaned_lines_started content) as Hstarted.
  assert (Htrim : trim (cleanProvisionContent content)
                  = cleanProvisionContent content).
  { unfold cleanProvisionContent, fix_up. cbv zeta. apply trim_idem. }
  remember (cleanProvisionContent content) as y eqn:Ey. clear Ey content.
  pose proof (split_go_nonempty newline y []) as Hne.
  fold (split newline y) in Hne.
  assert (Hall : is_content_line (last (split newline y) []) = true ->
                 Forall (fun l => is_content_line l = true)
                        (split newline y)).
  { intro H. rewrite (app_removelast_last [] Hne).
    apply Forall_app. split; [exact Hfront|]. now constructor. }
  split.
  - intro Hfix. destruct (list_eq_dec N.eq_dec y []) as [Hy|Hy];
      [now left|right].
    destruct Hfilled as [Hf|Hf]; [exfalso; exact (Hy Hf)|].
    assert (Hlost : is_content_line (last (split newline y) []) = false
                    \/ isKeywordLine (trim (last (split newline y) [])) = true
                    -> False).
    { intro Hl.
      destruct (content_lines_last_lost y Hfront Hl) as (D & HD & ED).
      pose proof (cleaned_length y) as H1.
      assert (HDf : Forall (fun x : jstr => x <> []) D).
      { rewrite ED in Hf. apply Forall_app in Hf. destruct Hf as [_ Hf].
        eapply Forall_impl; [|exact Hf]. intros x Hx ->. discriminate Hx. }
      pose proof (join_app_length (content_lines y) D HD HDf) as H2.
      rewrite <- ED, join_split in H2. rewrite Hfix in H1. lia. }
    destruct (is_content_line (last (split newline y) [])) eqn:E1;
      [|exfalso; apply Hlost; now left].
    destruct (isKeywordLine (trim (last (split newline y) []))) eqn:E2;
      [exfalso; apply Hlost; now right|].
    destruct (re_test TRAILING_SECTION_REF y) eqn:E3; [exfalso|auto].
    revert Hfix. unfold cleanProvisionContent.
    rewrite (content_lines_all_kept y (Hall eq_refl) E2), join_split, Htrim.
    unfold fix_up.
    destruct (strip_trailing_ref_shorter y E3) as (k & Hk & ->).
    rewrite replace_all_BLANK_RUN_started
      by now apply lines_started_firstn.
    intro Hfix. pose proof (trim_length (firstn k y)) as H1.
    rewrite Hfix, length_firstn in H1. lia.
  - intros [->|(E1 & E2 & E3)]; [vm_compute; reflexivity|].
    unfold cleanProvisionContent.
    rewrite (content_lines_all_kept y (Hall E1) E2), join_split, Htrim.
    apply fix_up_id; [exact E3| |exact Htrim].
    intro Hin. specialize (Hall E1). rewrite Forall_forall in Hall.
    apply Hall in Hin. discriminate Hin.
Qed.

(** C2 (as amended) on the example of the specification, where the
    fix-up strips a trailing reference and the text is settled. *)
Lemma clean_twice_iff_witness :
  let content :=
    text ["BGBl. Nr. 1/1930"; "§ 1";
          "Österreich ist eine demokratische Republik. Artikel 1.";
          "Staatsform, Demokratie, Grundprinzip"]%string in
  cleanProvisionContent (cleanProvisionContent content)
  = cleanProvisionContent content.
Proof.
  cbv zeta.
  apply (proj2 (clean_twice_iff
                  (text ["BGBl. Nr. 1/1930"; "§ 1";
                         "Österreich ist eine demokratische Republik. Artikel 1.";
                         "Staatsform, Demokratie, Grundprinzip"]%string))).
  right. split; [|split]; vm_compute; reflexivity.
Defined.
